(** * Raw-file ingest driver of obs_base ([python/lsst/obs/base/gen3/ingest.py])

    A shallow embedding of [RawIngestTask] and a verification of the
    properties its specification states about it.

    The driver is Python code that mutates two things: the fields of the task
    object ([dimensionEntriesDone], [instrumentCache], [stashRun],
    [visitRegions]) and the registry behind [self.butler].  Both are threaded
    explicitly through a state-and-exception monad.  An exception leaves the
    mutations made so far in place, as in Python; only [transaction]
    restores the registry.  Every call that reaches the registry is also
    appended to a history, so that statements about how often the catalog is
    read or written, and about how a scoped transaction was left, can be
    made.

    A second, small part embeds [ExposureIdInfo]
    ([python/lsst/obs/base/exposureIdInfo.py]), the struct of an exposure id
    and the bits it may use. *)

From Stdlib Require Import ZArith Lia Permutation.
From stdpp Require Import base option list gmap sets strings.

#[local] Open Scope Z_scope.
#[local] Open Scope string_scope.
#[local] Open Scope list_scope.

(** ** Dimensions and data identities *)

(** The five dimensions the task extracts from the registry's universe in
    [__init__]. *)
Inductive Dimension :=
  | dim_instrument
  | dim_detector
  | dim_physical_filter
  | dim_visit
  | dim_exposure.

#[global] Instance Dimension_eq_dec : EqDecision Dimension.
Proof. solve_decision. Defined.

Definition Dimension_to_nat (d : Dimension) : nat :=
  match d with
  | dim_instrument => 0
  | dim_detector => 1
  | dim_physical_filter => 2
  | dim_visit => 3
  | dim_exposure => 4
  end%nat.

Definition Dimension_of_nat (n : nat) : Dimension :=
  match n with
  | 0 => dim_instrument
  | 1 => dim_detector
  | 2 => dim_physical_filter
  | 3 => dim_visit
  | _ => dim_exposure
  end%nat.

#[global] Instance Dimension_countable : Countable Dimension.
Proof.
  refine (inj_countable' Dimension_to_nat Dimension_of_nat _).
  intros []; reflexivity.
Defined.

(** [dimension.name]. *)
Definition name (d : Dimension) : string :=
  match d with
  | dim_instrument => "instrument"
  | dim_detector => "detector"
  | dim_physical_filter => "physical_filter"
  | dim_visit => "visit"
  | dim_exposure => "exposure"
  end.

(** The elements of [self.dimensions]: the dimensions [__init__] names.
    The list stands for the set; the order in which the object is iterated
    is not this one but the one of the registry's universe, see
    [selfDimensions]. *)
Definition dimensions : list Dimension :=
  [dim_instrument; dim_detector; dim_physical_filter; dim_visit; dim_exposure].

(** The fields of [astro_metadata_translator.ObservationInfo] the task
    reads.  [visit_id] and [physical_filter] may be [None]. *)
Record ObservationInfo := {
  instrument : string;
  exposure_id : Z;
  detector_num : Z;
  visit_id : option Z;
  physical_filter : option string;
}.

(** A data ID: its dimension set and the values of its links.  The links of
    [visit] and [physical_filter] are absent when the dimension is. *)
Record DataId := {
  dataId_dimensions : list Dimension;
  dataId_instrument : string;
  dataId_exposure : Z;
  dataId_detector : Z;
  dataId_visit : option Z;
  dataId_physical_filter : option string;
}.

#[global] Instance DataId_eq_dec : EqDecision DataId.
Proof. solve_decision. Defined.

(** [DataId(dimensions=..., instrument=..., exposure=..., visit=...,
    detector=..., physical_filter=...)]: a keyword whose dimension is not in
    [dimensions] is dropped. *)
Definition newDataId (dims : list Dimension) (i : string) (e : Z)
    (v : option Z) (d : Z) (f : option string) : DataId :=
  {| dataId_dimensions := dims;
     dataId_instrument := i;
     dataId_exposure := e;
     dataId_detector := d;
     dataId_visit := if decide (dim_visit ∈ dims) then v else None;
     dataId_physical_filter :=
       if decide (dim_physical_filter ∈ dims) then f else None |}.

(** [self.dimensions.difference(toRemove)]. *)
Definition difference (dims toRemove : list Dimension) : list Dimension :=
  filter (λ d, d ∉ toRemove) dims.

(** [RawIngestTask.extractDataId].  The calls that copy descriptive fields
    into the exposure and visit entries do not change the identity and are
    left out. *)
Definition extractDataId (obsInfo : ObservationInfo) : DataId :=
  let toRemove := [] in
  let toRemove :=
    if visit_id obsInfo is None then dim_visit :: toRemove else toRemove in
  let toRemove :=
    if physical_filter obsInfo is None
    then dim_physical_filter :: toRemove else toRemove in
  let dims :=
    if toRemove is [] then dimensions else difference dimensions toRemove in
  newDataId dims (instrument obsInfo) (exposure_id obsInfo)
    (visit_id obsInfo) (detector_num obsInfo) (physical_filter obsInfo).

(** The identity of one dimension entry: what
    [DataId(fullDataId, dimension=dimension)] keeps of the full identity.
    [Unlinked d i] is the identity of dimension [d] built from a full
    identity that has no value for the link of [d]: it keeps the instrument
    alone. *)
Inductive DimensionDataId :=
  | InstrumentId (i : string)
  | DetectorId (i : string) (d : Z)
  | PhysicalFilterId (i : string) (f : string)
  | VisitId (i : string) (v : Z)
  | ExposureId (i : string) (e : Z)
  | Unlinked (d : Dimension) (i : string).

#[global] Instance DimensionDataId_eq_dec : EqDecision DimensionDataId.
Proof. solve_decision. Defined.

#[global] Instance DimensionDataId_countable : Countable DimensionDataId.
Proof.
  refine (inj_countable'
    (λ k, match k with
          | InstrumentId i => (dim_instrument, i, Some (inl 0))
          | DetectorId i d => (dim_detector, i, Some (inl d))
          | PhysicalFilterId i f => (dim_physical_filter, i, Some (inr f))
          | VisitId i v => (dim_visit, i, Some (inl v))
          | ExposureId i e => (dim_exposure, i, Some (inl e))
          | Unlinked d i => (d, i, None)
          end)
    (λ t, match t with
          | (d, i, None) => Unlinked d i
          | (dim_instrument, i, _) => InstrumentId i
          | (dim_detector, i, Some (inl d)) => DetectorId i d
          | (dim_physical_filter, i, Some (inr f)) => PhysicalFilterId i f
          | (dim_visit, i, Some (inl v)) => VisitId i v
          | (dim_exposure, i, Some (inl e)) => ExposureId i e
          | (_, i, _) => InstrumentId i
          end) _).
  intros [| | | | | []]; reflexivity.
Defined.

(** The dimension an entry identity belongs to. *)
Definition dimensionOf (k : DimensionDataId) : Dimension :=
  match k with
  | InstrumentId _ => dim_instrument
  | DetectorId _ _ => dim_detector
  | PhysicalFilterId _ _ => dim_physical_filter
  | VisitId _ _ => dim_visit
  | ExposureId _ _ => dim_exposure
  | Unlinked d _ => d
  end.

(** [DataId(fullDataId, dimension=dimension)], where the full identity has a
    value for the dimension's link; [None] where it has none. *)
Definition dimensionDataId (fullDataId : DataId) (dimension : Dimension)
    : option DimensionDataId :=
  let i := dataId_instrument fullDataId in
  match dimension with
  | dim_instrument => Some (InstrumentId i)
  | dim_detector => Some (DetectorId i (dataId_detector fullDataId))
  | dim_physical_filter =>
      PhysicalFilterId i <$> dataId_physical_filter fullDataId
  | dim_visit => VisitId i <$> dataId_visit fullDataId
  | dim_exposure => Some (ExposureId i (dataId_exposure fullDataId))
  end.

(** The key a region is stored under: a detector-level region belongs to
    (visit, detector, instrument), a visit-level one to (instrument, visit).
    [UnlinkedRegion i d] is the key of a detector-level region built from an
    identity that has no visit. *)
Inductive RegionKey :=
  | DetectorRegion (i : string) (v : Z) (d : Z)
  | VisitRegion (i : string) (v : Z)
  | UnlinkedRegion (i : string) (d : Z).

#[global] Instance RegionKey_eq_dec : EqDecision RegionKey.
Proof. solve_decision. Defined.

#[global] Instance RegionKey_countable : Countable RegionKey.
Proof.
  refine (inj_countable'
    (λ k, match k with
          | DetectorRegion i v d => (i, inl (v, d))
          | VisitRegion i v => (i, inr (inl v))
          | UnlinkedRegion i d => (i, inr (inr d))
          end)
    (λ t, match t with
          | (i, inl (v, d)) => DetectorRegion i v d
          | (i, inr (inl v)) => VisitRegion i v
          | (i, inr (inr d)) => UnlinkedRegion i d
          end) _).
  intros []; reflexivity.
Defined.

(** The identity of a dataset of type "raw", whose dimensions are
    (instrument, detector, exposure) ([getDatasetType]). *)
Definition DatasetId : Type := string * Z * Z.

Definition datasetId (dataId : DataId) : DatasetId :=
  (dataId_instrument dataId, dataId_detector dataId, dataId_exposure dataId).

(** ** Exceptions and outcomes *)

(** The exception classes the driver raises, catches or lets through.
    [IngestConflictError] is a subclass of [ConflictingDefinitionError];
    [OtherError] stands for every class the driver never names (I/O and
    header-translation failures among them). *)
Inductive Exn :=
  | LookupError (entry : option DimensionDataId)
  | KeyError (key : string)
  | IndexError
  | ValueError
  | IntegrityError
  | ConflictingDefinitionError
  | IngestConflictError (file : string) (dataId : DataId)
  | OtherError (msg : string).

(** [isinstance(e, ConflictingDefinitionError)]. *)
Definition isConflictingDefinitionError (e : Exn) : bool :=
  match e with
  | ConflictingDefinitionError | IngestConflictError _ _ => true
  | _ => false
  end.

Definition isIngestConflictError (e : Exn) : bool :=
  match e with
  | IngestConflictError _ _ => true
  | _ => false
  end.

Definition isIntegrityError (e : Exn) : bool :=
  match e with
  | IntegrityError => true
  | _ => false
  end.

(** What a call does: return a value or raise. *)
Inductive Outcome (A : Type) :=
  | Returned (a : A)
  | Raised (e : Exn).
Arguments Returned {A} a.
Arguments Raised {A} e.

Definition raises {A} (o : Outcome A) : Prop :=
  match o with
  | Returned _ => False
  | Raised _ => True
  end.

(** What the datastore and the instrument classes do, which are no part of
    the registry: they answer, or fail with an exception of their own, an
    I/O or a formatter error, which is no conflict of definitions and which
    the driver never names. *)
Inductive Attempt (A : Type) :=
  | Succeeded (a : A)
  | Failed (msg : string).
Arguments Succeeded {A} a.
Arguments Failed {A} msg.

Definition answer {A} (x : Attempt A) : Outcome A :=
  match x with
  | Succeeded a => Returned a
  | Failed msg => Raised (OtherError msg)
  end.

(** ** Configuration ([RawIngestConfig]) *)

Inductive Transfer :=
  | transfer_move
  | transfer_copy
  | transfer_hardlink
  | transfer_symlink.

Inductive Conflict :=
  | conflict_ignore
  | conflict_fail.

Inductive OnError :=
  | onError_continue
  | onError_break
  | onError_rollback.

Record RawIngestConfig := {
  transfer : option Transfer;
  conflict : Conflict;
  stash : option string;
  onError : OnError;
  doAddRegions : bool;
  padRegionAmount : Z;
}.

(** ** The history of registry calls *)

(** One entry per call that reaches the registry, the transaction manager or
    the task's log, with what the call answered. *)
Inductive Event :=
  | RegisterDatasetType (datasetType : string)
  | FindDimensionEntry (k : DimensionDataId) (found : bool)
  | AddDimensionEntry (k : DimensionDataId)
  | SetDimensionRegion (k : RegionKey) (update : bool) (stored : bool)
  | ExpandDataId (k : RegionKey)
  | EnsureRun (collection : string)
  | Ingest (collection : string) (file : string) (id : DatasetId)
      (stored : bool)
  | TransactionBegin
  | TransactionCommit
  | TransactionRollback
  | LogInfo (file : string)
  | LogWarn (file : string).

#[global] Instance Event_eq_dec : EqDecision Event.
Proof. solve_decision. Defined.



(** ** Sky geometry *)

(** [lsst.sphgeom.ConvexPolygon]: the constructor builds the convex hull of
    the points it is given, [getVertices] returns the hull's corners.  The
    geometry library is not part of this repository; the driver only passes
    vertices through it. *)
Class Geometry := {
  Vertex : Type;
  Region : Type;
  ConvexPolygon : list Vertex → Region;
  getVertices : Region → list Vertex;
}.

Section Driver.
Context `{Geometry}.

(** ** Files *)

(** What the collaborators compute from one header: the translated
    observation info ([ObservationInfo(header)]) and the region of the padded
    bounding box mapped through the header's WCS.  Either can fail. *)
Record PropertyList := {
  translated : Outcome ObservationInfo;
  skyRegion : Z → Outcome Region;
}.

(** The formatter class an instrument names for its raw files. *)
Definition Formatter : Type := string.

(** An instance of a subclass of [lsst.daf.butler.instrument.Instrument]:
    what its [getRawFormatter] answers for a data ID. *)
Record Instrument := {
  getRawFormatter : DataId → Attempt Formatter;
}.

(** A raw file: its absolute path, what [readMetadata] finds in it, and what
    the datastore does when it is given the file to transfer in a mode and
    to read with a formatter. *)
Record RawFile := {
  path : string;
  metadata : Outcome PropertyList;
  datastoreIngest : option Transfer → Formatter → Attempt unit;
}.

(** ** The registry *)

(** [lsst.daf.butler.Run]: a collection name and the id the registry
    assigns on registration. *)
Record Run := {
  collection : string;
  run_id : option nat;
}.

#[global] Instance Run_eq_dec : EqDecision Run.
Proof. solve_decision. Defined.

(** Modelled from the spec: the catalog behind [self.butler.registry], which
    is not part of this repository.  It holds the registered dataset types,
    the dimension entries, the regions, the dataset records of every
    collection (with the file each one binds) and the registered runs. *)
Record Registry := {
  datasetTypes : gset string;
  dimensionEntries : gset DimensionDataId;
  regions : gmap RegionKey Region;
  datasets : gmap (string * DatasetId) string;
  runs : gset string;
}.

(** The fields of a [RawIngestTask] instance that change after
    construction. *)
Record RawIngestTask := {
  dimensionEntriesDone : gmap Dimension (gset DimensionDataId);
  instrumentCache : gmap string Instrument;
  stashRun : option Run;
  visitRegions : list ((string * Z) * list Vertex);
}.

(** Everything the driver can read or change: the task, the registry of its
    butler, the butler's own run, the instrument classes registered in
    [Instrument.factories], each with what calling it answers, and the
    history of calls.

    Two things the butler library decides and this repository does not are
    fixed by the world.  [universe] is [butler.registry.dimensions], the
    dimensions in the order in which the universe iterates them, which is
    the order in which [self.dimensions] is iterated.  [linksRequired] tells
    what [DataId(fullDataId, dimension=d)] does when [fullDataId] has no
    value for the link of [d]: with [true] the constructor raises
    [LookupError], with [false] it builds the identity without the value. *)
Record World := {
  task : RawIngestTask;
  registry : Registry;
  butler_run : Run;
  factories : gmap string (Attempt Instrument);
  universe : list Dimension;
  linksRequired : bool;
  history : list Event;
}.

Definition set_task (f : RawIngestTask → RawIngestTask) (w : World) : World :=
  {| task := f (task w); registry := registry w; butler_run := butler_run w;
     factories := factories w; universe := universe w;
     linksRequired := linksRequired w; history := history w |}.

Definition set_registry (f : Registry → Registry) (w : World) : World :=
  {| task := task w; registry := f (registry w); butler_run := butler_run w;
     factories := factories w; universe := universe w;
     linksRequired := linksRequired w; history := history w |}.

Definition record (ev : Event) (w : World) : World :=
  {| task := task w; registry := registry w; butler_run := butler_run w;
     factories := factories w; universe := universe w;
     linksRequired := linksRequired w; history := history w ++ [ev] |}.

(** ** The monad of driver code *)

Definition M (A : Type) : Type := World → Outcome A * World.

Definition ret {A} (a : A) : M A := λ w, (Returned a, w).

Definition raise {A} (e : Exn) : M A := λ w, (Raised e, w).

Definition bind {A B} (m : M A) (k : A → M B) : M B := λ w,
  match m w with
  | (Returned a, w') => k a w'
  | (Raised e, w') => (Raised e, w')
  end.

(** [try: m except ...: handler], the handler deciding what it catches. *)
Definition catch {A} (m : M A) (handler : Exn → M A) : M A := λ w,
  match m w with
  | (Returned a, w') => (Returned a, w')
  | (Raised e, w') => handler e w'
  end.

Definition get : M World := λ w, (Returned w, w).

Definition modify (f : World → World) : M unit := λ w, (Returned tt, f w).

(** An [Outcome] computed outside the world. *)
Definition lift {A} (o : Outcome A) : M A := λ w, (o, w).

(** A call of the datastore or of an instrument class. *)
Definition attempt {A} (x : Attempt A) : M A := lift (answer x).

End Driver.

Notation "'let*' x ':=' m 'in' k" := (bind m (λ x, k))
  (at level 10, x name, m at level 100, k at level 200).
Notation "'let*' ' p ':=' m 'in' k" := (bind m (λ p, k))
  (at level 10, p pattern, m at level 100, k at level 200).

Section Code.
Context `{Geometry}.

(** [for x in xs: body(x)]. *)
Fixpoint forEach {X} (xs : list X) (body : X → M unit) : M unit :=
  match xs with
  | [] => ret tt
  | x :: xs' => let* _ := body x in forEach xs' body
  end.

(** ** Registry operations *)

(** Modelled from the spec: [registerDatasetType], idempotent. *)
Definition registerDatasetType (datasetType : string) : M unit :=
  modify (λ w, record (RegisterDatasetType datasetType)
    (set_registry (λ r,
      {| datasetTypes := {[datasetType]} ∪ datasetTypes r;
         dimensionEntries := dimensionEntries r;
         regions := regions r;
         datasets := datasets r;
         runs := runs r |}) w)).

(** Modelled from the spec: [findDimensionEntry] answers the entry or
    [None]. *)
Definition findDimensionEntry (dimension : Dimension) (k : DimensionDataId)
    : M (option DimensionDataId) := λ w,
  let found := bool_decide (k ∈ dimensionEntries (registry w)) in
  (Returned (if found then Some k else None),
   record (FindDimensionEntry k found) w).

(** Modelled from the spec: [addDimensionEntry] inserts the entry. *)
Definition addDimensionEntry (dimension : Dimension) (k : DimensionDataId)
    : M unit :=
  modify (λ w, record (AddDimensionEntry k)
    (set_registry (λ r,
      {| datasetTypes := datasetTypes r;
         dimensionEntries := {[k]} ∪ dimensionEntries r;
         regions := regions r;
         datasets := datasets r;
         runs := runs r |}) w)).

Definition storeRegion (k : RegionKey) (region : Region) (r : Registry)
    : Registry :=
  {| datasetTypes := datasetTypes r;
     dimensionEntries := dimensionEntries r;
     regions := <[k := region]> (regions r);
     datasets := datasets r;
     runs := runs r |}.

(** Modelled from the spec: [setDimensionRegion] ([setRegion(identity,
    region, update) -> ok | alreadyExists]).  With [update=False] a region
    already stored under the key is signalled by [IntegrityError] and kept;
    with [update=True], the default, the region replaces it. *)
Definition setDimensionRegion (k : RegionKey) (region : Region)
    (update : bool) : M unit := λ w,
  if negb update && bool_decide (is_Some (regions (registry w) !! k))
  then (Raised IntegrityError, record (SetDimensionRegion k update false) w)
  else (Returned tt,
        record (SetDimensionRegion k update true)
          (set_registry (storeRegion k region) w)).

(** Modelled from the spec: [expandDataId(..., region=True).region], the
    region stored for the visit or [None]. *)
Definition expandDataId_region (i : string) (v : Z) : M (option Region) :=
  λ w, (Returned (regions (registry w) !! VisitRegion i v),
        record (ExpandDataId (VisitRegion i v)) w).

(** Modelled from the spec: [ensureRun] ([ensureCollectionExists]) registers
    the run's collection and gives the run an id.  Python mutates the [Run]
    object; here the registered run is returned to the caller. *)
Definition ensureRun (run : Run) : M Run := λ w,
  let r := registry w in
  (Returned {| collection := collection run;
               run_id := Some (size (runs r)) |},
   record (EnsureRun (collection run))
     (set_registry (λ r,
       {| datasetTypes := datasetTypes r;
          dimensionEntries := dimensionEntries r;
          regions := regions r;
          datasets := datasets r;
          runs := {[collection run]} ∪ runs r |}) w)).

Definition storeDataset (coll : string) (file : RawFile) (dataId : DataId)
    (r : Registry) : Registry :=
  {| datasetTypes := datasetTypes r;
     dimensionEntries := dimensionEntries r;
     regions := regions r;
     datasets := <[(coll, datasetId dataId) := path file]> (datasets r);
     runs := runs r |}.

(** Modelled from the spec: [Butler.ingest] into the collection of the
    butler's run, one atomic step that registers the dataset, transfers the
    file and attaches the formatter.  A dataset of the same identity in that
    collection is a [ConflictingDefinitionError]; a transfer the datastore
    cannot make, or a formatter it cannot use, is an error of the datastore;
    either way nothing changes. *)
Definition butler_ingest (coll : string) (file : RawFile) (dataId : DataId)
    (transfer : option Transfer) (formatter : Formatter)
    : M (string * DatasetId) := λ w,
  let id := datasetId dataId in
  match datasets (registry w) !! (coll, id) with
  | Some _ =>
      (Raised ConflictingDefinitionError,
       record (Ingest coll (path file) id false) w)
  | None =>
      match datastoreIngest file transfer formatter with
      | Failed msg =>
          (Raised (OtherError msg),
           record (Ingest coll (path file) id false) w)
      | Succeeded _ =>
          (Returned (coll, id),
           record (Ingest coll (path file) id true)
             (set_registry (storeDataset coll file dataId) w))
      end
  end.

(** [with self.butler.transaction(): body].  Leaving the block by an
    exception restores the registry as it was on entry and lets the
    exception through; leaving it any other way commits.  The task's own
    fields are not restored. *)
Definition transaction {A} (body : M A) : M A := λ w,
  match body (record TransactionBegin w) with
  | (Returned a, w') => (Returned a, record TransactionCommit w')
  | (Raised e, w') =>
      (Raised e,
       record TransactionRollback (set_registry (λ _, registry w) w'))
  end.

(** [self.log.infof] and [self.log.warnf]. *)
Definition log_info (file : RawFile) : M unit :=
  modify (record (LogInfo (path file))).

Definition log_warn (file : RawFile) : M unit :=
  modify (record (LogWarn (path file))).

(** ** The task *)

(** The fields [__init__] sets. *)
Definition init (config : RawIngestConfig) : RawIngestTask :=
  {| dimensionEntriesDone := list_to_map ((λ k, (k, ∅)) <$> dimensions);
     instrumentCache := ∅;
     stashRun :=
       (λ s, {| collection := s; run_id := None |}) <$> stash config;
     visitRegions := [] |}.

(** [self.visitRegions.setdefault(key, []).extend(vertices)]: a key already
    in the dict keeps its place, a new key goes to the end. *)
Fixpoint extendVisitRegions (key : string * Z) (vertices : list Vertex)
    (d : list ((string * Z) * list Vertex))
    : list ((string * Z) * list Vertex) :=
  match d with
  | [] => [(key, vertices)]
  | (k, vs) :: d' =>
      if decide (k = key) then (k, vs ++ vertices) :: d'
      else (k, vs) :: extendVisitRegions key vertices d'
  end.

(** [self.visitRegions.setdefault((instrument, visit), []).extend(vertices)]
    on the task. *)
Definition accumulate (key : string * Z) (vertices : list Vertex) : M unit :=
  modify (set_task (λ t,
    {| dimensionEntriesDone := dimensionEntriesDone t;
       instrumentCache := instrumentCache t;
       stashRun := stashRun t;
       visitRegions := extendVisitRegions key vertices (visitRegions t) |})).

(** [self.instrumentCache[name] = instrument]. *)
Definition cacheInstrument (i : string) (instrument : Instrument) : M unit :=
  modify (set_task (λ t,
    {| dimensionEntriesDone := dimensionEntriesDone t;
       instrumentCache := <[i := instrument]> (instrumentCache t);
       stashRun := stashRun t;
       visitRegions := visitRegions t |})).

(** The id [ensureRun] writes into [self.stashRun]. *)
Definition setStashRun (registered : Run) : M unit :=
  modify (set_task (λ t,
    {| dimensionEntriesDone := dimensionEntriesDone t;
       instrumentCache := instrumentCache t;
       stashRun := Some registered;
       visitRegions := visitRegions t |})).

(** The body of the loop of [_addVisitRegions]. *)
Definition addVisitRegion (entry : (string * Z) * list Vertex) : M unit :=
  let '((i, v), vertices) := entry in
  let* existingRegion := expandDataId_region i v in
  let vertices :=
    match existingRegion with
    | Some existing => getVertices existing ++ vertices
    | None => vertices
    end in
  let region := ConvexPolygon vertices in
  setDimensionRegion (VisitRegion i v) region true.

(** [RawIngestTask._addVisitRegions]. *)
Definition _addVisitRegions : M unit :=
  let* w := get in
  forEach (visitRegions (task w)) addVisitRegion.

(** [RawIngestTask.readHeaders]: a single-element list. *)
Definition readHeaders (file : RawFile) : M (list PropertyList) :=
  let* header := lift (metadata file) in
  ret [header].

(** [headers[0]]. *)
Definition first (headers : list PropertyList) : M PropertyList :=
  match headers with
  | header :: _ => ret header
  | [] => raise IndexError
  end.

(** [RawIngestTask.buildRegion]: the box is grown only by a positive pad. *)
Definition buildRegion (config : RawIngestConfig)
    (headers : list PropertyList) : M Region :=
  let* header := first headers in
  lift (skyRegion header
          (if bool_decide (0 < padRegionAmount config)
           then padRegionAmount config else 0)).

(** [self.dimensionEntriesDone[dimension]]. *)
Definition entriesDone (dimension : Dimension) (w : World)
    : gset DimensionDataId :=
  default ∅ (dimensionEntriesDone (task w) !! dimension).

(** [self.dimensionEntriesDone[dimension].add(dimensionDataId)]. *)
Definition markDone (dimension : Dimension) (k : DimensionDataId)
    : M unit :=
  modify (set_task (λ t,
    {| dimensionEntriesDone :=
         <[dimension := {[k]} ∪ default ∅ (dimensionEntriesDone t !! dimension)]>
           (dimensionEntriesDone t);
       instrumentCache := instrumentCache t;
       stashRun := stashRun t;
       visitRegions := visitRegions t |})).

(** [for dimension in self.dimensions]: the five dimensions, each once, in
    the order of the universe.  A dimension the universe does not list comes
    after those it lists. *)
Definition selfDimensions (w : World) : list Dimension :=
  let listed := remove_dups (universe w) in
  listed ++ difference dimensions listed.

(** [DataId(fullDataId, dimension=dimension)] in the loop of
    [ensureDimensions], which is made for every dimension, whether the full
    identity has a value for its link or not. *)
Definition newDimensionDataId (fullDataId : DataId) (dimension : Dimension)
    : M DimensionDataId :=
  let* w := get in
  match dimensionDataId fullDataId dimension with
  | Some k => ret k
  | None =>
      if linksRequired w then raise (LookupError None)
      else ret (Unlinked dimension (dataId_instrument fullDataId))
  end.

(** The body of the loop over [self.dimensions] in [ensureDimensions].  The
    test [dimension.name in ("visit", "exposure")] is made on the dimension
    itself; [name_visit_exposure] shows it is the same test. *)
Definition ensureDimension (fullDataId : DataId) (dimension : Dimension)
    : M unit :=
  let* k := newDimensionDataId fullDataId dimension in
  let* w := get in
  if bool_decide (k ∈ entriesDone dimension w) then ret tt
  else
    let* dimensionEntryDict := findDimensionEntry dimension k in
    let* _ :=
      match dimensionEntryDict with
      | None =>
          if bool_decide (dimension ∈ [dim_visit; dim_exposure])
          then addDimensionEntry dimension k
          else raise (LookupError (Some k))
      | Some _ => ret tt
      end in
    markDone dimension k.

(** [DataId(fullDataId, dimensions=['visit', 'detector', 'instrument'],
    region=region)]: the key of the detector-level region.  Where the full
    identity has no visit the constructor does what it does in the loop: it
    raises, or builds the identity without the visit. *)
Definition detectorRegionKey (fullDataId : DataId) : M RegionKey :=
  let* w := get in
  match dataId_visit fullDataId with
  | Some v =>
      ret (DetectorRegion (dataId_instrument fullDataId) v
             (dataId_detector fullDataId))
  | None =>
      if linksRequired w then raise (LookupError None)
      else ret (UnlinkedRegion (dataId_instrument fullDataId)
                  (dataId_detector fullDataId))
  end.

(** [fullDataId['visit']]. *)
Definition getitem_visit (fullDataId : DataId) : M Z :=
  match dataId_visit fullDataId with
  | Some v => ret v
  | None => raise (KeyError "visit")
  end.

(** The part of [ensureDimensions] guarded by [doAddRegions]. *)
Definition addDetectorRegion (config : RawIngestConfig)
    (headers : list PropertyList) (fullDataId : DataId) : M unit :=
  let* region := buildRegion config headers in
  catch
    (let* k := detectorRegionKey fullDataId in
     let* _ := setDimensionRegion k region false in
     let* v := getitem_visit fullDataId in
     accumulate (dataId_instrument fullDataId, v) (getVertices region))
    (λ e, if isIntegrityError e then ret tt else raise e).

(** [RawIngestTask.ensureDimensions]. *)
Definition ensureDimensions (config : RawIngestConfig) (file : RawFile)
    : M (list PropertyList * DataId) :=
  let* headers := readHeaders file in
  let* header := first headers in
  let* obsInfo := lift (translated header) in
  let fullDataId := extractDataId obsInfo in
  let* w := get in
  let* _ := forEach (selfDimensions w) (ensureDimension fullDataId) in
  let* _ :=
    if doAddRegions config then addDetectorRegion config headers fullDataId
    else ret tt in
  ret (headers, fullDataId).

(** [Instrument.factories[name]()]: a [KeyError] when no class is registered
    under the name, what calling the class answers otherwise. *)
Definition instantiate (i : string) : M Instrument :=
  let* w := get in
  match factories w !! i with
  | Some factory => attempt factory
  | None => raise (KeyError i)
  end.

(** [RawIngestTask.getFormatter]: the instrument is instantiated from
    [Instrument.factories] on first use and cached, then asked for its
    formatter. *)
Definition getFormatter (dataId : DataId) : M Formatter :=
  let* w := get in
  let i := dataId_instrument dataId in
  let* instrument :=
    match instrumentCache (task w) !! i with
    | Some instrument => ret instrument
    | None =>
        let* instrument := instantiate i in
        let* _ := cacheInstrument i instrument in
        ret instrument
    end in
  attempt (getRawFormatter instrument dataId).

(** The collection [ingestFile] writes to: that of [run] when one is given
    and differs from the butler's, that of the butler's run otherwise. *)
Definition destination (w : World) (run : option Run) : string :=
  match run with
  | Some r =>
      if bool_decide (r ≠ butler_run w) then collection r
      else collection (butler_run w)
  | None => collection (butler_run w)
  end.

(** [RawIngestTask.ingestFile].  The formatter is an argument of
    [butler.ingest], so it is looked up first, inside the [try]. *)
Definition ingestFile (config : RawIngestConfig) (file : RawFile)
    (headers : list PropertyList) (dataId : DataId) (run : option Run)
    : M (string * DatasetId) :=
  let* w := get in
  let coll := destination w run in
  catch
    (let* formatter := getFormatter dataId in
     butler_ingest coll file dataId (transfer config) formatter)
    (λ err,
      if isConflictingDefinitionError err
      then raise (IngestConflictError (path file) dataId)
      else raise err).

(** The [with self.butler.transaction():] block of [processFile].  The
    [return] inside the block leaves it normally; the boolean tells whether
    it was taken. *)
Definition ingestDefault (config : RawIngestConfig) (file : RawFile)
    (headers : list PropertyList) (dataId : DataId) : M bool :=
  transaction
    (catch
      (let* _ := ingestFile config file headers dataId None in
       ret true)
      (λ e,
        if isIngestConflictError e then
          match conflict config with
          | conflict_fail => raise e
          | conflict_ignore => ret false
          end
        else raise e)).

(** What [processFile] does after the block, when the block was left
    without returning.  [ensureRun] gives the stash run its id, which the
    task keeps. *)
Definition resolveConflict (config : RawIngestConfig) (file : RawFile)
    (headers : list PropertyList) (dataId : DataId) : M unit :=
  match conflict config with
  | conflict_ignore =>
      let* w := get in
      match stashRun (task w) with
      | Some stashRun0 =>
          let* stashRun1 :=
            match run_id stashRun0 with
            | None =>
                let* registered := ensureRun stashRun0 in
                let* _ := setStashRun registered in
                ret registered
            | Some _ => ret stashRun0
            end in
          let* _ := log_info file in
          let* _ :=
            transaction
              (ingestFile config file headers dataId (Some stashRun1)) in
          ret tt
      | None => log_info file
      end
  | conflict_fail => ret tt
  end.

(** [RawIngestTask.processFile]. *)
Definition processFile (config : RawIngestConfig) (file : RawFile)
    : M unit :=
  let* '(headers, dataId) := ensureDimensions config file in
  let* returned := ingestDefault config file headers dataId in
  if (returned : bool) then ret tt
  else resolveConflict config file headers dataId.

(** What [run] has done when it reaches its loop: the dataset type is
    registered. *)
Definition registered (w : World) : World := (registerDatasetType "raw" w).2.

(** [RawIngestTask.run], with its three loops. *)
Definition run (config : RawIngestConfig) (files : list RawFile) : M unit :=
  let* _ := registerDatasetType "raw" in
  match onError config with
  | onError_rollback =>
      transaction
        (let* _ := forEach files (processFile config) in
         if doAddRegions config then _addVisitRegions else ret tt)
  | onError_break =>
      let* _ := forEach files (processFile config) in
      if doAddRegions config then _addVisitRegions else ret tt
  | onError_continue =>
      let* _ :=
        forEach files (λ file,
          catch (processFile config file) (λ err, log_warn file)) in
      if doAddRegions config then _addVisitRegions else ret tt
  end.

End Code.

(** * Exposure ids and their bits ([python/lsst/obs/base/exposureIdInfo.py])

    The constructor and the [unusedBits] property.  [fromDataId] packs a
    data ID with a dimension packer of the butler library, which is not part
    of this repository, and is left out. *)

(** [int.bit_length()]: the number of binary digits of the magnitude, zero
    for zero. *)
Definition bit_length (n : Z) : Z :=
  match n with
  | Z0 => 0
  | Zpos p | Zneg p => Z.pos (Pos.size p)
  end.

(** The fields of an [ExposureIdInfo]. *)
Record ExposureIdInfo := {
  expId : Z;
  expBits : Z;
  maxBits : option Z;
}.

(** The two [RuntimeError]s of the constructor. *)
Inductive RuntimeError :=
  | ExpIdTooWide (expId bits expBits : Z)
  | MaxBitsTooNarrow (expBits maxBits : Z).

(** [ExposureIdInfo.__init__], on integers. *)
Definition newExposureIdInfo (expId expBits : Z) (maxBits : option Z)
    : RuntimeError + ExposureIdInfo :=
  if bool_decide (bit_length expId > expBits)
  then inl (ExpIdTooWide expId (bit_length expId) expBits)
  else
    match maxBits with
    | Some m =>
        if bool_decide (m < expBits) then inl (MaxBitsTooNarrow expBits m)
        else inr {| expId := expId; expBits := expBits; maxBits := Some m |}
    | None => inr {| expId := expId; expBits := expBits; maxBits := None |}
    end.

(** [ExposureIdInfo.unusedBits]; [computeReservedFromMaxBits] is the
    function of [lsst.afw.table.IdFactory] consulted when no [maxBits] was
    given. *)
Definition unusedBits (computeReservedFromMaxBits : Z → Z)
    (info : ExposureIdInfo) : Z :=
  match maxBits info with
  | None => computeReservedFromMaxBits (expBits info)
  | Some m => m - expBits info
  end.

(** * The vocabulary of the statements *)

Section Vocabulary.
Context `{Geometry}.

(** [preserves I m]: running [m] keeps the invariant [I], whether [m]
    returns or raises. *)
Definition preserves {A} (I : World → Prop) (m : M A) : Prop :=
  ∀ w, I w → I (m w).2.

(** The parts of the world [ensureDimensions] never touches. *)
Definition sameButler (w w' : World) : Prop :=
  butler_run w' = butler_run w ∧ factories w' = factories w ∧
  (universe w' = universe w ∧ linksRequired w' = linksRequired w) ∧
  stashRun (task w') = stashRun (task w) ∧
  instrumentCache (task w') = instrumentCache (task w) ∧
  datasets (registry w') = datasets (registry w) ∧
  runs (registry w') = runs (registry w) ∧
  datasetTypes (registry w') = datasetTypes (registry w).

(** The events of the stash path: the registration, when the run has no id
    yet, then the log line and the transaction around the ingest. *)
Definition stashEvents (r : Run) (file : RawFile) (dataId : DataId)
    : list Event :=
  (if run_id r is None then [EnsureRun (collection r)] else []) ++
  [LogInfo (path file); TransactionBegin;
   Ingest (collection r) (path file) (datasetId dataId) true;
   TransactionCommit].

(** The dimensions whose entries must exist before ingest. *)
Definition prerequisite (d : Dimension) : Prop :=
  d ∉ [dim_visit; dim_exposure].

(** The identity a turn of the loop of [ensureDimensions] works with: the
    one [newDimensionDataId] returns, [None] when it raises. *)
Definition loopDataId (required : bool) (fullDataId : DataId)
    (d : Dimension) : option DimensionDataId :=
  match dimensionDataId fullDataId d with
  | Some k => Some k
  | None =>
      if required then None
      else Some (Unlinked d (dataId_instrument fullDataId))
  end.

(** What one turn of the loop of [ensureDimensions] does. *)
Inductive turn (fullDataId : DataId) (d : Dimension) (w : World)
    : Outcome unit → World → list Event → Prop :=
  | turn_no_link :
      loopDataId (linksRequired w) fullDataId d = None →
      turn fullDataId d w (Raised (LookupError None)) w []
  | turn_cached k :
      loopDataId (linksRequired w) fullDataId d = Some k →
      k ∈ entriesDone d w →
      turn fullDataId d w (Returned tt) w []
  | turn_found k :
      loopDataId (linksRequired w) fullDataId d = Some k →
      k ∉ entriesDone d w →
      k ∈ dimensionEntries (registry w) →
      turn fullDataId d w (Returned tt)
        (markDone d k (record (FindDimensionEntry k true) w)).2
        [FindDimensionEntry k true]
  | turn_added k :
      loopDataId (linksRequired w) fullDataId d = Some k →
      k ∉ entriesDone d w →
      k ∉ dimensionEntries (registry w) → ¬ prerequisite d →
      turn fullDataId d w (Returned tt)
        (markDone d k
           (addDimensionEntry d k
              (record (FindDimensionEntry k false) w)).2).2
        [FindDimensionEntry k false; AddDimensionEntry k]
  | turn_missing k :
      loopDataId (linksRequired w) fullDataId d = Some k →
      k ∉ entriesDone d w →
      k ∉ dimensionEntries (registry w) → prerequisite d →
      turn fullDataId d w (Raised (LookupError (Some k)))
        (record (FindDimensionEntry k false) w)
        [FindDimensionEntry k false].

(** [buildRegion] only reads the headers. *)
Definition regionOf (config : RawIngestConfig) (headers : list PropertyList)
    : Outcome Region :=
  match headers with
  | header :: _ =>
      skyRegion header
        (if bool_decide (0 < padRegionAmount config)
         then padRegionAmount config else 0)
  | [] => Raised IndexError
  end.

(** The key [detectorRegionKey] returns, [None] when it raises. *)
Definition detectorKey (required : bool) (fullDataId : DataId)
    : option RegionKey :=
  match dataId_visit fullDataId with
  | Some v =>
      Some (DetectorRegion (dataId_instrument fullDataId) v
              (dataId_detector fullDataId))
  | None =>
      if required then None
      else Some (UnlinkedRegion (dataId_instrument fullDataId)
                   (dataId_detector fullDataId))
  end.

(** The world after a first write of a detector region. *)
Definition regionWritten (k : RegionKey) (key : string * Z) (region : Region)
    (w : World) : World :=
  (accumulate key (getVertices region)
     (record (SetDimensionRegion k false true)
        (set_registry (storeRegion k region) w))).2.

(** A dimension the loop has nothing left to do for. *)
Definition settled (fullDataId : DataId) (d : Dimension) (w : World) : Prop :=
  match loopDataId (linksRequired w) fullDataId d with
  | Some k => k ∈ entriesDone d w
  | None => False
  end.

Definition regionEvent (ev : Event) : Prop :=
  match ev with
  | SetDimensionRegion _ _ _ => True
  | _ => False
  end.

(** The vertices accumulated for [key] so far are still there, possibly
    with more behind them. *)
Definition accumulatedStill (key : string * Z) (vertices : list Vertex)
    (w : World) : Prop :=
  ∃ more, (key, vertices ++ more) ∈ visitRegions (task w).





(** The world after a series of calls of [run] on the same task, whatever
    each call returned or raised. *)
Definition afterRuns (config : RawIngestConfig)
    (batches : list (list RawFile)) (w : World) : World :=
  foldl (λ w files, (run config files w).2) w batches.

(** [self.visitRegions.get(key)]. *)
Fixpoint accumulated (key : string * Z)
    (d : list ((string * Z) * list Vertex)) : option (list Vertex) :=
  match d with
  | [] => None
  | (k, vs) :: d' => if decide (k = key) then Some vs else accumulated key d'
  end.

(** The vertices of the region the registry holds for a visit. *)
Definition existingVertices (R : gmap RegionKey Region) (key : string * Z)
    : list Vertex :=
  match R !! VisitRegion key.1 key.2 with
  | Some existing => getVertices existing
  | None => []
  end.

(** What the post-pass leaves in the registry: for each key of the map the
    convex polygon of the vertices of the region held before, followed by
    the accumulated ones; every other region as it was. *)
Definition committed (R : gmap RegionKey Region)
    (d : list ((string * Z) * list Vertex)) (k : RegionKey)
    : option Region :=
  match k with
  | VisitRegion i v =>
      match accumulated (i, v) d with
      | Some vertices =>
          Some (ConvexPolygon (existingVertices R (i, v) ++ vertices))
      | None => R !! k
      end
  | DetectorRegion _ _ _ | UnlinkedRegion _ _ => R !! k
  end.

(** The detector region a file brings: its key and the region built from
    its header, when the header can be read and translated, has a visit and
    yields a region. *)
Definition detectorRegionOf (config : RawIngestConfig) (file : RawFile)
    : option (string * Z * Z * Region) :=
  match metadata file with
  | Returned header =>
      match translated header with
      | Returned obsInfo =>
          match visit_id obsInfo, regionOf config [header] with
          | Some v, Returned region =>
              Some (instrument obsInfo, v, detector_num obsInfo, region)
          | _, _ => None
          end
      | Raised _ => None
      end
  | Raised _ => None
  end.

Definition regionKeyOf (t : string * Z * Z * Region) : RegionKey :=
  let '(i, v, d, _) := t in DetectorRegion i v d.

Definition visitOf (t : string * Z * Z * Region) : string * Z :=
  let '(i, v, _, _) := t in (i, v).

Definition verticesOf (t : string * Z * Z * Region) : list Vertex :=
  let '(_, _, _, region) := t in getVertices region.

Definition regionOfWrite (t : string * Z * Z * Region) : Region :=
  let '(_, _, _, region) := t in region.

(** The detector regions a batch brings, in the order of its files. *)
Definition written (config : RawIngestConfig) (files : list RawFile)
    : list (string * Z * Z * Region) :=
  omap (detectorRegionOf config) files.

Definition storeRegions (R : gmap RegionKey Region)
    (ts : list (string * Z * Z * Region)) : gmap RegionKey Region :=
  foldl (λ R t, <[regionKeyOf t := regionOfWrite t]> R) R ts.

Definition accumulateAll (d : list ((string * Z) * list Vertex))
    (ts : list (string * Z * Z * Region))
    : list ((string * Z) * list Vertex) :=
  foldl (λ d t, extendVisitRegions (visitOf t) (verticesOf t) d) d ts.

(** The vertices a batch brings for one visit, in the order of its files. *)
Definition verticesFor (key : string * Z)
    (ts : list (string * Z * Z * Region)) : list Vertex :=
  flat_map (λ t, if decide (visitOf t = key) then verticesOf t else []) ts.

(** The world in which the loop of [run] starts. *)
Definition loopStart (config : RawIngestConfig) (w : World) : World :=
  match onError config with
  | onError_rollback => record TransactionBegin (registered w)
  | _ => registered w
  end.

(** The visit-level region a batch leaves for [key]: the convex polygon of
    the vertices of the region held before followed by the vertices the
    batch brings for the visit; the region held before when the batch brings
    none. *)
Definition mergedVisitRegion (R : gmap RegionKey Region)
    (ts : list (string * Z * Z * Region)) (key : string * Z)
    : option Region :=
  if decide (key ∈ visitOf <$> ts)
  then Some (ConvexPolygon (existingVertices R key ++ verticesFor key ts))
  else R !! VisitRegion key.1 key.2.

(** The keys of the map are pairwise different, as those of a Python dict
    are. *)
Definition keysDistinct (w : World) : Prop :=
  NoDup (visitRegions (task w)).*1.

(** Nothing the first registry holds is missing from the second. *)
Definition registryKept (r r' : Registry) : Prop :=
  datasetTypes r ⊆ datasetTypes r' ∧
  dimensionEntries r ⊆ dimensionEntries r' ∧
  runs r ⊆ runs r' ∧
  datasets r ⊆ datasets r' ∧
  (∀ k, is_Some (regions r !! k) → is_Some (regions r' !! k)).

(** The stash run and the world once the run has an id: as they are when
    it has one, after [ensureRun] has given it one when it has none. *)
Definition stashReady (r : Run) (w : World) : Run * World :=
  match run_id r with
  | Some _ => (r, w)
  | None =>
      let registered :=
        {| collection := collection r;
           run_id := Some (size (runs (registry w))) |} in
      (registered, (setStashRun registered (ensureRun r w).2).2)
  end.

(** The calls that only read dimension entries. *)
Definition lookupEvent (ev : Event) : Prop :=
  match ev with
  | FindDimensionEntry _ _ => True
  | _ => False
  end.

(** The cache tells the truth: every entry it marks as handled is in the
    registry. *)
Definition cacheHolds (w : World) : Prop :=
  ∀ d k, k ∈ entriesDone d w → k ∈ dimensionEntries (registry w).

(** What the ingest of a file, after [ensureDimensions], leaves alone. *)
Definition sameEntries (w w' : World) : Prop :=
  dimensionEntriesDone (task w') = dimensionEntriesDone (task w) ∧
  visitRegions (task w') = visitRegions (task w) ∧
  dimensionEntries (registry w') = dimensionEntries (registry w) ∧
  regions (registry w') = regions (registry w) ∧
  (universe w' = universe w ∧ linksRequired w' = linksRequired w) ∧
  butler_run w' = butler_run w ∧
  factories w' = factories w.

(** The insertions among the events since [h0] are of entries the registry
    [E0] did not hold and are marked in the cache; the registry still holds
    what [E0] held. *)
Definition insertedSince (h0 : list Event) (E0 : gset DimensionDataId)
    (w : World) : Prop :=
  E0 ⊆ dimensionEntries (registry w) ∧
  ∃ evs,
    history w = h0 ++ evs ∧
    ∀ k, AddDimensionEntry k ∈ evs →
         (k ∉ E0) ∧ k ∈ entriesDone (dimensionOf k) w.

(** The collection holds a dataset of the identity of the file. *)
Definition ingested (coll : string) (r : Registry) (file : RawFile) : Prop :=
  ∃ header obsInfo,
    metadata file = Returned header ∧
    translated header = Returned obsInfo ∧
    is_Some (datasets r !! (coll, datasetId (extractDataId obsInfo))).

(** How often the history has registered a run. *)
Definition ensureRunEvent (ev : Event) : bool :=
  match ev with
  | EnsureRun _ => true
  | _ => false
  end.

Definition registrations (h : list Event) : nat :=
  length (List.filter ensureRunEvent h).

(** The history has registered a run only if the stash run of the task has
    an id, and then once. *)
Definition stashOnce (w : World) : Prop :=
  match stashRun (task w) with
  | Some r =>
      if run_id r is None then registrations (history w) = 0%nat
      else (registrations (history w) ≤ 1)%nat
  | None => registrations (history w) = 0%nat
  end.

(** The prerequisites come first: the order in which the universe iterates
    the dimensions puts the instrument, the detector and the physical filter
    before the visit and the exposure. *)
Definition prerequisitesFirst (ds : list Dimension) : Prop :=
  ∃ before after,
    ds = before ++ after ∧
    Forall prerequisite before ∧ Forall (λ d, ¬ prerequisite d) after.

(** The instrument [getFormatter] works with: the cached instance, or what
    the class registered under the name answers. *)
Definition instrumentOf (w : World) (i : string) : Outcome Instrument :=
  match instrumentCache (task w) !! i with
  | Some instrument => Returned instrument
  | None =>
      match factories w !! i with
      | Some factory => answer factory
      | None => Raised (KeyError i)
      end
  end.

(** The world once the instrument is in the cache. *)
Definition withInstrument (i : string) (instrument : Instrument) (w : World)
    : World :=
  match instrumentCache (task w) !! i with
  | Some _ => w
  | None => (cacheInstrument i instrument w).2
  end.

(** The formatter [getFormatter] returns for an identity, or what it
    raises. *)
Definition formatterFor (w : World) (dataId : DataId) : Outcome Formatter :=
  match instrumentOf w (dataId_instrument dataId) with
  | Returned instrument => answer (getRawFormatter instrument dataId)
  | Raised e => Raised e
  end.

(** What becomes of the file in the datastore, once the registry has
    accepted the dataset: the failure of the formatter lookup, or what the
    datastore answers. *)
Definition transferOf (config : RawIngestConfig) (file : RawFile)
    (w : World) (dataId : DataId) : Outcome unit :=
  match formatterFor w dataId with
  | Returned formatter =>
      answer (datastoreIngest file (transfer config) formatter)
  | Raised e => Raised e
  end.

(** The configuration with no padding of the bounding box. *)
Definition unpadded (config : RawIngestConfig) : RawIngestConfig :=
  {| transfer := transfer config; conflict := conflict config;
     stash := stash config; onError := onError config;
     doAddRegions := doAddRegions config; padRegionAmount := 0 |}.

End Vocabulary.

(** * Example data

    A small repository to run the driver on: one instrument with two
    detectors and one filter, files of one exposure of visit 7. *)


Definition hull (points : list Z) : list Z :=
  match points with
  | [] => []
  | p :: ps => [foldr Z.min p ps; foldr Z.max p ps]
  end.

(** A geometry to compute with: points on a line, whose convex hull is the
    interval between the smallest and the largest. *)
Definition Interval : Geometry :=
  {| Vertex := Z; Region := list Z; ConvexPolygon := hull; getVertices := id |}.

Section ExampleData.
#[local] Existing Instance Interval.

Definition provisioned : Registry :=
  {| datasetTypes := ∅;
     dimensionEntries :=
       {[InstrumentId "cam"; DetectorId "cam" 1; DetectorId "cam" 2;
         PhysicalFilterId "cam" "r"]};
     regions := ∅; datasets := ∅; runs := {["raw"]} |}.

Definition exampleConfig (c : Conflict) (s : option string) (p : OnError)
    : RawIngestConfig :=
  {| transfer := None; conflict := c; stash := s; onError := p;
     doAddRegions := true; padRegionAmount := 0 |}.

(** The instrument of the repository, whose raw files are read by one
    formatter. *)
Definition cam : Instrument :=
  {| getRawFormatter := λ _, Succeeded "CamRawFormatter" |}.

(** A datastore that takes every file. *)
Definition accepted (transfer : option Transfer) (formatter : Formatter)
    : Attempt unit :=
  Succeeded tt.

Definition fresh (config : RawIngestConfig) (r : Registry) : World :=
  {| task := init config; registry := r;
     butler_run := {| collection := "raw"; run_id := Some 0%nat |};
     factories := {["cam" := Succeeded cam]};
     universe := dimensions; linksRequired := true; history := [] |}.

Definition exposure (p : string) (det : Z) (lo hi : Z) : RawFile :=
  {| path := p;
     metadata := Returned
       {| translated := Returned
            {| instrument := "cam"; exposure_id := 100; detector_num := det;
               visit_id := Some 7; physical_filter := Some "r" |};
          skyRegion := λ pad, Returned [lo - pad; hi + pad] |};
     datastoreIngest := accepted |}.

Definition unreadable : RawFile :=
  {| path := "bad.fits"; metadata := Raised (OtherError "unreadable");
     datastoreIngest := accepted |}.

Definition rollbackConfig := exampleConfig conflict_ignore None onError_rollback.

Definition ignoreConfig := exampleConfig conflict_ignore None onError_continue.
Definition failConfig := exampleConfig conflict_fail None onError_continue.
Definition stashConfig :=
  exampleConfig conflict_ignore (Some "stash") onError_continue.

(** The world after a first file of detector 1 has been ingested. *)
Definition ingestedOnce (config : RawIngestConfig) : World :=
  (processFile config (exposure "a.fits" 1 0 1) (fresh config provisioned)).2.

(** A second and a third file of the same identity. *)
Definition ingestedTwice (config : RawIngestConfig) : World :=
  (processFile config (exposure "a_copy.fits" 1 0 1) (ingestedOnce config)).2.

Definition theId : DataId :=
  {| dataId_dimensions := dimensions; dataId_instrument := "cam";
     dataId_exposure := 100; dataId_detector := 1; dataId_visit := Some 7;
     dataId_physical_filter := Some "r" |}.

Definition headersOf (file : RawFile) : list PropertyList :=
  match metadata file with
  | Returned header => [header]
  | Raised _ => []
  end.

(** The world in which the ingest of the second file is attempted, and the
    world the refused attempt leaves. *)
Definition beforeAttempt (config : RawIngestConfig) : World :=
  (ensureDimensions config (exposure "a_copy.fits" 1 0 1)
     (ingestedOnce config)).2.

Definition afterAttempt (config : RawIngestConfig) : World :=
  (ingestFile config (exposure "a_copy.fits" 1 0 1)
     (headersOf (exposure "a_copy.fits" 1 0 1)) theId None
     (record TransactionBegin (beforeAttempt config))).2.

(** A registry without the instrument, and one that already holds the
    region of detector 1 but no region of the visit. *)
Definition unprovisioned : Registry :=
  {| datasetTypes := ∅; dimensionEntries := ∅; regions := ∅;
     datasets := ∅; runs := {["raw"]} |}.

Definition halfDone : Registry :=
  {| datasetTypes := datasetTypes provisioned;
     dimensionEntries := dimensionEntries provisioned;
     regions := {[DetectorRegion "cam" 7 1 := [0; 1]]};
     datasets := ∅; runs := runs provisioned |}.



(** The events of [ensureDimensions] on the first file of detector 1. *)
Definition firstReconciliation : list Event :=
  [FindDimensionEntry (InstrumentId "cam") true;
   FindDimensionEntry (DetectorId "cam" 1) true;
   FindDimensionEntry (PhysicalFilterId "cam" "r") true;
   FindDimensionEntry (VisitId "cam" 7) false;
   AddDimensionEntry (VisitId "cam" 7);
   FindDimensionEntry (ExposureId "cam" 100) false;
   AddDimensionEntry (ExposureId "cam" 100);
   SetDimensionRegion (DetectorRegion "cam" 7 1) false true].


Definition detectorFiles : list RawFile :=
  [exposure "a.fits" 1 0 1; exposure "b.fits" 2 5 6].

Definition detectorFilesSwapped : list RawFile :=
  [exposure "b.fits" 2 5 6; exposure "a.fits" 1 0 1].

(** The world after a first call of [run] on one file. *)
Definition afterFirstRun : World :=
  (run ignoreConfig [exposure "a.fits" 1 0 1]
     (fresh ignoreConfig provisioned)).2.

Definition breakConfig := exampleConfig conflict_ignore None onError_break.

(** A configuration that asks for the box to be shrunk. *)
Definition shrinkConfig : RawIngestConfig :=
  {| transfer := None; conflict := conflict_ignore; stash := None;
     onError := onError_continue; doAddRegions := true;
     padRegionAmount := -3 |}.

(** A batch whose second file cannot be read. *)
Definition brokenBatch : list RawFile :=
  [exposure "a.fits" 1 0 1; unreadable].

(** The world in which the second file of [brokenBatch] is reached under
    [break], and the world its failure leaves. *)
Definition beforeFailure : World :=
  (forEach [exposure "a.fits" 1 0 1] (processFile breakConfig)
     (registered (fresh breakConfig provisioned))).2.

Definition afterFailure : World :=
  (processFile breakConfig unreadable beforeFailure).2.

(** The stash run once it is registered. *)
Definition stashRegistered : Run :=
  {| collection := "stash"; run_id := Some 1%nat |}.

(** Three batches with the same file. *)
Definition sameFileThrice : list (list RawFile) :=
  [[exposure "a.fits" 1 0 1]; [exposure "a_copy.fits" 1 0 1];
   [exposure "a_again.fits" 1 0 1]].

(** The world the loop over the two detector files leaves, before the
    post-pass. *)
Definition beforePostPass : World :=
  (forEach detectorFiles (processFile ignoreConfig)
     (registered (fresh ignoreConfig provisioned))).2.

(** What the first file of detector 1 holds. *)
Definition theObservation : ObservationInfo :=
  {| instrument := "cam"; exposure_id := 100; detector_num := 1;
     visit_id := Some 7; physical_filter := Some "r" |}.

Definition theHeader : PropertyList :=
  {| translated := Returned theObservation;
     skyRegion := λ pad, Returned [0 - pad; 1 + pad] |}.

(** A second exposure of visit 7 on detector 1. *)
Definition secondObservation : ObservationInfo :=
  {| instrument := "cam"; exposure_id := 101; detector_num := 1;
     visit_id := Some 7; physical_filter := Some "r" |}.

Definition secondHeader : PropertyList :=
  {| translated := Returned secondObservation;
     skyRegion := λ pad, Returned [2 - pad; 3 + pad] |}.

Definition secondExposure : RawFile :=
  {| path := "c.fits"; metadata := Returned secondHeader;
     datastoreIngest := accepted |}.

(** The world after [ensureDimensions] on the first file of detector 1. *)
Definition reconciled : World :=
  (ensureDimensions ignoreConfig (exposure "a.fits" 1 0 1)
     (fresh ignoreConfig provisioned)).2.



(** A file the datastore cannot transfer. *)
Definition untransferable : RawFile :=
  {| path := "d.fits"; metadata := Returned theHeader;
     datastoreIngest := λ _ _, Failed "no space left on device" |}.

(** An id of three bits in a field of eight. *)
Definition threeOfEight : ExposureIdInfo :=
  {| expId := 5; expBits := 3; maxBits := Some 8 |}.

End ExampleData.

(** * Reasoning about driver code *)

Section Reasoning.
Context `{Geometry}.

Lemma preserves_ret {A} I (a : A) : preserves I (ret a).
Proof. intros w Hw. exact Hw. Qed.

Lemma preserves_raise {A} I e : preserves I (raise (A := A) e).
Proof. intros w Hw. exact Hw. Qed.

Lemma preserves_lift {A} I (o : Outcome A) : preserves I (lift o).
Proof. intros w Hw. exact Hw. Qed.

Lemma preserves_get I : preserves I get.
Proof. intros w Hw. exact Hw. Qed.

Lemma preserves_bind {A B} I (m : M A) (k : A → M B) :
  preserves I m → (∀ a, preserves I (k a)) → preserves I (bind m k).
Proof.
  intros Hm Hk w Hw. unfold bind. specialize (Hm w Hw).
  destruct (m w) as [[a|e] w']; simpl in *; [by apply Hk | done].
Qed.

Lemma preserves_catch {A} I (m : M A) (handler : Exn → M A) :
  preserves I m → (∀ e, preserves I (handler e)) →
  preserves I (catch m handler).
Proof.
  intros Hm Hh w Hw. unfold catch. specialize (Hm w Hw).
  destruct (m w) as [[a|e] w']; simpl in *; [done | by apply Hh].
Qed.

Lemma preserves_forEach {X} I (xs : list X) (body : X → M unit) :
  (∀ x, x ∈ xs → preserves I (body x)) → preserves I (forEach xs body).
Proof.
  induction xs as [|x xs IH]; intros Hbody; simpl.
  - apply preserves_ret.
  - apply preserves_bind.
    + apply Hbody. left.
    + intros _. apply IH. intros y Hy. apply Hbody. by right.
Qed.

Lemma preserves_first I headers : preserves I (first headers).
Proof. intros w Hw. by destruct headers. Qed.

(** A transaction keeps an invariant that its body keeps, provided the
    invariant survives the three transaction events and the restoring of an
    earlier registry that satisfied it. *)
Lemma preserves_transaction {A} I (body : M A) :
  (∀ w, I w → I (record TransactionBegin w)) →
  (∀ w, I w → I (record TransactionCommit w)) →
  (∀ w w', I w → I w' →
     I (record TransactionRollback (set_registry (λ _, registry w) w'))) →
  preserves I body → preserves I (transaction body).
Proof.
  intros Hbegin Hcommit Hrollback Hbody w Hw. unfold transaction.
  specialize (Hbody _ (Hbegin w Hw)).
  destruct (body (record TransactionBegin w)) as [[a|e] w']; simpl in *.
  - by apply Hcommit.
  - by apply Hrollback.
Qed.

(** The value a loop that returns leaves behind, and the exception of a
    loop that is stopped. *)
Lemma forEach_app {X} (xs ys : list X) (body : X → M unit) w :
  forEach (xs ++ ys) body w =
    match forEach xs body w with
    | (Returned _, w') => forEach ys body w'
    | (Raised e, w') => (Raised e, w')
    end.
Proof.
  revert w. induction xs as [|x xs IH]; intros w; simpl.
  - reflexivity.
  - unfold bind. destruct (body x w) as [[[]|e] w']; [apply IH | done].
Qed.

Lemma forEach_raised {X} (pre post : list X) (x : X) (body : X → M unit)
    w w1 w2 e :
  forEach pre body w = (Returned tt, w1) →
  body x w1 = (Raised e, w2) →
  forEach (pre ++ x :: post) body w = (Raised e, w2).
Proof.
  intros Hpre Hx. rewrite forEach_app, Hpre. simpl. unfold bind.
  by rewrite Hx.
Qed.

(** Running a combinator whose first part is known. *)
Lemma bind_returned {A B} (m : M A) (k : A → M B) w a w' :
  m w = (Returned a, w') → bind m k w = k a w'.
Proof. intros Hm. unfold bind. by rewrite Hm. Qed.

Lemma bind_raised {A B} (m : M A) (k : A → M B) w e w' :
  m w = (Raised e, w') → bind m k w = (Raised e, w').
Proof. intros Hm. unfold bind. by rewrite Hm. Qed.

Lemma catch_returned {A} (m : M A) handler w a w' :
  m w = (Returned a, w') → catch m handler w = (Returned a, w').
Proof. intros Hm. unfold catch. by rewrite Hm. Qed.

Lemma catch_raised {A} (m : M A) handler w e w' :
  m w = (Raised e, w') → catch m handler w = handler e w'.
Proof. intros Hm. unfold catch. by rewrite Hm. Qed.

Lemma transaction_returned {A} (body : M A) w a w' :
  body (record TransactionBegin w) = (Returned a, w') →
  transaction body w = (Returned a, record TransactionCommit w').
Proof. intros Hm. unfold transaction. by rewrite Hm. Qed.

Lemma transaction_raised {A} (body : M A) w e w' :
  body (record TransactionBegin w) = (Raised e, w') →
  transaction body w =
    (Raised e,
     record TransactionRollback (set_registry (λ _, registry w) w')).
Proof. intros Hm. unfold transaction. by rewrite Hm. Qed.

(** A computation is the pair of its outcome and its final world. *)
Lemma outcome_eq {A} (x : Outcome A * World) (o : Outcome A) :
  x.1 = o → x = (o, x.2).
Proof. destruct x. simpl. congruence. Qed.

End Reasoning.

(** ** Invariants of the whole driver *)

(** An invariant kept by each primitive step of the driver is kept by each
    of its methods: the methods only combine the steps. *)
Section Invariant.
Context `{Geometry}.
Variable I : World → Prop.

Hypothesis I_registerDatasetType :
  ∀ datasetType, preserves I (registerDatasetType datasetType).
Hypothesis I_ensureDimension :
  ∀ fullDataId dimension, preserves I (ensureDimension fullDataId dimension).
Hypothesis I_setDimensionRegion :
  ∀ k region update, preserves I (setDimensionRegion k region update).
Hypothesis I_expandDataId : ∀ i v, preserves I (expandDataId_region i v).
Hypothesis I_accumulate : ∀ key vertices, preserves I (accumulate key vertices).
Hypothesis I_cacheInstrument :
  ∀ i instrument, preserves I (cacheInstrument i instrument).
Hypothesis I_ensureRun : ∀ r, preserves I (ensureRun r).
Hypothesis I_setStashRun : ∀ r, preserves I (setStashRun r).
Hypothesis I_butler_ingest :
  ∀ coll file dataId transfer formatter,
    preserves I (butler_ingest coll file dataId transfer formatter).
Hypothesis I_log_info : ∀ file, preserves I (log_info file).
Hypothesis I_log_warn : ∀ file, preserves I (log_warn file).
Hypothesis I_begin : ∀ w, I w → I (record TransactionBegin w).
Hypothesis I_commit : ∀ w, I w → I (record TransactionCommit w).
Hypothesis I_rollback : ∀ w w', I w → I w' →
  I (record TransactionRollback (set_registry (λ _, registry w) w')).

Ltac structure :=
  repeat match goal with
    | |- preserves _ (ret _) => apply preserves_ret
    | |- preserves _ (raise _) => apply preserves_raise
    | |- preserves _ (lift _) => apply preserves_lift
    | |- preserves _ get => apply preserves_get
    | |- preserves _ (first _) => apply preserves_first
    | |- preserves _ (bind _ _) => apply preserves_bind; [|intros ?]
    | |- preserves _ (catch _ _) => apply preserves_catch; [|intros ?]
    | |- preserves _ (transaction _) =>
        apply preserves_transaction;
          [exact I_begin | exact I_commit | exact I_rollback |]
    | |- preserves _ (forEach _ _) => apply preserves_forEach; intros ? _
    | |- preserves _ (if ?x then _ else _) => destruct x
    | |- preserves _ (match ?x with _ => _ end) => destruct x
    end.

Lemma addVisitRegions_preserves : preserves I _addVisitRegions.
Proof.
  unfold _addVisitRegions. structure.
  match goal with |- preserves _ (addVisitRegion ?x) => destruct x as [[] ?] end.
  unfold addVisitRegion. structure; auto.
Qed.

Lemma buildRegion_preserves config headers :
  preserves I (buildRegion config headers).
Proof. unfold buildRegion, first. structure. Qed.

Lemma addDetectorRegion_preserves config headers fullDataId :
  preserves I (addDetectorRegion config headers fullDataId).
Proof.
  unfold addDetectorRegion, detectorRegionKey, getitem_visit.
  structure; auto using buildRegion_preserves.
Qed.

Lemma ensureDimensions_preserves config file :
  preserves I (ensureDimensions config file).
Proof.
  unfold ensureDimensions, readHeaders, first.
  structure; auto using addDetectorRegion_preserves.
Qed.

Lemma getFormatter_preserves dataId : preserves I (getFormatter dataId).
Proof. unfold getFormatter, instantiate, attempt. structure; auto. Qed.

Lemma ingestFile_preserves config file headers dataId run :
  preserves I (ingestFile config file headers dataId run).
Proof. unfold ingestFile. structure; auto using getFormatter_preserves. Qed.

Lemma ingestDefault_preserves config file headers dataId :
  preserves I (ingestDefault config file headers dataId).
Proof. unfold ingestDefault. structure; auto using ingestFile_preserves. Qed.

Lemma resolveConflict_preserves config file headers dataId :
  preserves I (resolveConflict config file headers dataId).
Proof. unfold resolveConflict. structure; auto using ingestFile_preserves. Qed.

Lemma processFile_preserves config file :
  preserves I (processFile config file).
Proof.
  unfold processFile.
  structure;
    auto using ensureDimensions_preserves, ingestDefault_preserves,
      resolveConflict_preserves.
Qed.

Lemma run_preserves config files : preserves I (run config files).
Proof.
  unfold run.
  structure; auto using processFile_preserves, addVisitRegions_preserves.
Qed.

End Invariant.

(** The same for invariants that are kept by [ensureDimensions], the
    post-pass, [ingestFile] and [resolveConflict] as wholes, though not by
    each of their steps. *)
Section Composite.
Context `{Geometry}.
Variable I : World → Prop.

Hypothesis I_registerDatasetType :
  ∀ datasetType, preserves I (registerDatasetType datasetType).
Hypothesis I_ensureDimensions :
  ∀ config file, preserves I (ensureDimensions config file).
Hypothesis I_addVisitRegions : preserves I _addVisitRegions.
Hypothesis I_ingestFile :
  ∀ config file headers dataId run,
    preserves I (ingestFile config file headers dataId run).
Hypothesis I_resolveConflict :
  ∀ config file headers dataId,
    preserves I (resolveConflict config file headers dataId).
Hypothesis I_log_warn : ∀ file, preserves I (log_warn file).
Hypothesis I_begin : ∀ w, I w → I (record TransactionBegin w).
Hypothesis I_commit : ∀ w, I w → I (record TransactionCommit w).
Hypothesis I_rollback : ∀ w w', I w → I w' →
  I (record TransactionRollback (set_registry (λ _, registry w) w')).

Ltac pieces :=
  repeat match goal with
    | |- preserves _ (ret _) => apply preserves_ret
    | |- preserves _ (raise _) => apply preserves_raise
    | |- preserves _ (bind _ _) => apply preserves_bind; [|intros ?]
    | |- preserves _ (catch _ _) => apply preserves_catch; [|intros ?]
    | |- preserves _ (transaction _) =>
        apply preserves_transaction;
          [exact I_begin | exact I_commit | exact I_rollback |]
    | |- preserves _ (forEach _ _) => apply preserves_forEach; intros ? _
    | |- preserves _ (if ?x then _ else _) => destruct x
    | |- preserves _ (match ?x with _ => _ end) => destruct x
    end.

Lemma processFile_keeps config file : preserves I (processFile config file).
Proof. unfold processFile, ingestDefault. pieces; auto. Qed.

Lemma run_keeps config files : preserves I (run config files).
Proof. unfold run. pieces; auto using processFile_keeps. Qed.

End Composite.

(** * Properties *)

(** ** Dimension names *)

Lemma name_inj d1 d2 : name d1 = name d2 → d1 = d2.
Proof. destruct d1, d2; simpl; congruence. Qed.

Lemma name_visit_exposure d :
  name d ∈ ["visit"; "exposure"] ↔ d ∈ [dim_visit; dim_exposure].
Proof.
  rewrite !elem_of_cons, !elem_of_nil.
  split; (intros [H | [H | []]]; [left | right; left]).
  - by apply name_inj.
  - by apply name_inj.
  - by subst.
  - by subst.
Qed.

(** ** The data identity of an observation *)

Ltac list_mem :=
  rewrite ?elem_of_cons, ?elem_of_nil in *;
  intuition (try congruence; try discriminate).

(** The four dimension sets [extractDataId] can return. *)
Lemma extractDataId_dimensions_eq (obsInfo : ObservationInfo) :
  dataId_dimensions (extractDataId obsInfo) =
    match visit_id obsInfo, physical_filter obsInfo with
    | Some _, Some _ => dimensions
    | Some _, None => [dim_instrument; dim_detector; dim_visit; dim_exposure]
    | None, Some _ =>
        [dim_instrument; dim_detector; dim_physical_filter; dim_exposure]
    | None, None => [dim_instrument; dim_detector; dim_exposure]
    end.
Proof. destruct obsInfo as [i e d [v|] [f|]]; reflexivity. Qed.

(** The link values of the identity are the observation's. *)
Lemma extractDataId_links (obsInfo : ObservationInfo) :
  dataId_instrument (extractDataId obsInfo) = instrument obsInfo ∧
  dataId_exposure (extractDataId obsInfo) = exposure_id obsInfo ∧
  dataId_detector (extractDataId obsInfo) = detector_num obsInfo ∧
  dataId_visit (extractDataId obsInfo) = visit_id obsInfo ∧
  dataId_physical_filter (extractDataId obsInfo) = physical_filter obsInfo.
Proof. destruct obsInfo as [i e d [v|] [f|]]; repeat split. Qed.

(** A dimension is in the identity exactly when the identity has a value for
    its link. *)
Lemma extractDataId_dimensionDataId (obsInfo : ObservationInfo)
    (d : Dimension) :
  d ∈ dataId_dimensions (extractDataId obsInfo) ↔
  is_Some (dimensionDataId (extractDataId obsInfo) d).
Proof.
  rewrite extractDataId_dimensions_eq. unfold dimensionDataId.
  destruct (extractDataId_links obsInfo) as (-> & -> & -> & -> & ->).
  unfold dimensions.
  destruct (visit_id obsInfo), (physical_filter obsInfo), d; simpl;
    rewrite is_Some_alt; list_mem.
Qed.

(** C8.  [extractDataId] leaves "visit" out of the identity's dimensions
    exactly when the observation has no visit id, leaves "physical_filter"
    out exactly when it has no physical filter, and always returns
    dimensions that are among the configured ones and contain instrument,
    exposure and detector. *)
Theorem extractDataId_dimensions (obsInfo : ObservationInfo) :
  (dim_visit ∉ dataId_dimensions (extractDataId obsInfo) ↔
     visit_id obsInfo = None) ∧
  (dim_physical_filter ∉ dataId_dimensions (extractDataId obsInfo) ↔
     physical_filter obsInfo = None) ∧
  dataId_dimensions (extractDataId obsInfo) ⊆ dimensions ∧
  dim_instrument ∈ dataId_dimensions (extractDataId obsInfo) ∧
  dim_exposure ∈ dataId_dimensions (extractDataId obsInfo) ∧
  dim_detector ∈ dataId_dimensions (extractDataId obsInfo).
Proof.
  rewrite extractDataId_dimensions_eq. unfold dimensions.
  destruct (visit_id obsInfo), (physical_filter obsInfo);
    repeat split; try intros x; list_mem.
Qed.

Section Properties.
Context `{Geometry}.

(** ** The ingest of a file, its conflicts and the stash *)

Lemma ensureDimension_eq fullDataId dimension w :
  ensureDimension fullDataId dimension w =
    match loopDataId (linksRequired w) fullDataId dimension with
    | None => (Raised (LookupError None), w)
    | Some k =>
        if bool_decide (k ∈ entriesDone dimension w) then (Returned tt, w)
        else if bool_decide (k ∈ dimensionEntries (registry w)) then
          markDone dimension k (record (FindDimensionEntry k true) w)
        else if bool_decide (dimension ∈ [dim_visit; dim_exposure]) then
          markDone dimension k
            (addDimensionEntry dimension k
               (record (FindDimensionEntry k false) w)).2
        else
          (Raised (LookupError (Some k)),
           record (FindDimensionEntry k false) w)
    end.
Proof.
  unfold ensureDimension, newDimensionDataId, loopDataId.
  unfold findDimensionEntry, addDimensionEntry.
  unfold bind, get, ret, raise, modify.
  repeat (case_match; simplify_eq/=); done.
Qed.

Lemma getFormatter_eq dataId w :
  getFormatter dataId w =
    match instrumentOf w (dataId_instrument dataId) with
    | Returned instrument =>
        (answer (getRawFormatter instrument dataId),
         withInstrument (dataId_instrument dataId) instrument w)
    | Raised e => (Raised e, w)
    end.
Proof.
  unfold getFormatter, instantiate, attempt, lift, instrumentOf.
  unfold withInstrument, cacheInstrument, bind, get, ret, raise, modify.
  destruct (instrumentCache (task w) !! _); [done|].
  destruct (factories w !! _) as [[instrument|msg]|]; done.
Qed.

(** The failures of the formatter lookup are no conflicts. *)
Lemma instrumentOf_raised w i e :
  instrumentOf w i = Raised e → isConflictingDefinitionError e = false.
Proof.
  unfold instrumentOf.
  destruct (instrumentCache (task w) !! i); [done|].
  destruct (factories w !! i) as [[instrument|msg]|]; by intros [= <-].
Qed.

Lemma ingestFile_eq config file headers dataId run w :
  ingestFile config file headers dataId run w =
    let i := dataId_instrument dataId in
    let coll := destination w run in
    match instrumentOf w i with
    | Raised e => (Raised e, w)
    | Returned instrument =>
        let w1 := withInstrument i instrument w in
        match getRawFormatter instrument dataId with
        | Failed msg => (Raised (OtherError msg), w1)
        | Succeeded formatter =>
            match datasets (registry w) !! (coll, datasetId dataId) with
            | Some _ =>
                (Raised (IngestConflictError (path file) dataId),
                 record (Ingest coll (path file) (datasetId dataId) false) w1)
            | None =>
                match datastoreIngest file (transfer config) formatter with
                | Failed msg =>
                    (Raised (OtherError msg),
                     record (Ingest coll (path file) (datasetId dataId) false)
                       w1)
                | Succeeded _ =>
                    (Returned (coll, datasetId dataId),
                     record (Ingest coll (path file) (datasetId dataId) true)
                       (set_registry (storeDataset coll file dataId) w1))
                end
            end
        end
    end.
Proof.
  unfold ingestFile. unfold bind at 1, get. unfold catch, bind.
  rewrite getFormatter_eq. cbv zeta.
  destruct (instrumentOf w _) as [instrument|e] eqn:Hi.
  - assert (registry (withInstrument (dataId_instrument dataId) instrument w)
            = registry w) as Hr.
    { unfold withInstrument. by case_match. }
    destruct (getRawFormatter instrument dataId) as [formatter|msg]; [|done].
    simpl. unfold butler_ingest. rewrite Hr.
    destruct (datasets (registry w) !! _); [done|].
    by destruct (datastoreIngest file _ _).
  - by rewrite (instrumentOf_raised _ _ _ Hi).
Qed.

Lemma ensureDimensions_sameButler config file w :
  sameButler w (ensureDimensions config file w).2.
Proof.
  apply (ensureDimensions_preserves (sameButler w)).
  - intros full d w' Hw'. rewrite ensureDimension_eq.
    unfold markDone, addDimensionEntry, modify.
    repeat (case_match; simplify_eq/=); done.
  - intros k r u w' Hw'. unfold setDimensionRegion.
    repeat (case_match; simplify_eq/=); done.
  - intros key vs w' Hw'. exact Hw'.
  - done.
Qed.

(** Putting the instrument into the cache changes nothing else. *)
Lemma withInstrument_frame i instrument w :
  registry (withInstrument i instrument w) = registry w ∧
  butler_run (withInstrument i instrument w) = butler_run w ∧
  factories (withInstrument i instrument w) = factories w ∧
  universe (withInstrument i instrument w) = universe w ∧
  linksRequired (withInstrument i instrument w) = linksRequired w ∧
  history (withInstrument i instrument w) = history w ∧
  stashRun (task (withInstrument i instrument w)) = stashRun (task w) ∧
  dimensionEntriesDone (task (withInstrument i instrument w))
    = dimensionEntriesDone (task w) ∧
  visitRegions (task (withInstrument i instrument w))
    = visitRegions (task w).
Proof. unfold withInstrument. by case_match. Qed.

Lemma withInstrument_cached i instrument w :
  instrumentOf w i = Returned instrument →
  instrumentCache (task (withInstrument i instrument w)) !! i
    = Some instrument.
Proof.
  unfold instrumentOf, withInstrument.
  destruct (instrumentCache (task w) !! i) eqn:Hcache.
  - by intros [= <-].
  - intros _. simpl. apply lookup_insert_eq.
Qed.

Lemma withInstrument_hit i instrument w :
  instrumentCache (task w) !! i = Some instrument →
  instrumentOf w i = Returned instrument ∧
  withInstrument i instrument w = w.
Proof. unfold instrumentOf, withInstrument. by intros ->. Qed.

(** The formatter of an identity is read off the cache and the registered
    classes. *)
Lemma formatterFor_eq w w' dataId :
  instrumentCache (task w') = instrumentCache (task w) →
  factories w' = factories w →
  formatterFor w' dataId = formatterFor w dataId.
Proof.
  unfold formatterFor, instrumentOf. by intros -> ->.
Qed.

Lemma formatterFor_cached w dataId instrument :
  instrumentCache (task w) !! dataId_instrument dataId = Some instrument →
  formatterFor w dataId = answer (getRawFormatter instrument dataId).
Proof. unfold formatterFor, instrumentOf. by intros ->. Qed.

Lemma formatterFor_returned w dataId formatter :
  formatterFor w dataId = Returned formatter →
  ∃ instrument,
    instrumentOf w (dataId_instrument dataId) = Returned instrument ∧
    getRawFormatter instrument dataId = Succeeded formatter.
Proof.
  unfold formatterFor.
  destruct (instrumentOf w _) as [instrument|e]; [|done].
  destruct (getRawFormatter instrument dataId) as [f|msg] eqn:Hf; [|done].
  intros [= <-]. by exists instrument.
Qed.

Lemma ingestFile_conflict config file headers dataId run w e w' :
  ingestFile config file headers dataId run w = (Raised e, w') →
  isIngestConflictError e = true →
  e = IngestConflictError (path file) dataId ∧
  registry w' = registry w ∧
  butler_run w' = butler_run w ∧
  stashRun (task w') = stashRun (task w) ∧
  (∃ instrument formatter,
     instrumentCache (task w') !! dataId_instrument dataId
       = Some instrument ∧
     getRawFormatter instrument dataId = Succeeded formatter ∧
     formatterFor w dataId = Returned formatter) ∧
  is_Some (datasets (registry w) !! (destination w run, datasetId dataId)) ∧
  history w' =
    history w ++
      [Ingest (destination w run) (path file) (datasetId dataId) false].
Proof.
  rewrite ingestFile_eq. cbv zeta. unfold formatterFor.
  destruct (instrumentOf w _) as [instrument|e0] eqn:Hi; last first.
  { intros [= <- <-] He. apply instrumentOf_raised in Hi. by destruct e0. }
  pose proof (withInstrument_frame (dataId_instrument dataId) instrument w)
    as (Hr & Hb & _ & _ & _ & Hh & Hs & _).
  pose proof (withInstrument_cached _ _ _ Hi) as Hc.
  destruct (getRawFormatter instrument dataId) as [formatter|msg] eqn:Hf;
    [|by intros [= <- <-]].
  destruct (datasets (registry w) !! _) as [bound|] eqn:Hbound; last first.
  { by destruct (datastoreIngest file _ _); intros [= <- <-]. }
  intros [= <- <-] _. simpl.
  repeat split; try done; [by exists instrument, formatter | by rewrite Hh].
Qed.

Lemma ingestFile_fresh config file headers dataId run w instrument formatter :
  instrumentCache (task w) !! dataId_instrument dataId = Some instrument →
  getRawFormatter instrument dataId = Succeeded formatter →
  datasets (registry w) !! (destination w run, datasetId dataId) = None →
  ingestFile config file headers dataId run w =
    match datastoreIngest file (transfer config) formatter with
    | Succeeded _ =>
        (Returned (destination w run, datasetId dataId),
         record
           (Ingest (destination w run) (path file) (datasetId dataId) true)
           (set_registry (storeDataset (destination w run) file dataId) w))
    | Failed msg =>
        (Raised (OtherError msg),
         record
           (Ingest (destination w run) (path file) (datasetId dataId) false)
           w)
    end.
Proof.
  intros Hcached Hformatter Hfresh. rewrite ingestFile_eq. cbv zeta.
  destruct (withInstrument_hit _ _ _ Hcached) as [-> ->].
  by rewrite Hformatter, Hfresh.
Qed.

(** What the block around the first ingest leaves. *)
Lemma ingestDefault_eq config file headers dataId w :
  ingestDefault config file headers dataId w =
    match ingestFile config file headers dataId None
            (record TransactionBegin w) with
    | (Returned _, w') => (Returned true, record TransactionCommit w')
    | (Raised e, w') =>
        if isIngestConflictError e then
          match conflict config with
          | conflict_fail =>
              (Raised e,
               record TransactionRollback
                 (set_registry (λ _, registry w) w'))
          | conflict_ignore => (Returned false, record TransactionCommit w')
          end
        else
          (Raised e,
           record TransactionRollback (set_registry (λ _, registry w) w'))
    end.
Proof.
  unfold ingestDefault, transaction, catch, bind, ret, raise.
  destruct (ingestFile _ _ _ _ _ _) as [[a|e] w']; simpl; [done|].
  destruct (isIngestConflictError e), (conflict config); done.
Qed.

Lemma resolveConflict_eq config file headers dataId w :
  resolveConflict config file headers dataId w =
    match conflict config with
    | conflict_fail => (Returned tt, w)
    | conflict_ignore =>
        match stashRun (task w) with
        | None => (Returned tt, record (LogInfo (path file)) w)
        | Some r =>
            let w1 := record (LogInfo (path file)) (stashReady r w).2 in
            match ingestFile config file headers dataId
                    (Some (stashReady r w).1) (record TransactionBegin w1)
            with
            | (Returned _, w') => (Returned tt, record TransactionCommit w')
            | (Raised e, w') =>
                (Raised e,
                 record TransactionRollback
                   (set_registry (λ _, registry w1) w'))
            end
        end
    end.
Proof.
  unfold resolveConflict, stashReady.
  destruct (conflict config); [|done].
  unfold bind at 1. unfold get at 1. cbv beta iota.
  destruct (stashRun (task w)) as [r|]; [|done].
  destruct (run_id r).
  - unfold bind, ret, log_info, modify, transaction. simpl.
    by destruct (ingestFile _ _ _ _ _ _) as [[key|e] w'].
  - unfold bind, ret, log_info, modify, transaction, ensureRun, setStashRun.
    simpl.
    by destruct (ingestFile _ _ _ _ _ _) as [[key|e] w'].
Qed.

Lemma processFile_eq config file w :
  processFile config file w =
    match ensureDimensions config file w with
    | (Raised e, w1) => (Raised e, w1)
    | (Returned (headers, dataId), w1) =>
        match ingestDefault config file headers dataId w1 with
        | (Raised e, w2) => (Raised e, w2)
        | (Returned true, w2) => (Returned tt, w2)
        | (Returned false, w2) =>
            resolveConflict config file headers dataId w2
        end
    end.
Proof.
  unfold processFile. unfold bind at 1.
  destruct (ensureDimensions config file w) as [[[headers dataId]|e] w1];
    [|done].
  unfold bind.
  by destruct (ingestDefault _ _ _ _ _) as [[[]|e] w2].
Qed.

Lemma destination_collection w run :
  destination w run = collection (butler_run w) ∨
  ∃ r, run = Some r ∧ destination w run = collection r.
Proof.
  destruct run as [r|]; [|by left]. simpl.
  case_bool_decide; [right; by exists r|by left].
Qed.

(** What [processFile] does with a conflict in the butler's own
    collection. *)
Lemma processFile_conflict
    config file w headers dataId w1 w2 e :
  ensureDimensions config file w = (Returned (headers, dataId), w1) →
  ingestFile config file headers dataId None (record TransactionBegin w1)
    = (Raised e, w2) →
  isIngestConflictError e = true →
  registry w2 = registry w1 ∧
  match conflict config with
  | conflict_fail =>
      processFile config file w =
        (Raised e,
         record TransactionRollback (set_registry (λ _, registry w1) w2))
  | conflict_ignore =>
      processFile config file w =
        resolveConflict config file headers dataId
          (record TransactionCommit w2)
  end.
Proof.
  intros Hdims Hingest He.
  destruct (ingestFile_conflict _ _ _ _ _ _ _ _ Hingest He)
    as (_ & Hreg & _).
  split; [exact Hreg|].
  unfold processFile. erewrite bind_returned by exact Hdims.
  assert (Hbody :
    catch
      (let* _ := ingestFile config file headers dataId None in ret true)
      (λ e,
        if isIngestConflictError e then
          match conflict config with
          | conflict_fail => raise e
          | conflict_ignore => ret false
          end
        else raise e) (record TransactionBegin w1) =
    match conflict config with
    | conflict_fail => (Raised e, w2)
    | conflict_ignore => (Returned false, w2)
    end).
  { erewrite catch_raised by (erewrite bind_raised by exact Hingest; done).
    rewrite He. by destruct (conflict config). }
  unfold ingestDefault. destruct (conflict config).
  - erewrite bind_returned by (erewrite transaction_returned by exact Hbody; done).
    reflexivity.
  - erewrite bind_raised by (erewrite transaction_raised by exact Hbody; done).
    reflexivity.
Qed.

Lemma destination_stash w (r : Run) :
  collection r ≠ collection (butler_run w) →
  destination w (Some r) = collection r.
Proof.
  intros Hne. unfold destination.
  rewrite bool_decide_eq_true_2; [done|]. by intros ->.
Qed.

(** What giving the stash run its id changes. *)
Lemma stashReady_spec r w :
  stashRun (task w) = Some r →
  collection (stashReady r w).1 = collection r ∧
  is_Some (run_id (stashReady r w).1) ∧
  stashRun (task (stashReady r w).2) = Some (stashReady r w).1 ∧
  butler_run (stashReady r w).2 = butler_run w ∧
  instrumentCache (task (stashReady r w).2) = instrumentCache (task w) ∧
  datasets (registry (stashReady r w).2) = datasets (registry w) ∧
  dimensionEntries (registry (stashReady r w).2)
    = dimensionEntries (registry w) ∧
  regions (registry (stashReady r w).2) = regions (registry w) ∧
  runs (registry (stashReady r w).2)
    = (if run_id r is None then {[collection r]} ∪ runs (registry w)
       else runs (registry w)) ∧
  history (stashReady r w).2
    = history w ++ (if run_id r is None then [EnsureRun (collection r)]
                    else []).
Proof.
  intros Hstash. unfold stashReady.
  destruct (run_id r) as [n|] eqn:Hid; simpl.
  - rewrite Hid, app_nil_r. repeat split; try done; by eexists.
  - repeat split; try done; by eexists.
Qed.

(** The ingest into the stash, for a file whose formatter is at hand: the
    file is bound in the stash, unless the datastore refuses it. *)
Lemma resolveConflict_stash
    config file headers dataId w r instrument formatter :
  conflict config = conflict_ignore →
  stashRun (task w) = Some r →
  collection r ≠ collection (butler_run w) →
  instrumentCache (task w) !! dataId_instrument dataId = Some instrument →
  getRawFormatter instrument dataId = Succeeded formatter →
  datasets (registry w) !! (collection r, datasetId dataId) = None →
  match datastoreIngest file (transfer config) formatter with
  | Succeeded _ =>
      ∃ w',
        resolveConflict config file headers dataId w = (Returned tt, w') ∧
        datasets (registry w') =
          <[(collection r, datasetId dataId) := path file]>
            (datasets (registry w)) ∧
        runs (registry w') =
          (if run_id r is None then {[collection r]} ∪ runs (registry w)
           else runs (registry w)) ∧
        dimensionEntries (registry w') = dimensionEntries (registry w) ∧
        regions (registry w') = regions (registry w) ∧
        (∃ r', stashRun (task w') = Some r' ∧
               collection r' = collection r ∧ is_Some (run_id r')) ∧
        history w' = history w ++ stashEvents r file dataId
  | Failed msg =>
      ∃ w',
        resolveConflict config file headers dataId w
          = (Raised (OtherError msg), w') ∧
        datasets (registry w') = datasets (registry w) ∧
        last (history w') = Some TransactionRollback
  end.
Proof.
  intros Hignore Hstash Hne Hcached Hformatter Hfresh.
  rewrite resolveConflict_eq, Hignore, Hstash. cbv zeta.
  destruct (stashReady_spec r w Hstash)
    as (Hcoll & Hid & Hs & Hb & Hc & Hd & He & Hr & Hruns & Hh).
  set (w1 := record TransactionBegin
               (record (LogInfo (path file)) (stashReady r w).2)).
  assert (destination w1 (Some (stashReady r w).1) = collection r) as Hdest.
  { rewrite destination_stash; [done|]. simpl. by rewrite Hcoll, Hb. }
  rewrite (ingestFile_fresh config file headers dataId
             (Some (stashReady r w).1) w1 instrument formatter);
    [| simpl; by rewrite Hc | done | rewrite Hdest; simpl; by rewrite Hd].
  rewrite Hdest.
  destruct (datastoreIngest file (transfer config) formatter) as [[]|msg].
  - eexists. split; [reflexivity|]. simpl.
    rewrite Hd, Hruns, He, Hr, Hs, Hh.
    repeat split; try done; [by eexists|].
    unfold stashEvents. destruct (run_id r); simpl; by rewrite <- !app_assoc.
  - eexists. split; [reflexivity|]. simpl. split; [done|].
    by rewrite last_snoc.
Qed.

Lemma resolveConflict_no_stash config file headers dataId w :
  conflict config = conflict_ignore →
  stashRun (task w) = None →
  resolveConflict config file headers dataId w =
    (Returned tt, record (LogInfo (path file)) w).
Proof.
  intros Hignore Hstash. unfold resolveConflict. rewrite Hignore.
  unfold bind, get. by rewrite Hstash.
Qed.

(** C1, as the code has it.  Under the [rollback] policy, when a file of
    the batch raises, [run] raises the same exception and leaves the
    registry's dimension entries, datasets, regions and runs exactly as they
    were before the call, whatever the files before the failing one had
    added; the post-pass is not reached.  The registration of the dataset
    type, made before the transaction opens, stays. *)
Theorem run_rollback_undoes config pre file post w w1 w2 e :
  onError config = onError_rollback →
  forEach pre (processFile config) (record TransactionBegin (registered w))
    = (Returned tt, w1) →
  processFile config file w1 = (Raised e, w2) →
  ∃ w',
    run config (pre ++ file :: post) w = (Raised e, w') ∧
    history w' = history w2 ++ [TransactionRollback] ∧
    dimensionEntries (registry w') = dimensionEntries (registry w) ∧
    datasets (registry w') = datasets (registry w) ∧
    regions (registry w') = regions (registry w) ∧
    runs (registry w') = runs (registry w) ∧
    datasetTypes (registry w') = {["raw"]} ∪ datasetTypes (registry w).
Proof.
  intros Hpolicy Hpre Hfile.
  pose proof (forEach_raised pre post file _ _ w1 w2 e Hpre Hfile) as Hloop.
  unfold run. rewrite Hpolicy.
  erewrite bind_returned by reflexivity.
  erewrite transaction_raised
    by (erewrite bind_raised by exact Hloop; reflexivity).
  eexists. split; [reflexivity|]. simpl. repeat split.
Qed.

(** C2, as the code has it.  When the ingest into the butler's own collection
    raises an ingest conflict, the policy is consulted inside the scoped
    transaction, before the transaction is left.  Under [fail] the conflict
    is raised again, so the transaction is left by an exception and rolled
    back.  Under [ignore] the conflict is swallowed inside the block, so the
    transaction is left normally and commits, and [processFile] goes on to
    the stash.  Either way the refused attempt has changed nothing in the
    registry. *)
Theorem processFile_conflict_transaction
    config file w headers dataId w1 w2 e :
  ensureDimensions config file w = (Returned (headers, dataId), w1) →
  ingestFile config file headers dataId None (record TransactionBegin w1)
    = (Raised e, w2) →
  isIngestConflictError e = true →
  registry w2 = registry w1 ∧
  match conflict config with
  | conflict_fail =>
      processFile config file w =
        (Raised e,
         record TransactionRollback (set_registry (λ _, registry w1) w2))
  | conflict_ignore =>
      processFile config file w =
        resolveConflict config file headers dataId
          (record TransactionCommit w2)
  end.
Proof. apply processFile_conflict. Qed.

(** C3, as the code has it.  A file whose ingest into the butler's own
    collection conflicts is, under [conflict = ignore], ingested into the
    stash collection in a scoped transaction of its own, the stash run being
    registered first when it has no id yet; this holds when the stash does
    not already hold a dataset of that identity and the datastore takes the
    file.  An error of the datastore is raised by [processFile] as it is,
    the transaction of the stash being rolled back.  Without a stash the
    file is logged and dropped: no dataset, no error. *)
Theorem processFile_conflict_ignored config file w headers dataId w1 w2 e :
  conflict config = conflict_ignore →
  ensureDimensions config file w = (Returned (headers, dataId), w1) →
  ingestFile config file headers dataId None (record TransactionBegin w1)
    = (Raised e, w2) →
  isIngestConflictError e = true →
  match stashRun (task w) with
  | Some r =>
      collection r ≠ collection (butler_run w) →
      datasets (registry w) !! (collection r, datasetId dataId) = None →
      match transferOf config file w dataId with
      | Returned _ =>
          ∃ w',
            processFile config file w = (Returned tt, w') ∧
            datasets (registry w') =
              <[(collection r, datasetId dataId) := path file]>
                (datasets (registry w)) ∧
            datasets (registry w') !! (collection r, datasetId dataId)
              = Some (path file) ∧
            datasets (registry w')
                !! (collection (butler_run w), datasetId dataId)
              = datasets (registry w)
                  !! (collection (butler_run w), datasetId dataId) ∧
            runs (registry w') =
              (if run_id r is None then {[collection r]} ∪ runs (registry w)
               else runs (registry w)) ∧
            (∃ r', stashRun (task w') = Some r' ∧
                   collection r' = collection r ∧ is_Some (run_id r')) ∧
            history w' =
              history w2 ++ TransactionCommit :: stashEvents r file dataId
      | Raised e' =>
          ∃ w',
            processFile config file w = (Raised e', w') ∧
            datasets (registry w') = datasets (registry w) ∧
            last (history w') = Some TransactionRollback
      end
  | None =>
      ∃ w',
        processFile config file w = (Returned tt, w') ∧
        datasets (registry w') = datasets (registry w) ∧
        history w' = history w2 ++ [TransactionCommit; LogInfo (path file)]
  end.
Proof.
  intros Hignore Hdims Hingest He.
  pose proof (processFile_conflict _ _ _ _ _ _ _ _
                Hdims Hingest He) as [Hreg Hprocess].
  rewrite Hignore in Hprocess.
  destruct (ingestFile_conflict _ _ _ _ _ _ _ _ Hingest He)
    as (_ & _ & Hrun2 & Hstash2 & Hcached & _ & _).
  pose proof (ensureDimensions_sameButler config file w) as Hsame.
  rewrite Hdims in Hsame.
  destruct Hsame as (Hrun1 & Hf1 & _ & Hstash1 & Hc1 & Hdata1 & Hruns1 & _).
  simpl in *.
  destruct (stashRun (task w)) as [r|] eqn:Hstash.
  - intros Hne Hfresh.
    destruct Hcached as (instrument & formatter & Hcached & Hformatter & Hfor).
    rewrite (formatterFor_eq w (record TransactionBegin w1)) in Hfor by done.
    unfold transferOf. rewrite Hfor.
    pose proof (resolveConflict_stash config file headers dataId
                  (record TransactionCommit w2) r instrument formatter
                  Hignore) as Hres.
    simpl in Hres. rewrite Hprocess.
    destruct (datastoreIngest file (transfer config) formatter) as [[]|msg];
      simpl.
    + destruct Hres as (w' & Hres & Hdata & Hruns & _ & _ & Hid & Hhist);
        try done; try congruence.
      exists w'. split; [exact Hres|].
      simpl in *. rewrite Hreg, Hdata1 in Hdata. rewrite Hreg, Hruns1 in Hruns.
      repeat split; try done.
      * rewrite Hdata. apply lookup_insert_eq.
      * rewrite Hdata. apply lookup_insert_ne. congruence.
      * rewrite Hhist. by rewrite <- app_assoc.
    + destruct Hres as (w' & Hres & Hdata & Hlast);
        try done; try congruence.
      exists w'. split; [exact Hres|]. split; [|done].
      rewrite Hdata. simpl. by rewrite Hreg.
  - rewrite Hprocess, resolveConflict_no_stash; [|done|simpl; congruence].
    eexists. split; [reflexivity|]. simpl.
    split; [congruence|]. by rewrite <- app_assoc.
Qed.

(** ** The reconciliation of dimension entries *)

Lemma dimensionDataId_dimensionOf fullDataId d k :
  dimensionDataId fullDataId d = Some k → dimensionOf k = d.
Proof.
  destruct d; simpl; intros Hk; simplify_option_eq; reflexivity.
Qed.

Lemma loopDataId_dimensionOf required fullDataId d k :
  loopDataId required fullDataId d = Some k → dimensionOf k = d.
Proof.
  unfold loopDataId.
  destruct (dimensionDataId fullDataId d) as [k'|] eqn:Hk.
  - intros [= <-]. by eapply dimensionDataId_dimensionOf.
  - destruct required; [done|]. by intros [= <-].
Qed.

(** Where the identity has a value for the link, the loop works with the
    entry of that value. *)
Lemma loopDataId_linked required fullDataId d k :
  dimensionDataId fullDataId d = Some k →
  loopDataId required fullDataId d = Some k.
Proof. unfold loopDataId. by intros ->. Qed.

Lemma ensureDimension_turn fullDataId d w :
  ∃ evs,
    turn fullDataId d w (ensureDimension fullDataId d w).1
      (ensureDimension fullDataId d w).2 evs.
Proof.
  rewrite ensureDimension_eq.
  destruct (loopDataId (linksRequired w) fullDataId d) as [k|] eqn:Hk.
  - repeat case_bool_decide.
    + eexists. by eapply turn_cached.
    + eexists. by eapply turn_found.
    + eexists. eapply turn_added; try done. unfold prerequisite. tauto.
    + eexists. by eapply turn_missing.
  - eexists. by apply turn_no_link.
Qed.

Lemma entriesDone_markDone d k d' w :
  entriesDone d' (markDone d k w).2 =
    if decide (d = d') then {[k]} ∪ entriesDone d w else entriesDone d' w.
Proof.
  unfold entriesDone, markDone, modify. simpl.
  destruct (decide (d = d')) as [->|Hne].
  - by rewrite lookup_insert_eq.
  - by rewrite lookup_insert_ne.
Qed.

(** What every turn does to the world, whichever it is. *)
Lemma turn_frame fullDataId d w o w' evs :
  turn fullDataId d w o w' evs →
  history w' = history w ++ evs ∧
  linksRequired w' = linksRequired w ∧
  dimensionEntries (registry w) ⊆ dimensionEntries (registry w') ∧
  (∀ d' k', k' ∈ entriesDone d' w → k' ∈ entriesDone d' w').
Proof.
  destruct 1; rewrite ?app_nil_r; repeat split; try done;
    try (intros d' k' Hk'; rewrite entriesDone_markDone; case_decide;
         subst; set_solver);
    simpl; try set_solver.
  by rewrite <- app_assoc.
Qed.

(** What the loop does: every lookup that finds nothing is followed by the
    insertion, for a visit or an exposure, or stops the loop, for a
    prerequisite; nothing else is inserted. *)
Lemma loop_absent fullDataId ds w o w' :
  forEach ds (ensureDimension fullDataId) w = (o, w') →
  ∃ evs,
    history w' = history w ++ evs ∧
    linksRequired w' = linksRequired w ∧
    dimensionEntries (registry w) ⊆ dimensionEntries (registry w') ∧
    (∀ d' k', k' ∈ entriesDone d' w → k' ∈ entriesDone d' w') ∧
    (∀ k, AddDimensionEntry k ∈ evs → ¬ prerequisite (dimensionOf k)) ∧
    (∀ k, FindDimensionEntry k false ∈ evs →
       if bool_decide (prerequisite (dimensionOf k))
       then o = Raised (LookupError (Some k)) ∧
            k ∉ dimensionEntries (registry w')
       else AddDimensionEntry k ∈ evs ∧
            k ∈ dimensionEntries (registry w')).
Proof.
  revert w. induction ds as [|d ds IH]; intros w Hloop; simpl in Hloop.
  - unfold ret in Hloop. simplify_eq. exists [].
    rewrite app_nil_r.
    split; [done|]. split; [done|]. split; [done|]. split; [done|].
    split; intros k Hk; by apply elem_of_nil in Hk.
  - unfold bind in Hloop.
    destruct (ensureDimension_turn fullDataId d w) as [evs1 Hturn].
    destruct (ensureDimension fullDataId d w) as [o1 w1]. simpl in Hturn.
    pose proof (turn_frame _ _ _ _ _ _ Hturn) as (Hh1 & Hs1 & He1 & Hc1).
    destruct o1 as [[]|e1].
    + destruct (IH _ Hloop) as (evs2 & Hh2 & Hs2 & He2 & Hc2 & Ha2 & Hf2).
      exists (evs1 ++ evs2).
      split; [by rewrite app_assoc, <- Hh1, <- Hh2|].
      split; [congruence|].
      split; [by etransitivity|].
      split; [intros d' k' Hk'; by apply Hc2, Hc1|].
      split.
      * intros k Hk. apply elem_of_app in Hk as [Hk|Hk]; [|by apply Ha2].
        inversion Hturn; subst.
        -- by apply elem_of_nil in Hk.
        -- apply list_elem_of_singleton in Hk. discriminate.
        -- apply elem_of_cons in Hk as [Hk|Hk]; [discriminate|].
           apply list_elem_of_singleton in Hk. simplify_eq.
           by erewrite loopDataId_dimensionOf.
      * intros k Hk. apply elem_of_app in Hk as [Hk|Hk].
        -- inversion Hturn; subst.
           ++ by apply elem_of_nil in Hk.
           ++ apply list_elem_of_singleton in Hk. discriminate.
           ++ apply elem_of_cons in Hk as [Hk|Hk];
                [|apply list_elem_of_singleton in Hk; discriminate].
              simplify_eq.
              erewrite loopDataId_dimensionOf by done.
              rewrite bool_decide_eq_false_2 by done.
              split.
              ** apply elem_of_app. left. apply elem_of_cons. right.
                 by apply list_elem_of_singleton.
              ** apply He2. simpl. apply elem_of_union. left.
                 by apply elem_of_singleton.
        -- specialize (Hf2 k Hk). case_bool_decide; [done|].
           destruct Hf2 as [Hadd Hin]. split; [|done].
           apply elem_of_app. by right.
    + simplify_eq. exists evs1.
      split; [done|]. split; [done|]. split; [done|]. split; [done|].
      split.
      * intros k Hk. inversion Hturn; subst.
        -- by apply elem_of_nil in Hk.
        -- apply list_elem_of_singleton in Hk. discriminate.
      * intros k Hk. inversion Hturn; subst.
        -- by apply elem_of_nil in Hk.
        -- apply list_elem_of_singleton in Hk. simplify_eq.
           erewrite loopDataId_dimensionOf by done.
           rewrite bool_decide_eq_true_2 by done. done.
Qed.

Lemma buildRegion_eq config headers w :
  buildRegion config headers w = (regionOf config headers, w).
Proof. destruct headers; reflexivity. Qed.

Lemma addDetectorRegion_eq config headers fullDataId w :
  addDetectorRegion config headers fullDataId w =
    match regionOf config headers with
    | Raised e => (Raised e, w)
    | Returned region =>
        match detectorKey (linksRequired w) fullDataId with
        | None => (Raised (LookupError None), w)
        | Some k =>
            if bool_decide (is_Some (regions (registry w) !! k))
            then (Returned tt, record (SetDimensionRegion k false false) w)
            else
              match dataId_visit fullDataId with
              | Some v =>
                  (Returned tt,
                   regionWritten k (dataId_instrument fullDataId, v) region w)
              | None =>
                  (Raised (KeyError "visit"),
                   record (SetDimensionRegion k false true)
                     (set_registry (storeRegion k region) w))
              end
        end
    end.
Proof.
  unfold addDetectorRegion. unfold bind at 1. rewrite buildRegion_eq.
  destruct (regionOf config headers) as [region|e]; [|done].
  unfold catch, detectorRegionKey, detectorKey, getitem_visit.
  unfold setDimensionRegion, bind, get, ret, raise. cbv beta.
  destruct (dataId_visit fullDataId) as [v|]; simpl.
  - case_bool_decide; reflexivity.
  - destruct (linksRequired w); [done|]. simpl.
    case_bool_decide; reflexivity.
Qed.

(** The same for an identity that has a visit. *)
Lemma addDetectorRegion_visit config headers fullDataId w v :
  dataId_visit fullDataId = Some v →
  addDetectorRegion config headers fullDataId w =
    match regionOf config headers with
    | Raised e => (Raised e, w)
    | Returned region =>
        let i := dataId_instrument fullDataId in
        let k := DetectorRegion i v (dataId_detector fullDataId) in
        if bool_decide (is_Some (regions (registry w) !! k))
        then (Returned tt, record (SetDimensionRegion k false false) w)
        else (Returned tt, regionWritten k (i, v) region w)
    end.
Proof.
  intros Hv. rewrite addDetectorRegion_eq. unfold detectorKey.
  by rewrite Hv.
Qed.

Lemma ensureDimension_settles fullDataId d w w' :
  ensureDimension fullDataId d w = (Returned tt, w') →
  settled fullDataId d w'.
Proof.
  intros Hstep.
  assert (linksRequired w' = linksRequired w) as Hlinks.
  { destruct (ensureDimension_turn fullDataId d w) as [evs Hturn].
    rewrite Hstep in Hturn. by apply turn_frame in Hturn as (_ & ? & _). }
  revert Hstep. rewrite ensureDimension_eq. unfold settled. rewrite Hlinks.
  destruct (loopDataId (linksRequired w) fullDataId d) as [k|]; [|done].
  repeat case_bool_decide; intros Heq; try done.
  - by simplify_eq.
  - apply (f_equal snd) in Heq. simpl in Heq. subst w'.
    change (set_task _ ?w0) with (markDone d k w0).2.
    rewrite entriesDone_markDone, decide_True by done.
    apply elem_of_union. left. by apply elem_of_singleton.
  - apply (f_equal snd) in Heq. simpl in Heq. subst w'.
    change (set_task _ ?w0) with (markDone d k w0).2.
    rewrite entriesDone_markDone, decide_True by done.
    apply elem_of_union. left. by apply elem_of_singleton.
Qed.

Lemma settled_mono fullDataId d w w' :
  linksRequired w' = linksRequired w →
  (∀ d' k', k' ∈ entriesDone d' w → k' ∈ entriesDone d' w') →
  settled fullDataId d w → settled fullDataId d w'.
Proof.
  unfold settled. intros -> Hc.
  destruct (loopDataId _ fullDataId d); [apply Hc|done].
Qed.

Lemma loop_settles fullDataId ds w w' :
  forEach ds (ensureDimension fullDataId) w = (Returned tt, w') →
  ∀ d, d ∈ ds → settled fullDataId d w'.
Proof.
  revert w. induction ds as [|d ds IH]; intros w Hloop d' Hd'.
  - by apply elem_of_nil in Hd'.
  - simpl in Hloop. unfold bind in Hloop.
    destruct (ensureDimension fullDataId d w) as [[[]|e1] w1] eqn:Hturn;
      [|done].
    apply elem_of_cons in Hd' as [->|Hd']; [|by eapply IH].
    destruct (loop_absent _ _ _ _ _ Hloop) as (evs & _ & Hs & _ & Hc & _).
    eapply settled_mono; [exact Hs|exact Hc|].
    by eapply ensureDimension_settles.
Qed.

Lemma ensureDimension_settled fullDataId d w :
  settled fullDataId d w →
  ensureDimension fullDataId d w = (Returned tt, w).
Proof.
  unfold settled. intros Hsettled. rewrite ensureDimension_eq.
  destruct (loopDataId _ fullDataId d); [|done].
  by rewrite bool_decide_eq_true_2.
Qed.

Lemma loop_idle fullDataId ds w :
  (∀ d, d ∈ ds → settled fullDataId d w) →
  forEach ds (ensureDimension fullDataId) w = (Returned tt, w).
Proof.
  induction ds as [|d ds IH]; intros Hsettled; simpl; [done|].
  erewrite bind_returned;
    [|apply ensureDimension_settled, Hsettled; by left].
  apply IH. intros d' Hd'. apply Hsettled. by right.
Qed.

(** The loop changes neither the regions nor the accumulated vertices. *)
Lemma loop_regions fullDataId ds w :
  regions (registry (forEach ds (ensureDimension fullDataId) w).2)
    = regions (registry w) ∧
  visitRegions (task (forEach ds (ensureDimension fullDataId) w).2)
    = visitRegions (task w).
Proof.
  apply (preserves_forEach
    (λ w', regions (registry w') = regions (registry w) ∧
           visitRegions (task w') = visitRegions (task w))); [|done].
  intros d _ w' Hw'. rewrite ensureDimension_eq.
  repeat case_match; done.
Qed.

(** [ensureDimensions] in terms of its two phases. *)
Lemma ensureDimensions_eq config file header obsInfo w :
  metadata file = Returned header →
  translated header = Returned obsInfo →
  ensureDimensions config file w =
    match forEach (selfDimensions w) (ensureDimension (extractDataId obsInfo)) w
    with
    | (Raised e, w1) => (Raised e, w1)
    | (Returned _, w1) =>
        if doAddRegions config then
          match addDetectorRegion config [header] (extractDataId obsInfo) w1
          with
          | (Raised e, w2) => (Raised e, w2)
          | (Returned _, w2) => (Returned ([header], extractDataId obsInfo), w2)
          end
        else (Returned ([header], extractDataId obsInfo), w1)
    end.
Proof.
  intros Hmeta Htrans.
  unfold ensureDimensions, readHeaders, lift, first, ret.
  unfold bind at 1. unfold bind at 1. rewrite Hmeta.
  unfold bind at 1. unfold bind at 1. rewrite Htrans.
  unfold bind at 1, get. unfold bind at 1.
  destruct (forEach (selfDimensions w) _ w) as [[[]|e] w1]; [|done].
  unfold bind. destruct (doAddRegions config); [|done].
  by destruct (addDetectorRegion _ _ _ w1) as [[[]|e] w2].
Qed.

Lemma ensureDimensions_unreadable config file w r w' :
  ensureDimensions config file w = (Returned r, w') →
  ∃ header obsInfo,
    metadata file = Returned header ∧ translated header = Returned obsInfo.
Proof.
  unfold ensureDimensions, readHeaders, lift, first, ret.
  unfold bind at 1. unfold bind at 1.
  destruct (metadata file) as [header|e] eqn:Hmeta; [|done].
  unfold bind at 1. unfold bind at 1.
  destruct (translated header) as [obsInfo|e] eqn:Htrans; [|done].
  intros _. exists header, obsInfo. by split.
Qed.

Lemma ensureDimensions_unread config file w :
  (∀ header obsInfo,
     metadata file = Returned header → translated header ≠ Returned obsInfo) →
  ∃ e, ensureDimensions config file w = (Raised e, w).
Proof.
  intros Hbad.
  unfold ensureDimensions, readHeaders, lift, first, ret.
  unfold bind at 1. unfold bind at 1.
  destruct (metadata file) as [header|e] eqn:Hmeta; [|by exists e].
  unfold bind at 1. unfold bind at 1.
  destruct (translated header) as [obsInfo|e] eqn:Htrans; [|by exists e].
  by destruct (Hbad header obsInfo).
Qed.

(** The region phase touches neither the dimension entries nor the cache,
    and only writes regions. *)
Lemma addDetectorRegion_frame config headers fullDataId w :
  ∃ evs,
    history (addDetectorRegion config headers fullDataId w).2
      = history w ++ evs ∧
    Forall regionEvent evs ∧
    dimensionEntries
      (registry (addDetectorRegion config headers fullDataId w).2)
      = dimensionEntries (registry w) ∧
    linksRequired (addDetectorRegion config headers fullDataId w).2
      = linksRequired w ∧
    ∀ d, entriesDone d (addDetectorRegion config headers fullDataId w).2
         = entriesDone d w.
Proof.
  rewrite addDetectorRegion_eq.
  destruct (regionOf config headers) as [region|e];
    [|exists []; by rewrite app_nil_r].
  destruct (detectorKey _ fullDataId) as [k|];
    [|exists []; by rewrite app_nil_r].
  case_bool_decide; [|destruct (dataId_visit fullDataId)]; eexists [_];
    simpl; (split; [reflexivity|]); (split; [by repeat constructor|]); done.
Qed.

(** C4.  Whenever a lookup made by [ensureDimensions] finds no entry: for a
    visit or an exposure the entry is inserted; for an instrument, a
    detector or a physical filter [ensureDimensions] fails with the
    missing-prerequisite [LookupError] and the entry is not created. *)
Theorem ensureDimensions_absent_entry config file w o w' evs k :
  ensureDimensions config file w = (o, w') →
  history w' = history w ++ evs →
  FindDimensionEntry k false ∈ evs →
  if bool_decide (dimensionOf k ∈ [dim_visit; dim_exposure])
  then AddDimensionEntry k ∈ evs ∧ k ∈ dimensionEntries (registry w')
  else o = Raised (LookupError (Some k)) ∧
       (AddDimensionEntry k ∉ evs) ∧
       (k ∉ dimensionEntries (registry w')).
Proof.
  intros Hrun Hhist Hfind.
  destruct (metadata file) as [header|e0] eqn:Hmeta; last first.
  { destruct (ensureDimensions_unread config file w) as [e He];
      [intros ??; congruence|].
    assert (w' = w) as -> by (rewrite He in Hrun; by simplify_eq).
    rewrite <- (app_nil_r (history w)) in Hhist at 1.
    apply app_inv_head in Hhist. subst evs. by apply elem_of_nil in Hfind. }
  destruct (translated header) as [obsInfo|e0] eqn:Htrans; last first.
  { destruct (ensureDimensions_unread config file w) as [e He];
      [intros ??; congruence|].
    assert (w' = w) as -> by (rewrite He in Hrun; by simplify_eq).
    rewrite <- (app_nil_r (history w)) in Hhist at 1.
    apply app_inv_head in Hhist. subst evs. by apply elem_of_nil in Hfind. }
  rewrite (ensureDimensions_eq _ _ _ _ _ Hmeta Htrans) in Hrun.
  destruct (forEach (selfDimensions w) _ w) as [o1 w1] eqn:Hloop.
  destruct (loop_absent _ _ _ _ _ Hloop)
    as (evs1 & Hh1 & _ & _ & _ & Hadd & Hfound).
  assert (Hloop_only :
    w' = w1 →
    (o1 = Returned tt ∨ ∃ e, o1 = Raised e ∧ o = Raised e) →
    (if bool_decide (dimensionOf k ∈ [dim_visit; dim_exposure])
     then AddDimensionEntry k ∈ evs ∧ k ∈ dimensionEntries (registry w')
     else o = Raised (LookupError (Some k)) ∧
          (AddDimensionEntry k ∉ evs) ∧
          (k ∉ dimensionEntries (registry w')))).
  { intros -> Ho. rewrite Hh1 in Hhist. apply app_inv_head in Hhist.
    subst evs1. specialize (Hfound k Hfind). unfold prerequisite in *.
    repeat case_bool_decide; try tauto.
    destruct Hfound as [Ho1 Hout].
    destruct Ho as [Ho|(e & Ho & ->)]; [congruence|].
    split; [congruence|]. split; [|done].
    intros Hk. by apply Hadd in Hk. }
  destruct o1 as [[]|e1];
    [|apply Hloop_only; [by simplify_eq|right; exists e1; by simplify_eq]].
  destruct (doAddRegions config);
    [|apply Hloop_only; [by simplify_eq|by left]].
  destruct (addDetectorRegion_frame config [header] (extractDataId obsInfo) w1)
    as (evs2 & Hh2 & Hregion & Hentries & _).
  assert (w' = (addDetectorRegion config [header] (extractDataId obsInfo) w1).2)
    as Hw'.
  { destruct (addDetectorRegion _ _ _ w1) as [[[]|e2] w2]; by simplify_eq. }
  rewrite Hw', Hh2, Hh1, <- app_assoc in Hhist.
  apply app_inv_head in Hhist. subst evs.
  apply elem_of_app in Hfind as [Hfind|Hfind]; last first.
  { rewrite Forall_forall in Hregion. by apply Hregion in Hfind. }
  specialize (Hfound k Hfind). unfold prerequisite in *.
  repeat case_bool_decide; try tauto; [|by destruct Hfound].
  destruct Hfound as [Hin Hent]. split.
  - apply elem_of_app. by left.
  - by rewrite Hw', Hentries.
Qed.

(** Iterating [self.dimensions] meets every dimension. *)
Lemma selfDimensions_all w d : d ∈ selfDimensions w.
Proof.
  unfold selfDimensions, difference. cbv zeta. apply elem_of_app.
  destruct (decide (d ∈ remove_dups (universe w))) as [Hin|Hout];
    [by left|right].
  apply list_elem_of_filter. split; [done|].
  unfold dimensions. destruct d; list_mem.
Qed.

(** The loop returns when the constructor builds an identity for every
    dimension and the entries of the prerequisites are in the cache or in
    the registry. *)
Lemma loop_returns fullDataId ds w :
  (∀ d, d ∈ ds →
     ∃ k, loopDataId (linksRequired w) fullDataId d = Some k ∧
          (prerequisite d →
           k ∈ entriesDone d w ∨ k ∈ dimensionEntries (registry w))) →
  ∃ w', forEach ds (ensureDimension fullDataId) w = (Returned tt, w').
Proof.
  revert w. induction ds as [|d ds IH]; intros w Hpre; simpl.
  - by eexists.
  - destruct (ensureDimension_turn fullDataId d w) as [evs Hturn].
    destruct (ensureDimension fullDataId d w) as [o1 w1] eqn:Hstep.
    simpl in Hturn.
    pose proof (turn_frame _ _ _ _ _ _ Hturn) as (_ & Hs1 & He1 & Hc1).
    destruct (Hpre d) as (k & Hk & Hin); [by left|].
    assert (o1 = Returned tt) as ->.
    { inversion Hturn; subst; try done; [congruence|].
      assert (k0 = k) as -> by congruence.
      by destruct Hin as [?|?]. }
    erewrite bind_returned by exact Hstep.
    apply IH. intros d' Hd'.
    destruct (Hpre d') as (k' & Hk' & Hin'); [by right|].
    exists k'. rewrite Hs1. split; [done|]. intros Hp.
    destruct (Hin' Hp); [left; by apply Hc1 | right; by apply He1].
Qed.




(** ** The detector region *)

Lemma ensureDimensions_result config file w r w1 :
  ensureDimensions config file w = (Returned r, w1) →
  ∃ header obsInfo,
    metadata file = Returned header ∧
    translated header = Returned obsInfo ∧
    r = ([header], extractDataId obsInfo).
Proof.
  intros Hrun.
  destruct (ensureDimensions_unreadable _ _ _ _ _ Hrun)
    as (header & obsInfo & Hmeta & Htrans).
  exists header, obsInfo. split; [done|]. split; [done|].
  rewrite (ensureDimensions_eq _ _ _ _ _ Hmeta Htrans) in Hrun.
  destruct (forEach (selfDimensions w) _ w) as [[[]|e0] w0]; [|done].
  destruct (doAddRegions config); [|by simplify_eq].
  destruct (addDetectorRegion _ _ _ w0) as [[[]|e1] w2]; by simplify_eq.
Qed.

(** When [ensureDimensions] returns, the loop has nothing left to do for any
    dimension. *)
Lemma ensureDimensions_settles config file w r w' :
  ensureDimensions config file w = (Returned r, w') →
  ∀ d, settled r.2 d w'.
Proof.
  intros Hrun d. pose proof (selfDimensions_all w d) as Hd.
  destruct (ensureDimensions_result _ _ _ _ _ Hrun)
    as (header & obsInfo & Hmeta & Htrans & ->).
  rewrite (ensureDimensions_eq _ _ _ _ _ Hmeta Htrans) in Hrun.
  destruct (forEach (selfDimensions w) _ w) as [[[]|e] w1] eqn:Hloop; [|done].
  pose proof (loop_settles _ _ _ _ Hloop d Hd) as Hs.
  destruct (doAddRegions config); [|by simplify_eq].
  destruct (addDetectorRegion_frame config [header] (extractDataId obsInfo) w1)
    as (evs & _ & _ & _ & Hlinks & Hdone).
  destruct (addDetectorRegion _ _ _ w1) as [[[]|e] w2]; [|done].
  simplify_eq. simpl in *.
  eapply settled_mono; [exact Hlinks | | exact Hs].
  intros d' k'. by rewrite Hdone.
Qed.

(** What a call of [ensureDimensions] that returns has done to the regions,
    and what a second call on the same file does. *)
Lemma ensureDimensions_returned config file w r w1 :
  doAddRegions config = true →
  ensureDimensions config file w = (Returned r, w1) →
  ∃ k region,
    regionOf config r.1 = Returned region ∧
    detectorKey (linksRequired w) r.2 = Some k ∧
    linksRequired w1 = linksRequired w ∧
    is_Some (regions (registry w1) !! k) ∧
    match regions (registry w) !! k with
    | Some _ =>
        regions (registry w1) = regions (registry w) ∧
        visitRegions (task w1) = visitRegions (task w)
    | None =>
        ∃ v,
          dataId_visit r.2 = Some v ∧
          regions (registry w1) = <[k := region]> (regions (registry w)) ∧
          visitRegions (task w1)
            = extendVisitRegions (dataId_instrument r.2, v)
                (getVertices region) (visitRegions (task w))
    end ∧
    ensureDimensions config file w1 =
      (Returned r, record (SetDimensionRegion k false false) w1).
Proof.
  intros Hregions Hfirst.
  destruct (ensureDimensions_unreadable _ _ _ _ _ Hfirst)
    as (header & obsInfo & Hmeta & Htrans).
  pose proof (ensureDimensions_settles _ _ _ _ _ Hfirst) as Hsettled.
  rewrite (ensureDimensions_eq _ _ _ _ _ Hmeta Htrans), Hregions in Hfirst.
  destruct (forEach (selfDimensions w) _ w) as [[[]|e0] w0] eqn:Hloop;
    [|done].
  pose proof (loop_regions (extractDataId obsInfo) (selfDimensions w) w)
    as Hframe.
  rewrite Hloop in Hframe. simpl in Hframe. destruct Hframe as [Hreg0 Hvis0].
  destruct (loop_absent _ _ _ _ _ Hloop) as (evs & _ & Hl0 & _).
  rewrite addDetectorRegion_eq in Hfirst.
  destruct (regionOf config [header]) as [region|e1] eqn:Hregion; [|done].
  rewrite Hl0 in Hfirst.
  destruct (detectorKey (linksRequired w) (extractDataId obsInfo)) as [k|]
    eqn:Hk; [|done].
  rewrite Hreg0 in Hfirst.
  assert (r = ([header], extractDataId obsInfo) ∧
          linksRequired w1 = linksRequired w ∧
          is_Some (regions (registry w1) !! k) ∧
          match regions (registry w) !! k with
          | Some _ =>
              regions (registry w1) = regions (registry w) ∧
              visitRegions (task w1) = visitRegions (task w)
          | None =>
              ∃ v,
                dataId_visit (extractDataId obsInfo) = Some v ∧
                regions (registry w1)
                  = <[k := region]> (regions (registry w)) ∧
                visitRegions (task w1)
                  = extendVisitRegions
                      (dataId_instrument (extractDataId obsInfo), v)
                      (getVertices region) (visitRegions (task w))
          end) as (-> & Hl1 & Hstored & Hcases).
  { destruct (regions (registry w) !! k) as [old|] eqn:Hold.
    - rewrite bool_decide_eq_true_2 in Hfirst by by eexists.
      simplify_eq. simpl. rewrite Hreg0, Hold. by repeat split.
    - rewrite bool_decide_eq_false_2 in Hfirst by by intros [??].
      destruct (dataId_visit (extractDataId obsInfo)) as [v|]; [|done].
      simplify_eq. simpl. rewrite Hreg0, Hvis0.
      repeat split; try done; [|by exists v].
      rewrite lookup_insert_eq. by eexists. }
  exists k, region. cbn [fst snd].
  split; [done|]. split; [done|]. split; [done|]. split; [done|].
  split; [exact Hcases|].
  rewrite (ensureDimensions_eq _ _ _ _ _ Hmeta Htrans), Hregions.
  rewrite (loop_idle _ _ _ (λ d _, Hsettled d)).
  rewrite addDetectorRegion_eq, Hregion, Hl1, Hk.
  by rewrite bool_decide_eq_true_2.
Qed.

Lemma accumulated_extend key vertices key' d :
  accumulated key' (extendVisitRegions key vertices d) =
    if decide (key = key')
    then Some (default [] (accumulated key d) ++ vertices)
    else accumulated key' d.
Proof.
  induction d as [|[k vs] d IH]; simpl.
  - repeat case_decide; done.
  - repeat (case_decide; simpl; simplify_eq); try done.
Qed.

(** The identity the loop works with for a prerequisite or a visit is read
    off the instrument, the detector, the physical filter and the visit. *)
Lemma loopDataId_agree required fullDataId fullDataId' d :
  d ≠ dim_exposure →
  dataId_instrument fullDataId' = dataId_instrument fullDataId →
  dataId_detector fullDataId' = dataId_detector fullDataId →
  dataId_visit fullDataId' = dataId_visit fullDataId →
  dataId_physical_filter fullDataId' = dataId_physical_filter fullDataId →
  loopDataId required fullDataId' d = loopDataId required fullDataId d.
Proof.
  intros Hd Hi Hdet Hv Hf. unfold loopDataId, dimensionDataId.
  rewrite Hi, Hdet, Hv, Hf. by destruct d.
Qed.

(** C6.  When [ensureDimensions] has returned for a file of a visit, with
    regions added, the region of its detector is stored.  Where none was
    stored before, the call has stored the region of the file and put its
    vertices behind those accumulated for the visit, leaving the other
    visits alone; where one was stored, it has kept that one and accumulated
    nothing.  A further call, for the same file or for another file of the
    same instrument, visit, detector and filter, returns: the write is
    refused, the refusal is swallowed, and the regions and the accumulated
    vertices stay as they are.  For the same identity the call leaves the
    world as it is but for the record of the refused write. *)
Theorem ensureDimensions_twice
    config file w r w1 v file' header' obsInfo' region' :
  doAddRegions config = true →
  ensureDimensions config file w = (Returned r, w1) →
  dataId_visit r.2 = Some v →
  metadata file' = Returned header' →
  translated header' = Returned obsInfo' →
  regionOf config [header'] = Returned region' →
  instrument obsInfo' = dataId_instrument r.2 →
  visit_id obsInfo' = dataId_visit r.2 →
  detector_num obsInfo' = dataId_detector r.2 →
  physical_filter obsInfo' = dataId_physical_filter r.2 →
  ∃ i d region,
    regionOf config r.1 = Returned region ∧
    dataId_instrument r.2 = i ∧ dataId_detector r.2 = d ∧
    match regions (registry w) !! DetectorRegion i v d with
    | None =>
        regions (registry w1)
          = <[DetectorRegion i v d := region]> (regions (registry w)) ∧
        accumulated (i, v) (visitRegions (task w1))
          = Some (default [] (accumulated (i, v) (visitRegions (task w)))
                  ++ getVertices region) ∧
        ∀ key, key ≠ (i, v) →
          accumulated key (visitRegions (task w1))
            = accumulated key (visitRegions (task w))
    | Some _ =>
        regions (registry w1) = regions (registry w) ∧
        visitRegions (task w1) = visitRegions (task w)
    end ∧
    ∃ w2,
      ensureDimensions config file' w1
        = (Returned ([header'], extractDataId obsInfo'), w2) ∧
      regions (registry w2) = regions (registry w1) ∧
      visitRegions (task w2) = visitRegions (task w1) ∧
      last (history w2)
        = Some (SetDimensionRegion (DetectorRegion i v d) false false) ∧
      (extractDataId obsInfo' = r.2 →
       w2 = record (SetDimensionRegion (DetectorRegion i v d) false false)
              w1).
Proof.
  intros Hregions Hfirst Hv Hmeta' Htrans' Hregion' Hi' Hv' Hd' Hf'.
  destruct (ensureDimensions_returned _ _ _ _ _ Hregions Hfirst)
    as (k & region & Hregion & Hk & _ & Hstored & Hcases & _).
  unfold detectorKey in Hk. rewrite Hv in Hk. injection Hk as <-.
  exists (dataId_instrument r.2), (dataId_detector r.2), region.
  split; [done|]. split; [done|]. split; [done|].
  split.
  { destruct (regions (registry w) !! DetectorRegion _ v _) as [old|];
      [done|].
    destruct Hcases as (v0 & Hv0 & -> & ->).
    assert (v0 = v) as -> by congruence.
    split; [done|].
    split; intros; rewrite accumulated_extend.
    + by rewrite decide_True.
    + by rewrite decide_False. }
  destruct (extractDataId_links obsInfo') as (Hi2 & _ & Hd2 & Hv2 & Hf2).
  pose proof (ensureDimensions_settles _ _ _ _ _ Hfirst) as Hsettled.
  rewrite (ensureDimensions_eq _ _ _ _ _ Hmeta' Htrans'), Hregions.
  pose proof (loop_regions (extractDataId obsInfo') (selfDimensions w1) w1)
    as [Hreg Hvis].
  destruct (loop_returns (extractDataId obsInfo') (selfDimensions w1) w1)
    as [w1' Hloop].
  { intros d0 _. destruct (decide (d0 = dim_exposure)) as [->|Hne].
    - eexists. split; [reflexivity|]. intros Hp. exfalso. apply Hp.
      apply elem_of_cons. right. by apply list_elem_of_singleton.
    - specialize (Hsettled d0). unfold settled in Hsettled.
      rewrite <- (loopDataId_agree _ r.2 (extractDataId obsInfo') d0)
        in Hsettled by congruence.
      destruct (loopDataId _ (extractDataId obsInfo') d0) as [k|]; [|done].
      exists k. split; [done|]. intros _. by left. }
  rewrite Hloop in Hreg, Hvis |- *. simpl in Hreg, Hvis.
  rewrite (addDetectorRegion_visit _ _ _ _ v) by congruence.
  rewrite Hregion'. cbv zeta. rewrite Hi2, Hd2, Hi', Hd'.
  rewrite bool_decide_eq_true_2 by by rewrite Hreg.
  eexists. split; [reflexivity|]. simpl.
  split; [done|]. split; [done|]. split; [by rewrite last_snoc|].
  intros Hsame. rewrite Hsame in Hloop.
  rewrite (loop_idle _ _ _ (λ d0 _, Hsettled d0)) in Hloop.
  by simplify_eq.
Qed.

(** ** The accumulated vertices across runs *)

(** Extending the map keeps what a key had. *)
Lemma extendVisitRegions_keeps key vertices key' vertices' d :
  (key, vertices) ∈ d →
  ∃ more, (key, vertices ++ more) ∈ extendVisitRegions key' vertices' d.
Proof.
  induction d as [|[k vs] d IH]; intros Hin; simpl.
  - by apply elem_of_nil in Hin.
  - apply elem_of_cons in Hin as [Heq|Hin].
    + simplify_eq. case_decide.
      * subst. exists vertices'. by left.
      * exists []. rewrite app_nil_r. by left.
    + case_decide.
      * exists []. rewrite app_nil_r. by right.
      * destruct (IH Hin) as [more Hmore]. exists more. by right.
Qed.

Lemma run_accumulatedStill config files key vertices :
  preserves (accumulatedStill key vertices) (run config files).
Proof.
  apply run_preserves;
    try (intros; first [assumption | intros w Hw; exact Hw]).
  - intros fullDataId d w Hw. rewrite ensureDimension_eq.
    repeat case_match; exact Hw.
  - intros k region update w Hw. unfold setDimensionRegion.
    case_match; exact Hw.
  - intros key' vertices' w [more Hw]. unfold accumulatedStill. simpl.
    destruct (extendVisitRegions_keeps _ _ key' vertices' _ Hw)
      as [more' Hmore'].
    exists (more ++ more'). by rewrite app_assoc.
  - intros coll file dataId transfer formatter w Hw. unfold butler_ingest.
    repeat case_match; exact Hw.
Qed.

(** ** Lookups and insertions of one entry *)










Lemma afterRuns_preserves I config batches w :
  (∀ files, preserves I (run config files)) →
  I w → I (afterRuns config batches w).
Proof.
  intros Hrun. revert w. induction batches as [|files batches IH];
    intros w Hw; simpl; [done|].
  apply IH. by apply Hrun.
Qed.



(** ** The post-pass *)

Lemma accumulated_None key d : accumulated key d = None ↔ key ∉ d.*1.
Proof.
  induction d as [|[k vs] d IH]; simpl.
  - split; [intros _; apply not_elem_of_nil|done].
  - rewrite not_elem_of_cons. case_decide; subst.
    + split; [done|]. by intros [].
    + rewrite IH. split; [by split|by intros []].
Qed.

Lemma extendVisitRegions_keys key vertices d :
  (extendVisitRegions key vertices d).*1 =
    if decide (key ∈ d.*1) then d.*1 else d.*1 ++ [key].
Proof.
  induction d as [|[k vs] d IH].
  - destruct (decide (key ∈ ([] : list ((string * Z) * list Vertex)).*1))
      as [Hin|_]; [by apply elem_of_nil in Hin|done].
  - cbn [extendVisitRegions].
    destruct (decide (k = key)) as [->|Hk].
    + rewrite decide_True; [done|by left].
    + rewrite fmap_cons, IH. cbn [fst].
      destruct (decide (key ∈ d.*1)) as [Hin|Hin].
      * rewrite decide_True; [done|by right].
      * rewrite decide_False; [done|].
        intros [?|?]%elem_of_cons; by simplify_eq.
Qed.

Lemma extendVisitRegions_NoDup key vertices d :
  NoDup d.*1 → NoDup (extendVisitRegions key vertices d).*1.
Proof.
  intros Hd. rewrite extendVisitRegions_keys. case_decide as Hin; [done|].
  apply NoDup_app. split; [done|]. split.
  - intros k Hk Hk'. apply list_elem_of_singleton in Hk'. by subst.
  - apply NoDup_singleton.
Qed.

Lemma addVisitRegion_eq i v vertices w :
  addVisitRegion ((i, v), vertices) w =
    (Returned tt,
     record (SetDimensionRegion (VisitRegion i v) true true)
       (set_registry
          (storeRegion (VisitRegion i v)
             (ConvexPolygon
                (existingVertices (regions (registry w)) (i, v) ++ vertices)))
          (record (ExpandDataId (VisitRegion i v)) w))).
Proof.
  unfold addVisitRegion, bind, expandDataId_region, setDimensionRegion,
    existingVertices.
  simpl. by destruct (regions (registry w) !! VisitRegion i v).
Qed.

Lemma addVisitRegions_loop d w :
  NoDup d.*1 →
  (forEach d addVisitRegion w).1 = Returned tt ∧
  task (forEach d addVisitRegion w).2 = task w ∧
  dimensionEntries (registry (forEach d addVisitRegion w).2)
    = dimensionEntries (registry w) ∧
  datasets (registry (forEach d addVisitRegion w).2)
    = datasets (registry w) ∧
  ∀ k, regions (registry (forEach d addVisitRegion w).2) !! k
       = committed (regions (registry w)) d k.
Proof.
  revert w. induction d as [|[[i v] vs] d IH]; intros w Hd.
  - repeat split. intros [i v d|i v|i d]; reflexivity.
  - apply NoDup_cons in Hd as [Hnew Hd].
    cbn [forEach].
    rewrite (bind_returned _ _ _ _ _ (addVisitRegion_eq i v vs w)).
    match goal with
    | |- context [forEach d addVisitRegion ?w0] => set (w1 := w0)
    end.
    destruct (IH w1 Hd) as (Hret & Htask & Hentries & Hdata & Hregions).
    destruct (forEach d addVisitRegion w1) as [o w2]. simpl in *.
    repeat split; try done.
    intros k. rewrite Hregions. destruct k as [i' v' d'|i' v'|i' d']; simpl.
    + by rewrite lookup_insert_ne.
    + fold (fmap (M := list) (@fst (string * Z) (list Vertex))) in Hnew.
      case_decide as Hkey.
      * simplify_eq. apply accumulated_None in Hnew. rewrite Hnew.
        by rewrite lookup_insert_eq.
      * destruct (accumulated (i', v') d) as [vs'|].
        -- unfold existingVertices. simpl.
           rewrite lookup_insert_ne; [done|congruence].
        -- rewrite lookup_insert_ne; [done|congruence].
    + by rewrite lookup_insert_ne.
Qed.

(** ** A batch of detector files *)

Lemma addVisitRegions_eq w :
  _addVisitRegions w = forEach (visitRegions (task w)) addVisitRegion w.
Proof. reflexivity. Qed.

(** After [ensureDimensions], [processFile] touches neither the regions nor
    the accumulated vertices. *)
Lemma ingest_keeps_regions config file headers dataId R V :
  preserves
    (λ w, regions (registry w) = R ∧ visitRegions (task w) = V)
    (let* returned := ingestDefault config file headers dataId in
     if (returned : bool) then ret tt
     else resolveConflict config file headers dataId).
Proof.
  apply preserves_bind; [|intros []; [apply preserves_ret|]].
  - apply ingestDefault_preserves.
    + intros i instrument w Hw. exact Hw.
    + intros coll f id transfer formatter w Hw. unfold butler_ingest.
      by repeat case_match.
    + intros w Hw. exact Hw.
    + intros w Hw. exact Hw.
    + intros w w' [HR _] [_ HV]. by split.
  - apply resolveConflict_preserves.
    + intros i instrument w Hw. exact Hw.
    + intros r w Hw. exact Hw.
    + intros r w Hw. exact Hw.
    + intros coll f id transfer formatter w Hw. unfold butler_ingest.
      by repeat case_match.
    + intros f w Hw. exact Hw.
    + intros w Hw. exact Hw.
    + intros w Hw. exact Hw.
    + intros w w' [HR _] [_ HV]. by split.
Qed.

Lemma processFile_regions config file w w1 :
  doAddRegions config = true →
  processFile config file w = (Returned tt, w1) →
  match detectorRegionOf config file with
  | Some t =>
      if bool_decide (is_Some (regions (registry w) !! regionKeyOf t))
      then regions (registry w1) = regions (registry w) ∧
           visitRegions (task w1) = visitRegions (task w)
      else regions (registry w1)
             = <[regionKeyOf t := regionOfWrite t]> (regions (registry w)) ∧
           visitRegions (task w1)
             = extendVisitRegions (visitOf t) (verticesOf t)
                 (visitRegions (task w))
  | None =>
      regions (registry w1) = regions (registry w) ∧
      visitRegions (task w1) = visitRegions (task w)
  end.
Proof.
  intros Hregions Hrun. unfold processFile in Hrun.
  unfold bind at 1 in Hrun.
  destruct (ensureDimensions config file w) as [[r|e] w0] eqn:Hdims; [|done].
  destruct (ensureDimensions_result _ _ _ _ _ Hdims)
    as (header & obsInfo & Hmeta & Htrans & ->).
  destruct (ensureDimensions_returned _ _ _ _ _ Hregions Hdims)
    as (k & region & Hregion & Hk & _ & _ & Hcases & _).
  cbn [fst snd] in *.
  destruct (extractDataId_links obsInfo) as (Hi' & _ & Hd' & Hv' & _).
  pose proof (ingest_keeps_regions config file [header]
                (extractDataId obsInfo) (regions (registry w0))
                (visitRegions (task w0)) w0 (conj eq_refl eq_refl))
    as Hkeep.
  rewrite Hrun in Hkeep. cbn [fst snd] in Hkeep.
  destruct Hkeep as [-> ->].
  unfold detectorRegionOf. rewrite Hmeta, Htrans, Hregion.
  unfold detectorKey in Hk. rewrite Hv' in Hk, Hcases.
  destruct (visit_id obsInfo) as [v|].
  - injection Hk as <-. cbn [regionKeyOf visitOf verticesOf regionOfWrite].
    rewrite <- Hi', <- Hd'.
    destruct (regions (registry w) !! _) as [old|] eqn:Hold.
    + rewrite bool_decide_eq_true_2 by by eexists. done.
    + rewrite bool_decide_eq_false_2 by by intros [??].
      destruct Hcases as (v0 & [= <-] & Hr & Hvs). by rewrite Hi' in Hvs.
  - destruct (regions (registry w) !! k); [done|].
    by destruct Hcases as (v0 & ? & _).
Qed.

Lemma files_regions config files w w1 :
  doAddRegions config = true →
  forEach files (processFile config) w = (Returned tt, w1) →
  NoDup (regionKeyOf <$> written config files) →
  (∀ t, t ∈ written config files →
        regions (registry w) !! regionKeyOf t = None) →
  regions (registry w1)
    = storeRegions (regions (registry w)) (written config files) ∧
  visitRegions (task w1)
    = accumulateAll (visitRegions (task w)) (written config files).
Proof.
  intros Hregions. revert w.
  induction files as [|file files IH]; intros w Hloop Hdistinct Hfresh.
  - simpl in Hloop. unfold ret in Hloop. by simplify_eq.
  - cbn [forEach] in Hloop. unfold bind in Hloop.
    destruct (processFile config file w) as [[[]|e] w0] eqn:Hfile; [|done].
    pose proof (processFile_regions _ _ _ _ Hregions Hfile) as Hcases.
    unfold written in *. cbn [omap list_omap] in *.
    destruct (detectorRegionOf config file) as [t|].
    + rewrite fmap_cons in Hdistinct.
      apply NoDup_cons in Hdistinct as [Hnew Hd].
      rewrite bool_decide_eq_false_2 in Hcases; last first.
      { rewrite (Hfresh t); [by intros []|by left]. }
      destruct Hcases as [Hreg0 Hvis0].
      destruct (IH w0 Hloop Hd) as [Hreg1 Hvis1].
      { intros t' Ht'. rewrite Hreg0, lookup_insert_ne.
        - apply Hfresh. by right.
        - intros Heq. apply Hnew. rewrite Heq. by apply list_elem_of_fmap_2. }
      split.
      * by rewrite Hreg1, Hreg0.
      * by rewrite Hvis1, Hvis0.
    + destruct Hcases as [Hreg0 Hvis0].
      destruct (IH w0 Hloop Hdistinct) as [Hreg1 Hvis1].
      { intros t' Ht'. rewrite Hreg0. by apply Hfresh. }
      split.
      * by rewrite Hreg1, Hreg0.
      * by rewrite Hvis1, Hvis0.
Qed.

Lemma storeRegions_visit R ts i v :
  storeRegions R ts !! VisitRegion i v = R !! VisitRegion i v.
Proof.
  revert R. induction ts as [|[[[i' v'] d'] region] ts IH]; intros R;
    simpl; [done|].
  unfold storeRegions in *. simpl. rewrite IH. by rewrite lookup_insert_ne.
Qed.

Lemma accumulateAll_NoDup d ts : NoDup d.*1 → NoDup (accumulateAll d ts).*1.
Proof.
  revert d. induction ts as [|t ts IH]; intros d Hd; simpl; [done|].
  apply IH. by apply extendVisitRegions_NoDup.
Qed.

Lemma verticesFor_none key ts :
  key ∉ visitOf <$> ts → verticesFor key ts = [].
Proof.
  induction ts as [|t ts IH]; [done|].
  rewrite fmap_cons, not_elem_of_cons. intros [Hne Hout].
  cbn [verticesFor flat_map]. rewrite decide_False by done.
  by apply IH.
Qed.

Lemma accumulated_accumulateAll key d ts :
  accumulated key (accumulateAll d ts) =
    if decide (key ∈ visitOf <$> ts)
    then Some (default [] (accumulated key d) ++ verticesFor key ts)
    else accumulated key d.
Proof.
  revert d. induction ts as [|t ts IH]; intros d.
  - rewrite decide_False; [done|]. apply not_elem_of_nil.
  - cbn [accumulateAll foldl]. fold (accumulateAll
      (extendVisitRegions (visitOf t) (verticesOf t) d) ts).
    rewrite IH, accumulated_extend. rewrite fmap_cons.
    cbn [verticesFor flat_map]. fold (verticesFor key ts).
    destruct (decide (visitOf t = key)) as [Heq|Hne].
    + rewrite (decide_True (P := key ∈ visitOf t :: _))
        by (rewrite Heq; by left).
      destruct (decide (key ∈ visitOf <$> ts)) as [Hin|Hout]; simpl.
      * by rewrite Heq, app_assoc.
      * by rewrite Heq, (verticesFor_none _ _ Hout), app_nil_r.
    + destruct (decide (key ∈ visitOf <$> ts)) as [Hin|Hout].
      * rewrite decide_True by (by right). done.
      * rewrite decide_False; [done|].
        intros [?|?]%elem_of_cons; by simplify_eq.
Qed.

Lemma forEach_catch_returned {X} (xs : list X) (body : X → M unit)
    (handler : X → Exn → M unit) w w1 :
  forEach xs body w = (Returned tt, w1) →
  forEach xs (λ x, catch (body x) (handler x)) w = (Returned tt, w1).
Proof.
  revert w. induction xs as [|x xs IH]; intros w Hloop; [done|].
  cbn [forEach] in *. unfold bind in Hloop.
  destruct (body x w) as [[[]|e] w0] eqn:Hx; [|done].
  erewrite bind_returned by (by apply catch_returned). by apply IH.
Qed.

Lemma addVisitRegions_returns w : (_addVisitRegions w).1 = Returned tt.
Proof.
  rewrite addVisitRegions_eq. generalize (visitRegions (task w)).
  intros d. revert w. induction d as [|[[i v] vs] d IH]; intros w; [done|].
  cbn [forEach].
  rewrite (bind_returned _ _ _ _ _ (addVisitRegion_eq i v vs w)). apply IH.
Qed.

(** When every file of the batch is processed without an exception, [run]
    returns, and its registry is the one the post-pass leaves. *)
Lemma run_all_processed config files w w1 :
  doAddRegions config = true →
  forEach files (processFile config) (loopStart config w)
    = (Returned tt, w1) →
  ∃ w2,
    run config files w = (Returned tt, w2) ∧
    registry w2 = registry (_addVisitRegions w1).2.
Proof.
  intros Hregions Hloop. unfold run, loopStart in *. rewrite Hregions.
  erewrite bind_returned by reflexivity. fold (registered w).
  pose proof (addVisitRegions_returns w1) as Hpost.
  destruct (_addVisitRegions w1) as [o w2] eqn:Hrun. simpl in Hpost.
  subst o.
  destruct (onError config).
  - erewrite bind_returned
      by (apply forEach_catch_returned; exact Hloop).
    rewrite Hrun. by eexists.
  - erewrite bind_returned by exact Hloop. rewrite Hrun. by eexists.
  - erewrite transaction_returned
      by (erewrite bind_returned by exact Hloop; exact Hrun).
    by eexists.
Qed.

Lemma batch_committed config files w w1 :
  doAddRegions config = true →
  visitRegions (task w) = [] →
  NoDup (regionKeyOf <$> written config files) →
  (∀ t, t ∈ written config files →
        regions (registry w) !! regionKeyOf t = None) →
  forEach files (processFile config) (loopStart config w)
    = (Returned tt, w1) →
  ∃ w2,
    run config files w = (Returned tt, w2) ∧
    ∀ i v,
      regions (registry w2) !! VisitRegion i v
        = mergedVisitRegion (regions (registry w)) (written config files)
            (i, v).
Proof.
  intros Hregions Hempty Hdistinct Hfresh Hloop.
  destruct (run_all_processed _ _ _ _ Hregions Hloop) as (w2 & Hrun & Hreg).
  exists w2. split; [exact Hrun|]. intros i v. rewrite Hreg.
  assert (regions (registry (loopStart config w)) = regions (registry w) ∧
          visitRegions (task (loopStart config w)) = visitRegions (task w))
    as [HR0 HV0] by (unfold loopStart; by destruct (onError config)).
  destruct (files_regions _ _ _ _ Hregions Hloop Hdistinct) as [HR1 HV1].
  { intros t Ht. rewrite HR0. by apply Hfresh. }
  rewrite HR0 in HR1. rewrite HV0, Hempty in HV1.
  rewrite addVisitRegions_eq.
  destruct (addVisitRegions_loop (visitRegions (task w1)) w1)
    as (_ & _ & _ & _ & Hcommitted).
  { rewrite HV1. apply accumulateAll_NoDup. constructor. }
  rewrite Hcommitted. unfold committed, mergedVisitRegion.
  rewrite HV1, accumulated_accumulateAll. cbn [accumulated default].
  unfold existingVertices. cbn [fst snd].
  rewrite HR1, !storeRegions_visit.
  by destruct (decide ((i, v) ∈ visitOf <$> written config files)).
Qed.

Lemma verticesFor_Permutation key ts ts' :
  ts ≡ₚ ts' → verticesFor key ts ≡ₚ verticesFor key ts'.
Proof. intros Hp. unfold verticesFor. by rewrite Hp. Qed.

Lemma mergedVisitRegion_Permutation R ts ts' key :
  (∀ l l', l ≡ₚ l' → ConvexPolygon l = ConvexPolygon l') →
  ts ≡ₚ ts' → mergedVisitRegion R ts key = mergedVisitRegion R ts' key.
Proof.
  intros Hhull Hp. unfold mergedVisitRegion.
  destruct (decide (key ∈ visitOf <$> ts)) as [Hin|Hout].
  - rewrite decide_True by (by rewrite <- Hp). f_equal. apply Hhull.
    apply Permutation_app_head. by apply verticesFor_Permutation.
  - rewrite decide_False by (by rewrite <- Hp). done.
Qed.

(** C7, as the code has it.  Take a batch whose files all pass
    [processFile], bring pairwise different detector regions, none of them
    stored yet, on a task that has accumulated nothing so far.  Then [run]
    returns and leaves, for every visit of the batch, the convex polygon of
    the vertices of the visit region held before followed by the vertices of
    all detectors of the visit; where a convex polygon does not depend on the
    order of its points, the same batch in any other order leaves the same
    regions. *)
Theorem visit_regions_merged config files files' w w1 w1' :
  doAddRegions config = true →
  (∀ l l', l ≡ₚ l' → ConvexPolygon l = ConvexPolygon l') →
  visitRegions (task w) = [] →
  NoDup (regionKeyOf <$> written config files) →
  (∀ t, t ∈ written config files →
        regions (registry w) !! regionKeyOf t = None) →
  forEach files (processFile config) (loopStart config w)
    = (Returned tt, w1) →
  files ≡ₚ files' →
  forEach files' (processFile config) (loopStart config w)
    = (Returned tt, w1') →
  ∃ w2 w2',
    run config files w = (Returned tt, w2) ∧
    run config files' w = (Returned tt, w2') ∧
    ∀ i v,
      regions (registry w2) !! VisitRegion i v
        = mergedVisitRegion (regions (registry w)) (written config files)
            (i, v) ∧
      regions (registry w2') !! VisitRegion i v
        = regions (registry w2) !! VisitRegion i v.
Proof.
  intros Hregions Hhull Hempty Hdistinct Hfresh Hloop Hperm Hloop'.
  assert (written config files ≡ₚ written config files') as Hwritten
    by (unfold written; by rewrite Hperm).
  destruct (batch_committed _ _ _ _ Hregions Hempty Hdistinct Hfresh Hloop)
    as (w2 & Hrun & Hmerged).
  destruct (batch_committed config files' w w1' Hregions Hempty)
    as (w2' & Hrun' & Hmerged'); [| |done|].
  { by rewrite <- Hwritten. }
  { intros t Ht. apply Hfresh. by rewrite Hwritten. }
  exists w2, w2'. split; [done|]. split; [done|]. intros i v.
  split; [apply Hmerged|]. rewrite Hmerged, Hmerged'.
  symmetry. by apply mergedVisitRegion_Permutation.
Qed.

(** ** Later runs on the same task *)

Lemma accumulated_elem key vertices d :
  NoDup d.*1 → (key, vertices) ∈ d → accumulated key d = Some vertices.
Proof.
  induction d as [|[k vs] d IH]; intros Hd Hin.
  - by apply elem_of_nil in Hin.
  - rewrite fmap_cons in Hd. apply NoDup_cons in Hd as [Hnew Hd]. simpl.
    apply elem_of_cons in Hin as [Heq|Hin].
    + simplify_eq. by rewrite decide_True.
    + rewrite decide_False; [by apply IH|].
      intros ->. apply Hnew. simpl.
      change key with (fst (key, vertices)). by apply list_elem_of_fmap_2.
Qed.

Lemma run_keysDistinct config files :
  preserves keysDistinct (run config files).
Proof.
  apply run_preserves;
    try (intros; first [assumption | intros w Hw; exact Hw]).
  - intros fullDataId d w Hw. rewrite ensureDimension_eq.
    repeat case_match; exact Hw.
  - intros k region update w Hw. unfold setDimensionRegion.
    case_match; exact Hw.
  - intros key vertices w Hw. by apply extendVisitRegions_NoDup.
  - intros coll file dataId transfer formatter w Hw. unfold butler_ingest.
    repeat case_match; exact Hw.
Qed.

Lemma addVisitRegions_task w : task (_addVisitRegions w).2 = task w.
Proof.
  apply (addVisitRegions_preserves (λ w', task w' = task w)).
  - intros k region update w' Hw'. unfold setDimensionRegion.
    by case_match.
  - intros i v w' Hw'. exact Hw'.
  - reflexivity.
Qed.

(** A call of [run] that returns, with regions added, has ended with the
    post-pass. *)
Lemma run_returned config files w w' :
  doAddRegions config = true →
  run config files w = (Returned tt, w') →
  ∃ w1, task w1 = task w' ∧ registry w' = registry (_addVisitRegions w1).2.
Proof.
  intros Hregions. unfold run. rewrite Hregions.
  erewrite bind_returned by reflexivity.
  destruct (onError config).
  - unfold bind at 1.
    destruct (forEach files _ _) as [[[]|e] w1]; [|done].
    intros Hpost. exists w1.
    pose proof (addVisitRegions_task w1) as Htask.
    rewrite Hpost in Htask |- *. simpl in *. by split.
  - unfold bind at 1.
    destruct (forEach files _ _) as [[[]|e] w1]; [|done].
    intros Hpost. exists w1.
    pose proof (addVisitRegions_task w1) as Htask.
    rewrite Hpost in Htask |- *. simpl in *. by split.
  - unfold transaction, bind.
    destruct (forEach files _ _) as [[[]|e] w1]; [|done].
    pose proof (addVisitRegions_task w1) as Htask.
    destruct (_addVisitRegions w1) as [[[]|e] w2] eqn:Hpost; [|done].
    intros Hrun. simplify_eq. exists w1. rewrite Hpost. simpl in *.
    by split.
Qed.

(** C9, as the code has it.  The map of accumulated vertices belongs to the
    task, not to one call of [run]: it is empty when the task is
    constructed, and whatever a key has accumulated before a call of [run]
    is still there after it, with the vertices of this call behind it.  So
    the post-pass of a later call merges the vertices of earlier calls again
    and commits a region built from them again. *)
Theorem visitRegions_outlive_run config files w key vertices :
  visitRegions (init config) = [] ∧
  ((key, vertices) ∈ visitRegions (task w) →
   ∃ more,
     (key, vertices ++ more) ∈ visitRegions (task (run config files w).2)) ∧
  ((key, vertices) ∈ visitRegions (task w) →
   NoDup (visitRegions (task w)).*1 →
   doAddRegions config = true →
   (run config files w).1 = Returned tt →
   ∃ old more,
     regions (registry (run config files w).2) !! VisitRegion key.1 key.2
       = Some (ConvexPolygon (old ++ vertices ++ more))).
Proof.
  split; [reflexivity|].
  assert ((key, vertices) ∈ visitRegions (task w) →
          accumulatedStill key vertices (run config files w).2) as Hstill.
  { intros Hin. apply (run_accumulatedStill config files key vertices w).
    exists []. by rewrite app_nil_r. }
  split; [exact Hstill|].
  intros Hin Hdistinct Hregions Hreturned.
  destruct (Hstill Hin) as [more Hmore].
  pose proof (run_keysDistinct config files w Hdistinct) as Hdistinct'.
  destruct (run config files w) as [o w'] eqn:Hrun. simpl in *. subst o.
  destruct (run_returned _ _ _ _ Hregions Hrun) as (w1 & Htask & Hreg).
  unfold keysDistinct in Hdistinct'. rewrite <- Htask in Hmore, Hdistinct'.
  destruct (addVisitRegions_loop (visitRegions (task w1)) w1 Hdistinct')
    as (_ & _ & _ & _ & Hcommitted).
  rewrite addVisitRegions_eq in Hreg. rewrite Hreg, Hcommitted.
  destruct key as [i v]. unfold committed. cbn [fst snd].
  rewrite (accumulated_elem _ _ _ Hdistinct' Hmore).
  by eexists _, _.
Qed.

End Properties.

(** * Further properties of the driver *)

Section Further.
Context `{Geometry}.

(** ** The datasets a file adds *)

Lemma ingestFile_datasets config file headers dataId run w :
  match (ingestFile config file headers dataId run w).1 with
  | Raised _ =>
      registry (ingestFile config file headers dataId run w).2 = registry w
  | Returned key =>
      key = (destination w run, datasetId dataId) ∧
      datasets (registry w) !! key = None ∧
      datasets (registry (ingestFile config file headers dataId run w).2)
        = <[key := path file]> (datasets (registry w))
  end.
Proof.
  rewrite ingestFile_eq. cbv zeta.
  destruct (instrumentOf w _) as [instrument|e]; [|done].
  pose proof (withInstrument_frame (dataId_instrument dataId) instrument w)
    as (Hr & _).
  destruct (getRawFormatter instrument dataId); [|done].
  destruct (datasets (registry w) !! _) eqn:Hfree; [done|].
  destruct (datastoreIngest file _ _); simpl; [|done].
  by rewrite Hr.
Qed.

Lemma ingestDefault_datasets config file headers dataId w :
  match (ingestDefault config file headers dataId w).1 with
  | Raised _ | Returned false =>
      registry (ingestDefault config file headers dataId w).2 = registry w
  | Returned true =>
      ∃ key,
        key.2 = datasetId dataId ∧
        datasets (registry w) !! key = None ∧
        datasets (registry (ingestDefault config file headers dataId w).2)
          = <[key := path file]> (datasets (registry w))
  end.
Proof.
  rewrite ingestDefault_eq.
  pose proof (ingestFile_datasets config file headers dataId None
                (record TransactionBegin w)) as Hf.
  destruct (ingestFile _ _ _ _ _ _) as [[key|e] w']; simpl in *.
  - exists key. by destruct Hf as (-> & ? & ?).
  - destruct (isIngestConflictError e), (conflict config); simpl; done.
Qed.

Lemma resolveConflict_datasets config file headers dataId w :
  match (resolveConflict config file headers dataId w).1 with
  | Raised _ =>
      datasets (registry (resolveConflict config file headers dataId w).2)
        = datasets (registry w)
  | Returned _ =>
      datasets (registry (resolveConflict config file headers dataId w).2)
        = datasets (registry w) ∨
      ∃ key,
        key.2 = datasetId dataId ∧
        datasets (registry w) !! key = None ∧
        datasets (registry (resolveConflict config file headers dataId w).2)
          = <[key := path file]> (datasets (registry w))
  end.
Proof.
  rewrite resolveConflict_eq. cbv zeta.
  destruct (conflict config); [|simpl; by left].
  destruct (stashRun (task w)) as [r|]; [|simpl; by left].
  pose proof (ingestFile_datasets config file headers dataId
                (Some (stashReady r w).1)
                (record TransactionBegin
                   (record (LogInfo (path file)) (stashReady r w).2)))
    as Hf.
  assert (datasets (registry (stashReady r w).2) = datasets (registry w))
    as Hd.
  { unfold stashReady. by destruct (run_id r). }
  destruct (ingestFile _ _ _ _ _ _) as [[key|e] w']; simpl in *.
  - right. exists key. rewrite <- Hd. by destruct Hf as (-> & ? & ?).
  - done.
Qed.

(** What [processFile] does to the datasets. *)
Lemma processFile_datasets config file w :
  match (processFile config file w).1 with
  | Raised _ =>
      datasets (registry (processFile config file w).2)
        = datasets (registry w)
  | Returned _ =>
      datasets (registry (processFile config file w).2)
        = datasets (registry w) ∨
      ∃ coll header obsInfo,
        metadata file = Returned header ∧
        translated header = Returned obsInfo ∧
        datasets (registry w)
          !! (coll, datasetId (extractDataId obsInfo)) = None ∧
        datasets (registry (processFile config file w).2)
          = <[(coll, datasetId (extractDataId obsInfo)) := path file]>
              (datasets (registry w))
  end.
Proof.
  rewrite processFile_eq.
  pose proof (ensureDimensions_sameButler config file w)
    as (_ & _ & _ & _ & _ & Hd & _).
  destruct (ensureDimensions config file w) as [[[headers dataId]|e] w1]
    eqn:Hens; [|done].
  destruct (ensureDimensions_result _ _ _ _ _ Hens)
    as (header & obsInfo & Hmeta & Htrans & [= -> ->]).
  simpl in Hd.
  pose proof (ingestDefault_datasets config file [header]
                (extractDataId obsInfo) w1) as Hi.
  destruct (ingestDefault _ _ _ _ _) as [[[]|e] w2]; simpl in *.
  - right. destruct Hi as ([coll id] & Hid & Hfree & Hi). simpl in Hid.
    subst id. exists coll, header, obsInfo. by rewrite <- Hd.
  - pose proof (resolveConflict_datasets config file [header]
                  (extractDataId obsInfo) w2) as Hr.
    destruct (resolveConflict _ _ _ _ _) as [[[]|e] w3]; simpl in *.
    + destruct Hr as [Hr | ([coll id] & Hid & Hfree & Hr)].
      * left. by rewrite Hr, Hi.
      * right. simpl in Hid. subst id. exists coll, header, obsInfo.
        by rewrite <- Hd, <- Hi.
    + by rewrite Hr, Hi.
  - by rewrite Hi.
Qed.

(** X1.  [processFile] adds at most one dataset, of the identity extracted
    from the file and bound to the file's path, under a key that was free;
    when it raises it adds none. *)
Theorem processFile_one_dataset config file w :
  match (processFile config file w).1 with
  | Raised _ =>
      datasets (registry (processFile config file w).2)
        = datasets (registry w)
  | Returned _ =>
      datasets (registry (processFile config file w).2)
        = datasets (registry w) ∨
      ∃ coll header obsInfo,
        metadata file = Returned header ∧
        translated header = Returned obsInfo ∧
        datasets (registry w)
          !! (coll, datasetId (extractDataId obsInfo)) = None ∧
        datasets (registry (processFile config file w).2)
          = <[(coll, datasetId (extractDataId obsInfo)) := path file]>
              (datasets (registry w))
  end.
Proof. apply processFile_datasets. Qed.

(** ** The three error policies of [run] *)

(** [run] from the world in which the dataset type is registered. *)
Lemma run_eq config files w :
  run config files w =
    match onError config with
    | onError_rollback =>
        transaction
          (let* _ := forEach files (processFile config) in
           if doAddRegions config then _addVisitRegions else ret tt)
          (registered w)
    | onError_break =>
        (let* _ := forEach files (processFile config) in
         if doAddRegions config then _addVisitRegions else ret tt)
          (registered w)
    | onError_continue =>
        (let* _ :=
           forEach files (λ file,
             catch (processFile config file) (λ err, log_warn file)) in
         if doAddRegions config then _addVisitRegions else ret tt)
          (registered w)
    end.
Proof. unfold run. by destruct (onError config). Qed.

Lemma forEach_guarded {X} (xs : list X) (body : X → M unit)
    (handler : X → Exn → M unit) w :
  (∀ x e w, (handler x e w).1 = Returned tt) →
  (forEach xs (λ x, catch (body x) (handler x)) w).1 = Returned tt.
Proof.
  intros Hh. revert w. induction xs as [|x xs IH]; intros w; [done|].
  simpl. unfold bind, catch.
  destruct (body x w) as [[[]|e] w1]; [apply IH|].
  specialize (Hh x e w1).
  destruct (handler x e w1) as [[[]|e'] w2]; simpl in *; [apply IH|done].
Qed.

(** X2.  Under [continue] no failure of a file leaves [run]: the call
    returns whatever the files are. *)
Theorem run_continue_returns config files w :
  onError config = onError_continue →
  (run config files w).1 = Returned tt.
Proof.
  intros Hpolicy. unfold run. rewrite Hpolicy.
  unfold bind at 1. unfold registerDatasetType at 1, modify at 1.
  unfold bind.
  match goal with
  | |- context [forEach files ?body ?w0] =>
      pose proof (forEach_guarded files (processFile config)
                    (λ file err, log_warn file) w0 (λ _ _ _, eq_refl)) as Hloop;
      destruct (forEach files body w0) as [[[]|e] w1]
  end; simpl in Hloop; [|done].
  destruct (doAddRegions config); [apply addVisitRegions_returns | done].
Qed.

(** X3.  Under [break] the first file that fails ends [run] with its
    exception, in the very world the failure left: the files after it are
    not processed, the post-pass is not reached, nothing is undone, and the
    datasets ingested before are all there. *)
Theorem run_break_stops config pre file post w w1 w2 e :
  onError config = onError_break →
  forEach pre (processFile config) (registered w) = (Returned tt, w1) →
  processFile config file w1 = (Raised e, w2) →
  run config (pre ++ file :: post) w = (Raised e, w2) ∧
  datasets (registry w2) = datasets (registry w1).
Proof.
  intros Hpolicy Hpre Hfile. split.
  - unfold run. rewrite Hpolicy.
    unfold bind at 1. unfold registerDatasetType at 1, modify at 1.
    fold (registerDatasetType "raw"). 
    change ((registerDatasetType "raw" w).2) with (registered w).
    by rewrite (bind_raised _ _ _ _ _
                  (forEach_raised pre post file _ _ _ _ _ Hpre Hfile)).
  - pose proof (processFile_datasets config file w1) as Hd.
    by rewrite Hfile in Hd.
Qed.

(** ** What [run] keeps *)

Lemma registryKept_refl r : registryKept r r.
Proof. by repeat split. Qed.

Lemma registryKept_trans r1 r2 r3 :
  registryKept r1 r2 → registryKept r2 r3 → registryKept r1 r3.
Proof.
  intros (? & ? & ? & ? & ?) (? & ? & ? & ? & ?).
  repeat split; try (etrans; eassumption). auto.
Qed.

Lemma registryKept_step {A} (m : M A) r0 :
  (∀ w, registryKept (registry w) (registry (m w).2)) →
  preserves (λ w, registryKept r0 (registry w)) m.
Proof. intros Hm w Hw. eapply registryKept_trans; [exact Hw | apply Hm]. Qed.

Lemma run_registryKept config files r0 :
  preserves (λ w, registryKept r0 (registry w)) (run config files).
Proof.
  apply run_preserves;
    try (intros; first [assumption | intros w Hw; exact Hw]).
  - intros t. apply registryKept_step. intros w.
    repeat split; simpl; try done. set_solver.
  - intros fullDataId d. apply registryKept_step. intros w.
    rewrite ensureDimension_eq.
    repeat case_match; repeat split; simpl; try done. set_solver.
  - intros k region update. apply registryKept_step. intros w.
    unfold setDimensionRegion.
    case_match; repeat split; simpl; try done.
    intros k' Hk'. rewrite lookup_insert_is_Some.
    destruct (decide (k = k')); auto.
  - intros r. apply registryKept_step. intros w.
    repeat split; simpl; try done. set_solver.
  - intros coll file dataId transfer formatter.
    apply registryKept_step. intros w. unfold butler_ingest.
    destruct (datasets (registry w) !! _) eqn:Hfree;
      [|destruct (datastoreIngest file transfer formatter)];
      repeat split; simpl; try done.
    by apply insert_subseteq.
Qed.

(** X4.  [run] removes nothing from the registry, whatever it returns or
    raises and whatever the policy: every dataset type, dimension entry and
    run is still there, every dataset is still bound to the same file, and
    every identity that had a region still has one. *)
Theorem run_keeps_registry config files w :
  registryKept (registry w) (registry (run config files w).2).
Proof. apply run_registryKept, registryKept_refl. Qed.

(** ** Regions of detectors are written once *)

Lemma ensureDimensions_cases config file w :
  (∃ e, ensureDimensions config file w = (Raised e, w)) ∨
  (∃ header obsInfo,
     metadata file = Returned header ∧ translated header = Returned obsInfo).
Proof.
  destruct (metadata file) as [header|e] eqn:Hmeta.
  - destruct (translated header) as [obsInfo|e] eqn:Htrans.
    + right. by exists header, obsInfo.
    + left. apply ensureDimensions_unread. intros ?? Hm. congruence.
  - left. apply ensureDimensions_unread. intros ?? Hm. congruence.
Qed.

Lemma ensureDimensions_keeps_region config file k region :
  preserves (λ w, regions (registry w) !! k = Some region)
    (ensureDimensions config file).
Proof.
  intros w Hw.
  destruct (ensureDimensions_cases config file w)
    as [[e ->] | (header & obsInfo & Hmeta & Htrans)]; [done|].
  rewrite (ensureDimensions_eq _ _ _ _ _ Hmeta Htrans).
  destruct (loop_regions (extractDataId obsInfo) (selfDimensions w) w) as [HR _].
  destruct (forEach (selfDimensions w) _ w) as [[[]|e] w1]; simpl in *;
    [|by rewrite HR].
  assert (regions (registry w1) !! k = Some region) as Hw1
    by by rewrite HR.
  destruct (doAddRegions config); [|done].
  rewrite addDetectorRegion_eq. unfold regionWritten, accumulate, modify.
  repeat case_match; simplify_eq/=; try done.
  all: rewrite lookup_insert_ne; [done|].
  all: intros <-.
  all: match goal with
       | Hn : bool_decide _ = false |- _ =>
           apply bool_decide_eq_false in Hn; apply Hn; by eexists
       end.
Qed.

Lemma addVisitRegions_keeps_detector i v d region :
  preserves (λ w, regions (registry w) !! DetectorRegion i v d = Some region)
    _addVisitRegions.
Proof.
  unfold _addVisitRegions. apply preserves_bind; [apply preserves_get|].
  intros w0. apply preserves_forEach. intros [[i' v'] vertices] _ w Hw.
  rewrite addVisitRegion_eq. simpl. by rewrite lookup_insert_ne.
Qed.

Lemma run_keeps_detector_region config files i v d region :
  preserves (λ w, regions (registry w) !! DetectorRegion i v d = Some region)
    (run config files).
Proof.
  apply run_keeps;
    try (intros; first [assumption | intros w Hw; exact Hw]).
  - intros c f. apply ensureDimensions_keeps_region.
  - apply addVisitRegions_keeps_detector.
  - intros c f headers dataId r. apply ingestFile_preserves.
    + intros i' instrument w Hw. exact Hw.
    + intros coll file dataId' transfer formatter w Hw. unfold butler_ingest. by repeat case_match.
  - intros c f headers dataId. apply resolveConflict_preserves;
      try (intros; first [assumption | intros w Hw; exact Hw]).
    intros coll file dataId' transfer formatter w Hw. unfold butler_ingest. by repeat case_match.
Qed.

(** X5.  A detector region the registry holds is never replaced: after any
    call of [run] it is still the one that was stored. *)
Theorem detector_region_kept config files w i v d region :
  regions (registry w) !! DetectorRegion i v d = Some region →
  regions (registry (run config files w).2) !! DetectorRegion i v d
    = Some region.
Proof. apply run_keeps_detector_region. Qed.

(** ** A missing prerequisite *)

Lemma turn_prerequisite fullDataId d w o w' evs :
  turn fullDataId d w o w' evs → prerequisite d →
  registry w' = registry w ∧
  visitRegions (task w') = visitRegions (task w) ∧
  Forall lookupEvent evs.
Proof.
  destruct 1; intros Hpre; try done; repeat split; by repeat constructor.
Qed.

Lemma turn_dimension fullDataId d w o w' evs k b :
  turn fullDataId d w o w' evs → FindDimensionEntry k b ∈ evs →
  dimensionOf k = d.
Proof.
  destruct 1; intros Hk;
    repeat (apply elem_of_cons in Hk as [Hk|Hk]; simplify_eq);
    try (by apply elem_of_nil in Hk);
    by eapply loopDataId_dimensionOf.
Qed.

(** The turns of the prerequisites only read the registry. *)
Lemma loop_prerequisites fullDataId ds w o w' :
  Forall prerequisite ds →
  forEach ds (ensureDimension fullDataId) w = (o, w') →
  registry w' = registry w ∧
  visitRegions (task w') = visitRegions (task w) ∧
  ∃ evs, history w' = history w ++ evs ∧ Forall lookupEvent evs.
Proof.
  intros Hds. revert w.
  induction Hds as [|d ds Hd Hds IH]; intros w Hloop; simpl in Hloop.
  - unfold ret in Hloop. simplify_eq. repeat split; try done.
    exists []. by rewrite app_nil_r.
  - unfold bind in Hloop.
    destruct (ensureDimension_turn fullDataId d w) as [evs1 Hturn].
    destruct (ensureDimension fullDataId d w) as [o1 w1]. simpl in Hturn.
    destruct (turn_prerequisite _ _ _ _ _ _ Hturn Hd) as (Hr1 & Hv1 & Hl1).
    pose proof (turn_frame _ _ _ _ _ _ Hturn) as (Hh1 & _).
    destruct o1 as [[]|e1].
    + destruct (IH _ Hloop) as (Hr2 & Hv2 & evs2 & Hh2 & Hl2).
      split; [congruence|]. split; [congruence|].
      exists (evs1 ++ evs2). split; [by rewrite Hh2, Hh1, app_assoc|].
      by apply Forall_app.
    + simplify_eq. repeat split; try done. by exists evs1.
Qed.

(** The lookups of a loop are about the dimensions it runs over. *)
Lemma loop_dimensions fullDataId ds w o w' evs k b :
  forEach ds (ensureDimension fullDataId) w = (o, w') →
  history w' = history w ++ evs →
  FindDimensionEntry k b ∈ evs → dimensionOf k ∈ ds.
Proof.
  revert w evs. induction ds as [|d ds IH]; intros w evs Hloop Hh Hk;
    simpl in Hloop.
  - unfold ret in Hloop. simplify_eq.
    rewrite <- (app_nil_r (history w')) in Hh at 1.
    apply app_inv_head in Hh. subst. by apply elem_of_nil in Hk.
  - unfold bind in Hloop.
    destruct (ensureDimension_turn fullDataId d w) as [evs1 Hturn].
    destruct (ensureDimension fullDataId d w) as [o1 w1]. simpl in Hturn.
    pose proof (turn_frame _ _ _ _ _ _ Hturn) as (Hh1 & _).
    destruct o1 as [[]|e1].
    + destruct (loop_absent _ _ _ _ _ Hloop) as (evs2 & Hh2 & _).
      rewrite Hh2, Hh1, <- app_assoc in Hh. apply app_inv_head in Hh.
      subst evs. apply elem_of_app in Hk as [Hk|Hk].
      * apply elem_of_cons. left. by eapply turn_dimension.
      * apply elem_of_cons. right. by eapply IH.
    + simplify_eq. rewrite Hh1 in Hh. apply app_inv_head in Hh. subst.
      apply elem_of_cons. left. by eapply turn_dimension.
Qed.

Lemma missing_prerequisite config file w o w' evs k :
  prerequisitesFirst (selfDimensions w) →
  ensureDimensions config file w = (o, w') →
  history w' = history w ++ evs →
  FindDimensionEntry k false ∈ evs →
  prerequisite (dimensionOf k) →
  o = Raised (LookupError (Some k)) ∧
  registry w' = registry w ∧
  visitRegions (task w') = visitRegions (task w) ∧
  Forall lookupEvent evs.
Proof.
  intros (before & after & Horder & Hpres & Hposts) Hrun Hhist Hfind Hpre.
  destruct (ensureDimensions_cases config file w)
    as [[e He] | (header & obsInfo & Hmeta & Htrans)].
  { rewrite He in Hrun. simplify_eq.
    rewrite <- (app_nil_r (history w')) in Hhist at 1.
    apply app_inv_head in Hhist. subst. by apply elem_of_nil in Hfind. }
  rewrite (ensureDimensions_eq _ _ _ _ _ Hmeta Htrans), Horder in Hrun.
  rewrite forEach_app in Hrun.
  destruct (forEach before _ w) as [o1 w1] eqn:Hloop1.
  destruct (loop_prerequisites _ _ _ _ _ Hpres Hloop1)
    as (Hr1 & Hv1 & evs1 & Hh1 & Hl1).
  destruct (loop_absent _ _ _ _ _ Hloop1) as (evs1' & Hh1' & _ & _ & _ & _ & Hf1).
  assert (evs1' = evs1) as ->
    by (rewrite Hh1 in Hh1'; by apply app_inv_head in Hh1').
  destruct o1 as [[]|e1].
  - exfalso.
    destruct (forEach after _ w1) as [o2 w2] eqn:Hloop2.
    destruct (loop_absent _ _ _ _ _ Hloop2) as (evs2 & Hh2 & _).
    assert (∃ evs3, evs = evs1 ++ evs2 ++ evs3 ∧ Forall regionEvent evs3)
      as (evs3 & -> & Hl3).
    { destruct o2 as [[]|e2].
      - destruct (doAddRegions config).
        + destruct (addDetectorRegion_frame config [header]
                      (extractDataId obsInfo) w2) as (evs3 & Hh3 & Hl3 & _).
          exists evs3. split; [|done].
          assert (w' = (addDetectorRegion config [header]
                          (extractDataId obsInfo) w2).2) as ->.
          { destruct (addDetectorRegion _ _ _ w2) as [[[]|e3] w3];
              by simplify_eq. }
          rewrite Hh3, Hh2, Hh1, <- !app_assoc in Hhist.
          by apply app_inv_head in Hhist.
        + exists []. split; [|done]. simplify_eq.
          rewrite Hh2, Hh1, <- !app_assoc in Hhist.
          apply app_inv_head in Hhist. by rewrite app_nil_r.
      - exists []. split; [|done]. simplify_eq.
        rewrite Hh2, Hh1, <- !app_assoc in Hhist.
        apply app_inv_head in Hhist. by rewrite app_nil_r. }
    apply elem_of_app in Hfind as [Hfind|Hfind].
    { specialize (Hf1 _ Hfind). rewrite bool_decide_eq_true_2 in Hf1 by done.
      by destruct Hf1. }
    apply elem_of_app in Hfind as [Hfind|Hfind].
    { pose proof (loop_dimensions _ _ _ _ _ _ _ _ Hloop2 Hh2 Hfind) as Hd.
      rewrite Forall_forall in Hposts. by apply (Hposts _ Hd). }
    rewrite Forall_forall in Hl3. by apply Hl3 in Hfind.
  - simplify_eq. rewrite Hh1 in Hhist. apply app_inv_head in Hhist. subst evs.
    specialize (Hf1 _ Hfind). rewrite bool_decide_eq_true_2 in Hf1 by done.
    destruct Hf1 as [Ho _]. by simplify_eq.
Qed.

(** X6.  A file with a missing prerequisite changes nothing, where the
    universe iterates the instrument, the detector and the physical filter
    before the visit and the exposure: when a lookup of [ensureDimensions]
    finds no instrument, detector or physical filter, the call raises the
    [LookupError] of that entry after lookups only, so the registry is as it
    was, and [processFile] raises the same without a transaction having been
    opened. *)
Theorem missing_prerequisite_changes_nothing config file w o w' evs k :
  prerequisitesFirst (selfDimensions w) →
  ensureDimensions config file w = (o, w') →
  history w' = history w ++ evs →
  FindDimensionEntry k false ∈ evs →
  prerequisite (dimensionOf k) →
  registry w' = registry w ∧
  visitRegions (task w') = visitRegions (task w) ∧
  Forall lookupEvent evs ∧
  processFile config file w = (Raised (LookupError (Some k)), w').
Proof.
  intros Horder Hrun Hhist Hfind Hpre.
  destruct (missing_prerequisite _ _ _ _ _ _ _ Horder Hrun Hhist Hfind Hpre)
    as (-> & Hr & Hv & Hl).
  repeat split; try done.
  unfold processFile. by rewrite (bind_raised _ _ _ _ _ Hrun).
Qed.

(** ** The cache and the registry *)

Lemma ensureDimensions_cacheHolds config file :
  preserves cacheHolds (ensureDimensions config file).
Proof.
  apply ensureDimensions_preserves.
  - intros fullDataId d w Hw. rewrite ensureDimension_eq.
    destruct (loopDataId _ fullDataId d) as [k|]; [|done].
    repeat case_bool_decide; try done.
    + intros d' k'. rewrite entriesDone_markDone. simpl.
      case_decide; [|apply Hw]. subst d'.
      rewrite elem_of_union, elem_of_singleton. intros [->|Hk']; [done|].
      by apply (Hw d).
    + intros d' k'. rewrite entriesDone_markDone. simpl.
      rewrite (elem_of_union _ (dimensionEntries _)), elem_of_singleton.
      case_decide; [|right; by apply (Hw d')]. subst d'.
      rewrite elem_of_union, elem_of_singleton. intros [->|Hk']; [by left|].
      right. by apply (Hw d).
  - intros k region update w Hw. unfold setDimensionRegion.
    by case_match.
  - intros key vertices w Hw. exact Hw.
Qed.

(** X7.  When the cache tells the truth and [ensureDimensions] returns, every
    dimension entry the identity of the file names is in the registry, which
    is what [ingestFile] requires; and the cache still tells the truth. *)
Theorem ensureDimensions_entries_present config file w r w' :
  cacheHolds w →
  ensureDimensions config file w = (Returned r, w') →
  cacheHolds w' ∧
  ∀ d k, dimensionDataId r.2 d = Some k → k ∈ dimensionEntries (registry w').
Proof.
  intros Hw Hrun.
  assert (cacheHolds w') as Hw'.
  { pose proof (ensureDimensions_cacheHolds config file w Hw) as Hc.
    by rewrite Hrun in Hc. }
  split; [done|]. intros d k Hk.
  pose proof (ensureDimensions_settles _ _ _ _ _ Hrun d) as Hs.
  unfold settled in Hs. rewrite (loopDataId_linked _ _ _ _ Hk) in Hs.
  by apply (Hw' d).
Qed.

(** The ingest of a file touches neither the dimension entries, nor the
    regions, nor the caches of entries and vertices. *)
Lemma ingest_sameEntries config file headers dataId w0 :
  preserves (sameEntries w0)
    (let* returned := ingestDefault config file headers dataId in
     if (returned : bool) then ret tt
     else resolveConflict config file headers dataId).
Proof.
  apply preserves_bind; [|intros []; [apply preserves_ret|]].
  - apply ingestDefault_preserves.
    + intros i instrument w Hw. exact Hw.
    + intros coll f id transfer formatter w Hw. unfold butler_ingest.
      by repeat case_match.
    + intros w Hw. exact Hw.
    + intros w Hw. exact Hw.
    + intros w w' (_ & _ & HE & HR & _) (HD & HV & _ & _ & [Hu Hl] & Hb & Hf).
      by repeat split.
  - apply resolveConflict_preserves.
    + intros i instrument w Hw. exact Hw.
    + intros r w Hw. exact Hw.
    + intros r w Hw. exact Hw.
    + intros coll f id transfer formatter w Hw. unfold butler_ingest.
      by repeat case_match.
    + intros f w Hw. exact Hw.
    + intros w Hw. exact Hw.
    + intros w Hw. exact Hw.
    + intros w w' (_ & _ & HE & HR & _) (HD & HV & _ & _ & [Hu Hl] & Hb & Hf).
      by repeat split.
Qed.

Lemma sameEntries_refl w : sameEntries w w.
Proof. by repeat split. Qed.

Lemma sameEntries_cacheHolds w w' :
  sameEntries w w' → cacheHolds w → cacheHolds w'.
Proof.
  intros (HD & _ & HE & _) Hw d k. unfold entriesDone.
  rewrite HD, HE. apply Hw.
Qed.

Lemma processFile_cacheHolds config file :
  preserves cacheHolds (processFile config file).
Proof.
  unfold processFile. apply preserves_bind.
  - apply ensureDimensions_cacheHolds.
  - intros [headers dataId] w Hw.
    eapply sameEntries_cacheHolds; [|exact Hw].
    apply (ingest_sameEntries config file headers dataId w w),
      sameEntries_refl.
Qed.

Lemma addVisitRegions_cacheHolds : preserves cacheHolds _addVisitRegions.
Proof.
  apply addVisitRegions_preserves.
  - intros k region update w Hw. unfold setDimensionRegion. by case_match.
  - intros i v w Hw. exact Hw.
Qed.

(** X8.  Without the outer transaction the cache keeps telling the truth:
    under [break] and [continue], if every entry marked in the cache is in
    the registry before [run], then so it is after, whatever [run] returned
    or raised. *)
Theorem run_cacheHolds config files w :
  onError config ≠ onError_rollback →
  cacheHolds w → cacheHolds (run config files w).2.
Proof.
  intros Hpolicy. revert w. fold (preserves cacheHolds (run config files)).
  unfold run. apply preserves_bind; [by intros w Hw|]. intros _.
  destruct (onError config); [| |done].
  - apply preserves_bind.
    + apply preserves_forEach. intros file _. apply preserves_catch.
      * apply processFile_cacheHolds.
      * intros e w Hw. exact Hw.
    + intros _. destruct (doAddRegions config);
        [apply addVisitRegions_cacheHolds | apply preserves_ret].
  - apply preserves_bind.
    + apply preserves_forEach. intros file _. apply processFile_cacheHolds.
    + intros _. destruct (doAddRegions config);
        [apply addVisitRegions_cacheHolds | apply preserves_ret].
Qed.

(** ** What a rollback does not undo *)

(** A step that inserts no entry and leaves the entries and their cache
    alone keeps [insertedSince]. *)
Lemma insertedSince_quiet h0 E0 w w' evs :
  history w' = history w ++ evs →
  (∀ k, AddDimensionEntry k ∉ evs) →
  dimensionEntries (registry w') = dimensionEntries (registry w) →
  dimensionEntriesDone (task w') = dimensionEntriesDone (task w) →
  insertedSince h0 E0 w → insertedSince h0 E0 w'.
Proof.
  intros Hh Hq HE HD (Hsub & evs0 & Hh0 & Hins). split; [by rewrite HE|].
  exists (evs0 ++ evs). split; [by rewrite Hh, Hh0, app_assoc|].
  intros k Hk. apply elem_of_app in Hk as [Hk|Hk]; [|by apply Hq in Hk].
  unfold entriesDone. rewrite HD. by apply Hins.
Qed.

Ltac quiet w ev :=
  apply (insertedSince_quiet _ _ w _ [ev]);
    [reflexivity
    |intros ? Hquiet; apply list_elem_of_singleton in Hquiet; discriminate
    |reflexivity | reflexivity | assumption].

Ltac silent w :=
  apply (insertedSince_quiet _ _ w _ []);
    [simpl; by rewrite app_nil_r
    |intros ? Hquiet; by apply elem_of_nil in Hquiet
    |reflexivity | reflexivity | assumption].

Lemma run_insertedSince h0 E0 config files :
  preserves (insertedSince h0 E0) (run config files).
Proof.
  apply run_preserves.
  - intros t w Hw. quiet w (RegisterDatasetType t).
  - intros fullDataId d w Hw.
    destruct (ensureDimension_turn fullDataId d w) as [evs Hturn].
    destruct (ensureDimension fullDataId d w) as [o w']. simpl in *.
    destruct Hw as (Hsub & evs0 & Hh0 & Hins).
    pose proof (turn_frame _ _ _ _ _ _ Hturn) as (Hh & _ & HE & HD).
    split; [by etrans|].
    exists (evs0 ++ evs). split; [by rewrite Hh, Hh0, app_assoc|].
    intros k Hk. apply elem_of_app in Hk as [Hk|Hk].
    { destruct (Hins k Hk). split; [done|]. by apply HD. }
    inversion Hturn; subst;
      repeat (apply elem_of_cons in Hk as [Hk|Hk]; simplify_eq);
      try (by apply elem_of_nil in Hk).
    split; [set_solver|].
    erewrite loopDataId_dimensionOf by done.
    rewrite entriesDone_markDone. rewrite decide_True by done. set_solver.
  - intros k region update w Hw. unfold setDimensionRegion.
    case_match.
    + quiet w (SetDimensionRegion k update false).
    + quiet w (SetDimensionRegion k update true).
  - intros i v w Hw. quiet w (ExpandDataId (VisitRegion i v)).
  - intros key vertices w Hw. silent w.
  - intros i instrument w Hw. silent w.
  - intros r w Hw. quiet w (EnsureRun (collection r)).
  - intros r w Hw. silent w.
  - intros coll file dataId transfer formatter w Hw. unfold butler_ingest.
    repeat case_match.
    + quiet w (Ingest coll (path file) (datasetId dataId) false).
    + quiet w (Ingest coll (path file) (datasetId dataId) true).
    + quiet w (Ingest coll (path file) (datasetId dataId) false).
  - intros file w Hw. quiet w (LogInfo (path file)).
  - intros file w Hw. quiet w (LogWarn (path file)).
  - intros w Hw. quiet w TransactionBegin.
  - intros w Hw. quiet w TransactionCommit.
  - intros w w' (Hsub & _) (_ & evs & Hh & Hins). split; [done|].
    exists (evs ++ [TransactionRollback]).
    split; [simpl; by rewrite Hh, app_assoc|].
    intros k Hk. apply elem_of_app in Hk as [Hk|Hk]; [by apply Hins|].
    by apply list_elem_of_singleton in Hk.
Qed.

(** A raised [run] under [rollback] leaves the registry of the moment the
    transaction was opened. *)
Lemma run_rollback_registry config files w e w' :
  onError config = onError_rollback →
  run config files w = (Raised e, w') →
  registry w' = registry (registered w).
Proof.
  intros Hpolicy. unfold run. rewrite Hpolicy.
  unfold bind at 1. unfold registerDatasetType at 1, modify at 1.
  fold (registerDatasetType "raw").
  change ((registerDatasetType "raw" w).2) with (registered w).
  unfold transaction.
  destruct (bind _ _ _) as [[[]|e'] w1]; [done|].
  intros [= <- <-]. reflexivity.
Qed.

(** X9.  The rollback of [run] does not reach the cache.  When [run] raises
    under [rollback], every entry it had inserted is gone from the registry
    and still marked in the cache as known to be there: the cache does not
    tell the truth any more. *)
Theorem rollback_leaves_cache config files w e w' evs k :
  onError config = onError_rollback →
  run config files w = (Raised e, w') →
  history w' = history w ++ evs →
  AddDimensionEntry k ∈ evs →
  k ∈ entriesDone (dimensionOf k) w' ∧
  (k ∉ dimensionEntries (registry w')) ∧
  ¬ cacheHolds w'.
Proof.
  intros Hpolicy Hrun Hh Hk.
  pose proof (run_insertedSince (history w) (dimensionEntries (registry w))
                config files w) as Hinv.
  rewrite Hrun in Hinv. simpl in Hinv.
  destruct Hinv as (_ & evs' & Hh' & Hins).
  { split; [done|]. exists []. split; [by rewrite app_nil_r|].
    intros k' Hk'. by apply elem_of_nil in Hk'. }
  rewrite Hh in Hh'. apply app_inv_head in Hh'. subst evs'.
  destruct (Hins k Hk) as [Hout Hdone].
  rewrite (run_rollback_registry _ _ _ _ _ Hpolicy Hrun). simpl.
  repeat split; [done.. |].
  intros Hc. apply Hout. specialize (Hc _ _ Hdone).
  by rewrite (run_rollback_registry _ _ _ _ _ Hpolicy Hrun) in Hc.
Qed.

(** ** Every file is accounted for *)

Lemma processFile_butler_run config file w :
  butler_run (processFile config file w).2 = butler_run w.
Proof.
  apply (processFile_preserves (λ w0, butler_run w0 = butler_run w));
    try (intros; first [assumption | intros w0 Hw0; exact Hw0]); try done.
  - intros fullDataId d w0 Hw0. rewrite ensureDimension_eq.
    by repeat case_match.
  - intros k region update w0 Hw0. unfold setDimensionRegion. by case_match.
  - intros coll f dataId transfer formatter w0 Hw0. unfold butler_ingest.
    by repeat case_match.
Qed.

Lemma processFile_butler_run_eq config file w o w' :
  processFile config file w = (o, w') → butler_run w' = butler_run w.
Proof.
  intros Hrun. pose proof (processFile_butler_run config file w) as Hb.
  by rewrite Hrun in Hb.
Qed.

Lemma processFile_datasets_grow config file w :
  datasets (registry w) ⊆ datasets (registry (processFile config file w).2).
Proof.
  pose proof (processFile_datasets config file w) as Hd.
  destruct (processFile config file w) as [[[]|e] w']; simpl in *.
  - destruct Hd as [-> | (coll & header & obsInfo & _ & _ & Hfree & ->)];
      [done|]. by apply insert_subseteq.
  - by rewrite Hd.
Qed.

Lemma processFile_ingested config file w w' :
  processFile config file w = (Returned tt, w') →
  ingested (collection (butler_run w)) (registry w') file.
Proof.
  intros Hrun. rewrite processFile_eq in Hrun.
  pose proof (ensureDimensions_sameButler config file w) as (Hb & _).
  destruct (ensureDimensions config file w) as [[[headers dataId]|e] w1]
    eqn:Hens; [|done].
  destruct (ensureDimensions_result _ _ _ _ _ Hens)
    as (header & obsInfo & Hmeta & Htrans & [= -> ->]).
  exists header, obsInfo. split; [done|]. split; [done|].
  simpl in Hb. rewrite <- Hb.
  rewrite ingestDefault_eq in Hrun.
  pose proof (ingestFile_datasets config file [header]
                (extractDataId obsInfo) None (record TransactionBegin w1))
    as Hd.
  destruct (ingestFile _ _ _ _ _ _) as [[key|e] w2] eqn:Hingest;
    simpl in Hd.
  - destruct Hd as (-> & _ & Hd). simplify_eq. simpl. rewrite Hd.
    rewrite lookup_insert_eq. by eexists.
  - destruct (isIngestConflictError e) eqn:He; [|done].
    destruct (conflict config); [|done].
    destruct (ingestFile_conflict _ _ _ _ _ _ _ _ Hingest He)
      as (_ & _ & _ & _ & _ & Hheld & _). simpl in Hheld.
    pose proof (resolveConflict_datasets config file [header]
                  (extractDataId obsInfo) (record TransactionCommit w2))
      as Hr.
    rewrite Hrun in Hr. simpl in Hr. rewrite Hd in Hr.
    destruct Hr as [-> | (key & _ & Hfree & ->)]; [done|].
    rewrite lookup_insert_is_Some. right. split; [|done].
    intros ->. rewrite Hfree in Hheld. by destruct Hheld.
Qed.

Lemma ingested_mono coll r r' file :
  datasets r ⊆ datasets r' → ingested coll r file → ingested coll r' file.
Proof.
  intros Hsub (header & obsInfo & Hmeta & Htrans & [bound Hbound]).
  exists header, obsInfo. repeat split; try done.
  exists bound. by eapply lookup_weaken.
Qed.

Lemma processFile_history config file ev :
  preserves (λ w, ev ∈ history w) (processFile config file).
Proof.
  apply processFile_preserves;
    try (intros; intros w Hw;
         first [exact Hw | simpl; apply elem_of_app; by left]).
  - intros fullDataId d w Hw. rewrite ensureDimension_eq.
    repeat case_match; simpl; rewrite ?elem_of_app; auto.
  - intros k region update w Hw. unfold setDimensionRegion.
    case_match; simpl; rewrite ?elem_of_app; auto.
  - intros coll f dataId transfer formatter w Hw. unfold butler_ingest.
    repeat case_match; simpl; rewrite ?elem_of_app; auto.
  - intros w Hw. simpl. apply elem_of_app. by left.
  - intros w Hw. simpl. apply elem_of_app. by left.
  - intros w w' _ Hw'. simpl. apply elem_of_app. by left.
Qed.

(** The post-pass writes regions only. *)
Lemma addVisitRegions_frame w ev :
  butler_run (_addVisitRegions w).2 = butler_run w ∧
  datasets (registry (_addVisitRegions w).2) = datasets (registry w) ∧
  (ev ∈ history w → ev ∈ history (_addVisitRegions w).2).
Proof.
  apply (addVisitRegions_preserves
           (λ w0, butler_run w0 = butler_run w ∧
                  datasets (registry w0) = datasets (registry w) ∧
                  (ev ∈ history w → ev ∈ history w0))).
  - intros k region update w0 (? & ? & Hh). unfold setDimensionRegion.
    case_match; simpl; repeat split; try done;
      intros Hev; apply elem_of_app; left; by apply Hh.
  - intros i v w0 (? & ? & Hh). simpl. repeat split; try done.
    intros Hev. apply elem_of_app. left. by apply Hh.
  - done.
Qed.

Lemma postpass_frame (b : bool) w ev :
  let w' := ((if b then _addVisitRegions else ret tt) w).2 in
  butler_run w' = butler_run w ∧
  datasets (registry w') = datasets (registry w) ∧
  (ev ∈ history w → ev ∈ history w').
Proof. destruct b; [apply addVisitRegions_frame | done]. Qed.

(** A loop that returns has ingested every file, or found it ingested. *)
Lemma loop_ingested config files w w' :
  forEach files (processFile config) w = (Returned tt, w') →
  butler_run w' = butler_run w ∧
  datasets (registry w) ⊆ datasets (registry w') ∧
  ∀ file, file ∈ files → ingested (collection (butler_run w)) (registry w') file.
Proof.
  revert w. induction files as [|file files IH]; intros w Hloop;
    simpl in Hloop.
  - unfold ret in Hloop. simplify_eq. repeat split; try done.
    intros file Hfile. by apply elem_of_nil in Hfile.
  - unfold bind in Hloop.
    pose proof (processFile_butler_run config file w) as Hb1.
    pose proof (processFile_datasets_grow config file w) as Hd1.
    destruct (processFile config file w) as [[[]|e] w1] eqn:Hfile; [|done].
    simpl in *.
    destruct (IH _ Hloop) as (Hb2 & Hd2 & Hin).
    split; [congruence|]. split; [by etrans|].
    intros file' Hfile'. apply elem_of_cons in Hfile' as [->|Hfile'].
    + eapply ingested_mono; [exact Hd2|].
      by apply (processFile_ingested config).
    + rewrite <- Hb1. by apply Hin.
Qed.

(** The loop of [continue]: every file is ingested, or found ingested, or
    warned about. *)
Lemma loop_accounted config files w :
  let w' := (forEach files
               (λ file, catch (processFile config file)
                          (λ err, log_warn file)) w).2 in
  butler_run w' = butler_run w ∧
  datasets (registry w) ⊆ datasets (registry w') ∧
  (∀ ev, ev ∈ history w → ev ∈ history w') ∧
  ∀ file, file ∈ files →
    LogWarn (path file) ∈ history w' ∨
    ingested (collection (butler_run w)) (registry w') file.
Proof.
  cbv zeta. revert w. induction files as [|file files IH]; intros w; simpl.
  - repeat split; try done. intros file Hfile. by apply elem_of_nil in Hfile.
  - pose proof (processFile_butler_run config file w) as Hb1.
    pose proof (processFile_datasets_grow config file w) as Hd1.
    pose proof (λ ev, processFile_history config file ev w) as Hh1.
    destruct (processFile config file w) as [[[]|e] w1] eqn:Hfile;
      simpl in Hb1, Hd1, Hh1.
    + rewrite (bind_returned _ _ _ _ _ (catch_returned _ _ _ _ _ Hfile)).
      destruct (IH w1) as (Hb2 & Hd2 & Hh2 & Hin).
      split; [congruence|]. split; [by etrans|]. split; [by auto|].
      intros file' Hfile'. apply elem_of_cons in Hfile' as [->|Hfile'].
      * right. eapply ingested_mono; [exact Hd2|].
        by apply (processFile_ingested config).
      * rewrite <- Hb1. by apply Hin.
    + rewrite (bind_returned _ _ w tt (record (LogWarn (path file)) w1))
        by (by rewrite (catch_raised _ _ _ _ _ Hfile)).
      destruct (IH (record (LogWarn (path file)) w1))
        as (Hb2 & Hd2 & Hh2 & Hin).
      split; [simpl in Hb2; congruence|].
      split; [simpl in Hd2; by etrans|].
      split.
      { intros ev Hev. apply Hh2. simpl. apply elem_of_app. left. auto. }
      intros file' Hfile'. apply elem_of_cons in Hfile' as [->|Hfile'].
      * left. apply Hh2. simpl. apply elem_of_app. right.
        by apply list_elem_of_singleton.
      * simpl in Hin. rewrite <- Hb1. by apply Hin.
Qed.

(** X10.  When [run] returns under [break] or [rollback], the collection of
    the butler holds a dataset of the identity of every file of the batch:
    the one just ingested, or the one that was already there. *)
Theorem run_returned_ingested config files w w' :
  onError config ≠ onError_continue →
  run config files w = (Returned tt, w') →
  ∀ file, file ∈ files →
    ingested (collection (butler_run w)) (registry w') file.
Proof.
  intros Hpolicy Hrun file Hfile. rewrite run_eq in Hrun.
  destruct (onError config); [done| |].
  - unfold bind in Hrun.
    destruct (forEach files _ (registered w)) as [[[]|e] w1] eqn:Hloop;
      [|done].
    destruct (loop_ingested _ _ _ _ Hloop) as (Hb & Hd & Hin).
    destruct (postpass_frame (doAddRegions config) w1 TransactionBegin)
      as (_ & Hd' & _).
    rewrite Hrun in Hd'. simpl in Hd'.
    apply (ingested_mono _ (registry w1)); [by rewrite Hd'|]. by apply Hin.
  - unfold transaction, bind in Hrun.
    destruct (forEach files _ _) as [[[]|e] w1] eqn:Hloop; [|done].
    destruct (loop_ingested _ _ _ _ Hloop) as (Hb & Hd & Hin).
    destruct (postpass_frame (doAddRegions config) w1 TransactionBegin)
      as (_ & Hd' & _).
    destruct ((if doAddRegions config then _addVisitRegions else ret tt) w1)
      as [[[]|e] w2]; [|done].
    simplify_eq. simpl in *.
    apply (ingested_mono _ (registry w1)); [by rewrite Hd'|]. by apply Hin.
Qed.

(** X11.  Under [continue] every file of the batch is accounted for when
    [run] ends: the collection of the butler holds a dataset of its
    identity, or a warning was logged for it. *)
Theorem run_continue_accounts config files w file :
  onError config = onError_continue →
  file ∈ files →
  LogWarn (path file) ∈ history (run config files w).2 ∨
  ingested (collection (butler_run w)) (registry (run config files w).2) file.
Proof.
  intros Hpolicy Hfile. rewrite run_eq, Hpolicy.
  unfold bind.
  destruct (loop_accounted config files (registered w))
    as (Hb & Hd & Hh & Hin).
  pose proof (forEach_guarded files (processFile config)
                (λ file err, log_warn file) (registered w)
                (λ _ _ _, eq_refl)) as Hret.
  destruct (forEach files _ (registered w)) as [[[]|e] w1]; [|done].
  simpl in *.
  destruct (postpass_frame (doAddRegions config) w1 (LogWarn (path file)))
    as (_ & Hd' & Hh').
  destruct (Hin file Hfile) as [Hwarn|Hing].
  - left. by apply Hh'.
  - right. apply (ingested_mono _ (registry w1)); [by rewrite Hd'|]. done.
Qed.

(** ** The errors of [ingestFile] *)

(** X12.  When [ingestFile] raises it has changed nothing in the registry,
    and what it raises is decided in this order.  A failure of the formatter
    lookup, be it that no class is registered for the instrument or that the
    class or its [getRawFormatter] fails, is raised as it is, before the
    butler is asked.  Otherwise, when the collection already holds a dataset
    of the identity, the exception is [IngestConflictError] with the path
    and the identity of the file, never the bare
    [ConflictingDefinitionError].  Otherwise it is the error of the
    datastore, as it is. *)
Theorem ingestFile_raises config file headers dataId run w e w' :
  ingestFile config file headers dataId run w = (Raised e, w') →
  registry w' = registry w ∧
  e ≠ ConflictingDefinitionError ∧
  match formatterFor w dataId with
  | Raised e0 => e = e0 ∧ history w' = history w
  | Returned formatter =>
      match datasets (registry w) !! (destination w run, datasetId dataId)
      with
      | Some _ => e = IngestConflictError (path file) dataId
      | None =>
          ∃ msg,
            datastoreIngest file (transfer config) formatter = Failed msg ∧
            e = OtherError msg
      end
  end.
Proof.
  rewrite ingestFile_eq. cbv zeta. unfold formatterFor.
  destruct (instrumentOf w _) as [instrument|e0] eqn:Hi.
  - pose proof (withInstrument_frame (dataId_instrument dataId) instrument w)
      as (Hr & _ & _ & _ & _ & Hh & _).
    destruct (getRawFormatter instrument dataId) as [formatter|msg]; simpl.
    + destruct (datasets (registry w) !! _) as [bound|].
      * by intros [= <- <-].
      * destruct (datastoreIngest file _ _) as [[]|msg] eqn:Hstore;
          [done|]. intros [= <- <-]. repeat split; try done. by exists msg.
    + by intros [= <- <-].
  - intros [= <- <-]. repeat split; try done.
    apply instrumentOf_raised in Hi. by intros ->.
Qed.

(** An ingest that must conflict: the formatter is at hand and the
    collection holds the identity. *)
Lemma ingestFile_conflicts config file headers dataId run w formatter :
  formatterFor w dataId = Returned formatter →
  is_Some (datasets (registry w) !! (destination w run, datasetId dataId)) →
  ∃ w',
    ingestFile config file headers dataId run w
      = (Raised (IngestConflictError (path file) dataId), w') ∧
    registry w' = registry w ∧
    butler_run w' = butler_run w ∧
    factories w' = factories w ∧
    stashRun (task w') = stashRun (task w) ∧
    dimensionEntriesDone (task w') = dimensionEntriesDone (task w) ∧
    visitRegions (task w') = visitRegions (task w) ∧
    (∃ instrument,
       instrumentCache (task w') !! dataId_instrument dataId
         = Some instrument ∧
       getRawFormatter instrument dataId = Succeeded formatter) ∧
    (is_Some (instrumentCache (task w) !! dataId_instrument dataId) →
     task w' = task w) ∧
    history w' =
      history w ++
        [Ingest (destination w run) (path file) (datasetId dataId) false].
Proof.
  intros Hformatter [bound Hbound]. rewrite ingestFile_eq. cbv zeta.
  destruct (formatterFor_returned _ _ _ Hformatter)
    as (instrument & Hi & Hf).
  rewrite Hi, Hf, Hbound.
  pose proof (withInstrument_frame (dataId_instrument dataId) instrument w)
    as (Hr & Hb & Hfa & _ & _ & Hh & Hs & Hd & Hv).
  eexists. split; [reflexivity|]. simpl.
  repeat split; try done.
  - exists instrument. split; [|done]. by apply withInstrument_cached.
  - intros [cached Hcached]. unfold withInstrument. by rewrite Hcached.
  - by rewrite Hh.
Qed.

(** When [ingestFile] returns or raises a conflict, the instrument is in the
    cache and has given its formatter. *)
Lemma ingestFile_cached config file headers dataId run w o w' :
  ingestFile config file headers dataId run w = (o, w') →
  match o with
  | Returned _ => True
  | Raised e => isIngestConflictError e = true
  end →
  stashRun (task w') = stashRun (task w) ∧
  ∃ instrument formatter,
    instrumentCache (task w') !! dataId_instrument dataId = Some instrument ∧
    getRawFormatter instrument dataId = Succeeded formatter.
Proof.
  rewrite ingestFile_eq. cbv zeta.
  destruct (instrumentOf w _) as [instrument|e0] eqn:Hi; last first.
  { intros [= <- <-] He. apply instrumentOf_raised in Hi. by destruct e0. }
  pose proof (withInstrument_frame (dataId_instrument dataId) instrument w)
    as (_ & _ & _ & _ & _ & _ & Hs & _).
  pose proof (withInstrument_cached _ _ _ Hi) as Hc.
  destruct (getRawFormatter instrument dataId) as [formatter|msg] eqn:Hf;
    [|by intros [= <- <-]].
  assert (∀ w2,
            task w2
              = task (withInstrument (dataId_instrument dataId) instrument w) →
            stashRun (task w2) = stashRun (task w) ∧
            ∃ instrument formatter,
              instrumentCache (task w2) !! dataId_instrument dataId
                = Some instrument ∧
              getRawFormatter instrument dataId = Succeeded formatter)
    as Hall.
  { intros w2 ->. split; [done|]. by exists instrument, formatter. }
  destruct (datasets (registry w) !! _) as [bound|].
  - intros [= <- <-] _. by apply Hall.
  - destruct (datastoreIngest file _ _) as [[]|msg];
      intros [= <- <-] He; [by apply Hall | done].
Qed.

(** ** A conflict in the stash *)

Lemma stashReady_frame r w :
  collection (stashReady r w).1 = collection r ∧
  datasets (registry (stashReady r w).2) = datasets (registry w) ∧
  butler_run (stashReady r w).2 = butler_run w ∧
  factories (stashReady r w).2 = factories w ∧
  instrumentCache (task (stashReady r w).2) = instrumentCache (task w).
Proof. unfold stashReady. by destruct (run_id r). Qed.

(** X13.  The second conflict is not caught.  Under [ignore] with a stash, a
    file whose identity is held both by the collection of the butler and by
    the stash, and for whose instrument a formatter is to be had, makes
    [processFile] raise [IngestConflictError]: the stash transaction is
    rolled back and no dataset is added. *)
Theorem stash_conflict_raises config file w headers dataId w1 r formatter :
  conflict config = conflict_ignore →
  ensureDimensions config file w = (Returned (headers, dataId), w1) →
  stashRun (task w) = Some r →
  formatterFor w dataId = Returned formatter →
  is_Some (datasets (registry w)
             !! (collection (butler_run w), datasetId dataId)) →
  is_Some (datasets (registry w) !! (collection r, datasetId dataId)) →
  ∃ w',
    processFile config file w
      = (Raised (IngestConflictError (path file) dataId), w') ∧
    datasets (registry w') = datasets (registry w) ∧
    last (history w') = Some TransactionRollback.
Proof.
  intros Hpolicy Hens Hstash Hknown Hown Hheld.
  pose proof (ensureDimensions_sameButler config file w) as Hsame.
  rewrite Hens in Hsame.
  destruct Hsame as (Hb & Hf & _ & Hs & Hc & Hd & _). simpl in *.
  rewrite processFile_eq, Hens, ingestDefault_eq.
  destruct (ingestFile_conflicts config file headers dataId None
              (record TransactionBegin w1) formatter)
    as (w2 & -> & Hr2 & Hb2 & Hf2 & Hs2 & _ & _ & Hc2 & _).
  { rewrite <- Hknown. by apply formatterFor_eq. }
  { simpl. by rewrite Hd, Hb. }
  simpl. rewrite Hpolicy, resolveConflict_eq, Hpolicy. simpl.
  rewrite Hs2. simpl. rewrite Hs, Hstash.
  set (w3 := record TransactionCommit w2).
  destruct (stashReady_frame r w3) as (Hcoll & Hd3 & Hb3 & Hf3 & Hc3).
  destruct Hc2 as (instrument & Hcached & Hformatter).
  destruct (ingestFile_conflicts config file headers dataId
              (Some (stashReady r w3).1)
              (record TransactionBegin
                 (record (LogInfo (path file)) (stashReady r w3).2))
              formatter)
    as (w4 & -> & Hr4 & _).
  { rewrite (formatterFor_cached _ _ instrument), Hformatter; [done|].
    simpl. by rewrite Hc3. }
  { destruct (destination_collection
                (record TransactionBegin
                   (record (LogInfo (path file)) (stashReady r w3).2))
                (Some (stashReady r w3).1)) as [Heq | (r' & [= <-] & Heq)];
      rewrite Heq; simpl; rewrite Hd3; simpl; rewrite Hr2; simpl; rewrite Hd.
    - rewrite Hb3. simpl. rewrite Hb2. simpl. by rewrite Hb.
    - by rewrite Hcoll. }
  eexists. split; [reflexivity|]. simpl. split.
  - rewrite Hd3. simpl. by rewrite Hr2.
  - by rewrite last_snoc.
Qed.

(** ** A file ingested again *)

(** [ensureDimensions] on a file whose entries are all settled and whose
    detector region is stored reads the headers and writes nothing. *)
Lemma ensureDimensions_idle config file header obsInfo w :
  metadata file = Returned header →
  translated header = Returned obsInfo →
  (∀ d, settled (extractDataId obsInfo) d w) →
  (doAddRegions config = true →
   ∃ k region,
     regionOf config [header] = Returned region ∧
     detectorKey (linksRequired w) (extractDataId obsInfo) = Some k ∧
     is_Some (regions (registry w) !! k)) →
  ∃ w',
    ensureDimensions config file w
      = (Returned ([header], extractDataId obsInfo), w') ∧
    registry w' = registry w ∧ task w' = task w ∧
    butler_run w' = butler_run w ∧ factories w' = factories w.
Proof.
  intros Hmeta Htrans Hset Hreg.
  rewrite (ensureDimensions_eq _ _ _ _ _ Hmeta Htrans).
  rewrite (loop_idle _ _ _ (λ d _, Hset d)).
  destruct (doAddRegions config); [|by eexists].
  destruct (Hreg eq_refl) as (k & region & Hregion & Hk & Hsome).
  rewrite addDetectorRegion_eq, Hregion, Hk.
  rewrite bool_decide_eq_true_2 by done.
  by eexists.
Qed.

(** Under [ignore] without a stash, a file that is in the registry already
    with all it brings is passed over. *)
Lemma processFile_idle config file header obsInfo w cached formatter :
  conflict config = conflict_ignore →
  stashRun (task w) = None →
  metadata file = Returned header →
  translated header = Returned obsInfo →
  (∀ d, settled (extractDataId obsInfo) d w) →
  (doAddRegions config = true →
   ∃ k region,
     regionOf config [header] = Returned region ∧
     detectorKey (linksRequired w) (extractDataId obsInfo) = Some k ∧
     is_Some (regions (registry w) !! k)) →
  instrumentCache (task w) !! instrument obsInfo = Some cached →
  getRawFormatter cached (extractDataId obsInfo) = Succeeded formatter →
  is_Some (datasets (registry w)
             !! (collection (butler_run w),
                 datasetId (extractDataId obsInfo))) →
  ∃ w2,
    processFile config file w = (Returned tt, w2) ∧
    registry w2 = registry w ∧ task w2 = task w.
Proof.
  intros Hpolicy Hstash Hmeta Htrans Hset Hreg Hcache Hformatter Hheld.
  destruct (ensureDimensions_idle config file header obsInfo w)
    as (w1 & Hens & Hr1 & Ht1 & Hb1 & Hf1); try done.
  destruct (extractDataId_links obsInfo) as (Hi & _).
  rewrite processFile_eq, Hens, ingestDefault_eq.
  destruct (ingestFile_conflicts config file [header]
              (extractDataId obsInfo) None (record TransactionBegin w1)
              formatter)
    as (w2 & -> & Hr2 & Hb2 & Hf2 & Hs2 & Hd2 & Hv2 & _ & Hc2 & _).
  { rewrite (formatterFor_cached _ _ cached), Hformatter; [done|].
    change (task (record TransactionBegin w1)) with (task w1).
    by rewrite Ht1, Hi. }
  { simpl. by rewrite Hr1, Hb1. }
  simpl. rewrite Hpolicy, resolveConflict_eq, Hpolicy. simpl.
  rewrite Hs2. simpl. rewrite Ht1, Hstash.
  eexists. split; [reflexivity|]. simpl. split; [by rewrite Hr2|].
  rewrite Hc2; [done|].
  change (task (record TransactionBegin w1)) with (task w1).
  rewrite Ht1, Hi, Hcache. by eexists.
Qed.

(** What a first [processFile] that returns, under [ignore] without a
    stash, leaves of the file. *)
Lemma processFile_leaves config file w w1 :
  conflict config = conflict_ignore →
  stashRun (task w) = None →
  processFile config file w = (Returned tt, w1) →
  ∃ header obsInfo cached formatter,
    metadata file = Returned header ∧
    translated header = Returned obsInfo ∧
    stashRun (task w1) = None ∧
    instrumentCache (task w1) !! instrument obsInfo = Some cached ∧
    getRawFormatter cached (extractDataId obsInfo) = Succeeded formatter ∧
    (∀ d, settled (extractDataId obsInfo) d w1) ∧
    (doAddRegions config = true →
     ∃ k region,
       regionOf config [header] = Returned region ∧
       detectorKey (linksRequired w1) (extractDataId obsInfo) = Some k ∧
       is_Some (regions (registry w1) !! k)).
Proof.
  intros Hpolicy Hstash Hrun.
  pose proof (ensureDimensions_sameButler config file w)
    as (_ & _ & _ & Hs & _).
  destruct (ensureDimensions config file w) as [[[headers dataId]|e] wa]
    eqn:Hens; [|by rewrite processFile_eq, Hens in Hrun].
  destruct (ensureDimensions_result _ _ _ _ _ Hens)
    as (header & obsInfo & Hmeta & Htrans & [= -> ->]).
  destruct (extractDataId_links obsInfo) as (Hi' & _ & Hd' & Hv' & _).
  simpl in Hs.
  (* what the ingest leaves alone *)
  assert (sameEntries wa w1) as (HD & _ & _ & HR & [_ Hlinks] & _).
  { pose proof (ingest_sameEntries config file [header]
                  (extractDataId obsInfo) wa wa (sameEntries_refl wa)) as Hi.
    unfold processFile in Hrun.
    rewrite (bind_returned _ _ _ _ _ Hens) in Hrun.
    by rewrite Hrun in Hi. }
  (* the stash and the instrument *)
  assert (stashRun (task w1) = None ∧
          ∃ cached formatter,
            instrumentCache (task w1) !! instrument obsInfo = Some cached ∧
            getRawFormatter cached (extractDataId obsInfo)
              = Succeeded formatter) as [Hs1 (cached & formatter & Hc1 & Hf1)].
  { rewrite processFile_eq, Hens, ingestDefault_eq in Hrun.
    destruct (ingestFile _ _ _ _ _ _) as [o w2] eqn:Hingest.
    assert (match o with
            | Returned _ => True
            | Raised e => isIngestConflictError e = true
            end) as Ho.
    { destruct o as [key|e]; [done|].
      by destruct (isIngestConflictError e). }
    destruct (ingestFile_cached _ _ _ _ _ _ _ _ Hingest Ho)
      as (Hs2 & cached & formatter & Hc2 & Hf2).
    simpl in Hs2. rewrite Hi' in Hc2.
    destruct o as [key|e].
    - simplify_eq. simpl. split; [congruence|]. by eauto.
    - rewrite Ho, Hpolicy, resolveConflict_eq, Hpolicy in Hrun.
      simpl in Hrun. rewrite Hs2, Hs, Hstash in Hrun. simplify_eq. simpl.
      split; [congruence|]. by eauto. }
  exists header, obsInfo, cached, formatter.
  split; [done|]. split; [done|]. split; [done|]. split; [done|].
  split; [done|]. split.
  - intros d.
    eapply settled_mono;
      [exact Hlinks | | exact (ensureDimensions_settles _ _ _ _ _ Hens d)].
    intros d' k'. unfold entriesDone. by rewrite HD.
  - intros Hregions.
    destruct (ensureDimensions_returned _ _ _ _ _ Hregions Hens)
      as (k & region & Hregion & Hk & Hl & Hstored & _).
    cbn [fst snd] in *.
    exists k, region. split; [done|].
    split; [by rewrite Hlinks, Hl|]. by rewrite HR.
Qed.

(** X14.  Ingesting a file again is harmless under [ignore] without a stash:
    when [processFile] has returned for a file, running it again on the
    same file returns and leaves the registry and the task as they are. *)
Theorem processFile_again config file w w1 :
  conflict config = conflict_ignore →
  stashRun (task w) = None →
  processFile config file w = (Returned tt, w1) →
  ∃ w2,
    processFile config file w1 = (Returned tt, w2) ∧
    registry w2 = registry w1 ∧ task w2 = task w1.
Proof.
  intros Hpolicy Hstash Hrun.
  destruct (processFile_leaves _ _ _ _ Hpolicy Hstash Hrun)
    as (header & obsInfo & cached & formatter & Hmeta & Htrans & Hs1 & Hc1
        & Hf1 & Hset & Hreg).
  apply (processFile_idle config file header obsInfo w1 cached formatter);
    try done.
  destruct (processFile_ingested _ _ _ _ Hrun)
    as (header' & obsInfo' & Hmeta' & Htrans' & Hheld).
  rewrite (processFile_butler_run_eq _ _ _ _ _ Hrun).
  rewrite Hmeta in Hmeta'. injection Hmeta' as <-.
  rewrite Htrans in Htrans'. by injection Htrans' as <-.
Qed.

(** ** The stash run is registered once *)

Lemma registrations_app h evs :
  registrations (h ++ evs) = (registrations h + registrations evs)%nat.
Proof. unfold registrations. by rewrite List.filter_app, length_app. Qed.

(** A step that registers no run and leaves the stash run alone. *)
Lemma stashOnce_quiet w w' evs :
  history w' = history w ++ evs →
  registrations evs = 0%nat →
  stashRun (task w') = stashRun (task w) →
  stashOnce w → stashOnce w'.
Proof.
  unfold stashOnce. intros -> Hq ->. rewrite registrations_app, Hq.
  by rewrite Nat.add_0_r.
Qed.

Ltac hushed w ev :=
  apply (stashOnce_quiet w _ [ev]); [reflexivity.. | assumption].

Ltac mute w :=
  apply (stashOnce_quiet w _ []);
    [simpl; by rewrite app_nil_r | reflexivity | reflexivity | assumption].

Lemma ensureDimensions_stashOnce config file :
  preserves stashOnce (ensureDimensions config file).
Proof.
  apply ensureDimensions_preserves.
  - intros fullDataId d w Hw.
    destruct (ensureDimension_turn fullDataId d w) as [evs Hturn].
    destruct (ensureDimension fullDataId d w) as [o w']. simpl in *.
    pose proof (turn_frame _ _ _ _ _ _ Hturn) as (Hh & _).
    apply (stashOnce_quiet w _ evs); try done.
    + by destruct Hturn.
    + by destruct Hturn.
  - intros k region update w Hw. unfold setDimensionRegion. case_match.
    + hushed w (SetDimensionRegion k update false).
    + hushed w (SetDimensionRegion k update true).
  - intros key vertices w Hw. mute w.
Qed.

Lemma addVisitRegions_stashOnce : preserves stashOnce _addVisitRegions.
Proof.
  apply addVisitRegions_preserves.
  - intros k region update w Hw. unfold setDimensionRegion. case_match.
    + hushed w (SetDimensionRegion k update false).
    + hushed w (SetDimensionRegion k update true).
  - intros i v w Hw. hushed w (ExpandDataId (VisitRegion i v)).
Qed.

Lemma ingestFile_stashOnce config file headers dataId run :
  preserves stashOnce (ingestFile config file headers dataId run).
Proof.
  apply ingestFile_preserves.
  - intros i instrument w Hw. mute w.
  - intros coll f id transfer formatter w Hw. unfold butler_ingest.
    repeat case_match.
    + hushed w (Ingest coll (path f) (datasetId id) false).
    + hushed w (Ingest coll (path f) (datasetId id) true).
    + hushed w (Ingest coll (path f) (datasetId id) false).
Qed.

Lemma stashReady_stashOnce r w :
  stashRun (task w) = Some r →
  stashOnce w → stashOnce (stashReady r w).2.
Proof.
  unfold stashOnce, stashReady. intros Hstash Hw. rewrite Hstash in Hw.
  destruct (run_id r) eqn:Hid; simpl; [by rewrite Hstash, Hid|].
  rewrite registrations_app, Hw. unfold registrations. simpl. lia.
Qed.

Lemma resolveConflict_stashOnce config file headers dataId :
  preserves stashOnce (resolveConflict config file headers dataId).
Proof.
  intros w Hw. rewrite resolveConflict_eq. cbv zeta.
  destruct (conflict config); [|done].
  destruct (stashRun (task w)) as [r|] eqn:Hstash.
  - pose proof (stashReady_stashOnce r w Hstash Hw) as Hready.
    set (w1 := record TransactionBegin
                 (record (LogInfo (path file)) (stashReady r w).2)).
    assert (stashOnce w1) as Hw1.
    { apply (stashOnce_quiet (stashReady r w).2 _
               [LogInfo (path file); TransactionBegin]); try done.
      simpl. by rewrite <- app_assoc. }
    pose proof (ingestFile_stashOnce config file headers dataId
                  (Some (stashReady r w).1) w1 Hw1) as Hi.
    fold w1.
    destruct (ingestFile _ _ _ _ _ w1) as [[key|e] w2]; simpl in *.
    + hushed w2 TransactionCommit.
    + apply (stashOnce_quiet w2 _ [TransactionRollback]); done.
  - simpl. hushed w (LogInfo (path file)).
Qed.

Lemma run_stashOnce config files : preserves stashOnce (run config files).
Proof.
  apply run_keeps.
  - intros t w Hw. hushed w (RegisterDatasetType t).
  - apply ensureDimensions_stashOnce.
  - apply addVisitRegions_stashOnce.
  - apply ingestFile_stashOnce.
  - apply resolveConflict_stashOnce.
  - intros file w Hw. hushed w (LogWarn (path file)).
  - intros w Hw. hushed w TransactionBegin.
  - intros w Hw. hushed w TransactionCommit.
  - intros w w' _ Hw'.
    apply (stashOnce_quiet w' _ [TransactionRollback]); done.
Qed.

(** X15.  A task registers its stash run at most once in its life, on the
    first conflict that needs it, whatever the calls of [run] return or
    raise; and when it has, the stash run of the task has its id. *)
Theorem stash_registered_once config batches w :
  history w = [] →
  (registrations (history (afterRuns config batches w)) ≤ 1)%nat ∧
  (registrations (history (afterRuns config batches w)) = 1%nat →
   ∃ r, stashRun (task (afterRuns config batches w)) = Some r ∧
        is_Some (run_id r)).
Proof.
  intros Hfresh.
  assert (stashOnce (afterRuns config batches w)) as Hw.
  { apply afterRuns_preserves; [apply run_stashOnce|].
    unfold stashOnce. rewrite Hfresh.
    repeat case_match; unfold registrations; simpl; lia. }
  unfold stashOnce in Hw.
  destruct (stashRun (task (afterRuns config batches w))) as [r|].
  - destruct (run_id r) as [id|] eqn:Hid.
    + split; [done|]. intros _. exists r. split; [done|]. by rewrite Hid.
    + rewrite Hw. split; [lia|]. done.
  - rewrite Hw. split; [lia|]. done.
Qed.

(** ** Padding *)

Lemma forEach_ext {X} (xs : list X) (f g : X → M unit) w :
  (∀ x w, f x w = g x w) → forEach xs f w = forEach xs g w.
Proof.
  intros Hfg. revert w. induction xs as [|x xs IH]; intros w; [done|].
  simpl. unfold bind. rewrite Hfg.
  destruct (g x w) as [[[]|e] w1]; [apply IH | done].
Qed.

Lemma regionOf_unpadded config headers :
  (padRegionAmount config ≤ 0)%Z →
  regionOf config headers = regionOf (unpadded config) headers.
Proof.
  intros Hpad. unfold regionOf. destruct headers as [|header headers]; [done|].
  by rewrite bool_decide_eq_false_2 by lia.
Qed.

Lemma ensureDimensions_unpadded config file w :
  (padRegionAmount config ≤ 0)%Z →
  ensureDimensions config file w = ensureDimensions (unpadded config) file w.
Proof.
  intros Hpad. unfold ensureDimensions, bind.
  destruct (readHeaders file w) as [[headers|e] w1]; [|done].
  destruct (first headers w1) as [[header|e] w2]; [|done].
  destruct (lift (translated header) w2) as [[obsInfo|e] w3]; [|done].
  unfold get.
  destruct (forEach (selfDimensions w3) _ w3) as [[[]|e] w4]; [|done].
  simpl. destruct (doAddRegions config); [|done].
  by rewrite !addDetectorRegion_eq, regionOf_unpadded.
Qed.

Lemma processFile_unpadded config file w :
  (padRegionAmount config ≤ 0)%Z →
  processFile config file w = processFile (unpadded config) file w.
Proof.
  intros Hpad. unfold processFile. unfold bind at 1 3.
  by rewrite ensureDimensions_unpadded.
Qed.

(** X16.  A pad that is not positive is no pad: with [padRegionAmount] zero
    or negative the bounding box is not grown, nor shrunk, and [run] does
    exactly what it does with a pad of zero. *)
Theorem nonpositive_pad_ignored config files w :
  (padRegionAmount config ≤ 0)%Z →
  run config files w = run (unpadded config) files w.
Proof.
  intros Hpad. rewrite !run_eq. simpl.
  destruct (onError config).
  - unfold bind.
    rewrite (forEach_ext files _
               (λ file, catch (processFile (unpadded config) file)
                          (λ err, log_warn file))); [done|].
    intros file w0. unfold catch. by rewrite processFile_unpadded.
  - unfold bind.
    rewrite (forEach_ext files _ (processFile (unpadded config))); [done|].
    intros file w0. by apply processFile_unpadded.
  - unfold transaction, bind.
    rewrite (forEach_ext files _ (processFile (unpadded config))); [done|].
    intros file w0. by apply processFile_unpadded.
Qed.

(** ** The identity of a file *)

(** X17.  The identity [extractDataId] returns has a value for the link of a
    dimension exactly when the dimension is in its set; the entry of that
    value, which the loop of [ensureDimensions] looks up, belongs to that
    dimension and to the instrument of the observation. *)
Theorem extractDataId_entries obsInfo d :
  (d ∈ dataId_dimensions (extractDataId obsInfo) ↔
   is_Some (dimensionDataId (extractDataId obsInfo) d)) ∧
  (∀ k, dimensionDataId (extractDataId obsInfo) d = Some k →
        dimensionOf k = d ∧
        match k with
        | InstrumentId i | DetectorId i _ | PhysicalFilterId i _
        | VisitId i _ | ExposureId i _ | Unlinked _ i =>
            i = instrument obsInfo
        end).
Proof.
  split; [apply extractDataId_dimensionDataId|].
  intros k Hk. split; [by eapply dimensionDataId_dimensionOf|].
  unfold dimensionDataId in Hk.
  destruct (extractDataId_links obsInfo) as (Hi & _).
  destruct d; simplify_option_eq; done.
Qed.

(** ** The post-pass on its own *)

(** X18.  [_addVisitRegions] returns, and writes one region for every visit
    of the map and nothing else: the convex polygon of the vertices of the
    region the visit had, when it had one, followed by the accumulated
    ones.  The map itself, the dimension entries and the datasets stay as
    they are. *)
Theorem addVisitRegions_commits w :
  keysDistinct w →
  ∃ w',
    _addVisitRegions w = (Returned tt, w') ∧
    task w' = task w ∧
    dimensionEntries (registry w') = dimensionEntries (registry w) ∧
    datasets (registry w') = datasets (registry w) ∧
    ∀ k, regions (registry w') !! k
         = committed (regions (registry w)) (visitRegions (task w)) k.
Proof.
  intros Hkeys. rewrite addVisitRegions_eq.
  destruct (addVisitRegions_loop (visitRegions (task w)) w Hkeys)
    as (Hret & Htask & Hentries & Hdatasets & Hregions).
  exists (forEach (visitRegions (task w)) addVisitRegion w).2.
  split; [by apply outcome_eq|]. done.
Qed.

(** ** A file that is ingested *)

(** [ensureDimensions] returns when the headers can be read and translated,
    the constructor builds an identity for every dimension, the
    prerequisites are there and, with regions, the observation has a visit
    and the header yields a region. *)
Lemma ensureDimensions_returns config file header obsInfo w :
  metadata file = Returned header →
  translated header = Returned obsInfo →
  (linksRequired w = true →
   is_Some (visit_id obsInfo) ∧ is_Some (physical_filter obsInfo)) →
  (∀ d k, prerequisite d →
     loopDataId (linksRequired w) (extractDataId obsInfo) d = Some k →
     k ∈ dimensionEntries (registry w)) →
  (doAddRegions config = true →
   ∃ v region,
     visit_id obsInfo = Some v ∧ regionOf config [header] = Returned region) →
  ∃ w1,
    ensureDimensions config file w
      = (Returned ([header], extractDataId obsInfo), w1).
Proof.
  intros Hmeta Htrans Hlinks Hpre Hreg.
  rewrite (ensureDimensions_eq _ _ _ _ _ Hmeta Htrans).
  destruct (extractDataId_links obsInfo) as (_ & _ & _ & Hv & Hf).
  destruct (loop_returns (extractDataId obsInfo) (selfDimensions w) w)
    as [w1 ->].
  { intros d _.
    assert (∃ k, loopDataId (linksRequired w) (extractDataId obsInfo) d
                   = Some k) as [k Hk].
    { unfold loopDataId.
      destruct (dimensionDataId _ d) as [k|] eqn:Hk; [by eauto|].
      destruct (linksRequired w); [|by eauto].
      destruct (Hlinks eq_refl) as [[v Hvisit] [f Hfilter]].
      unfold dimensionDataId in Hk. rewrite Hv, Hf, Hvisit, Hfilter in Hk.
      by destruct d. }
    exists k. split; [done|]. intros Hd. right. by eapply Hpre. }
  destruct (doAddRegions config); [|by eexists].
  destruct (Hreg eq_refl) as (v & region & Hvisit & Hregion).
  rewrite (addDetectorRegion_visit _ _ _ _ v) by (by rewrite Hv).
  rewrite Hregion. cbv zeta.
  case_bool_decide; by eexists.
Qed.

(** X19.  The file is ingested.  Take a file whose headers can be read and
    translated, on a task whose cache tells the truth.  When the [DataId]
    constructor builds an identity for each of the five dimensions, the
    entries of the instrument, the detector and the physical filter are in
    the registry, the instrument gives a formatter and the datastore takes
    the file, the header yields a region for the visit when regions are
    added, and the collection of the butler holds no dataset of the
    identity, then [processFile] returns and has bound the file to that
    identity in the collection, in a transaction that was committed, and
    every dimension entry the identity names is in the registry. *)
Theorem processFile_ingests config file header obsInfo w :
  metadata file = Returned header →
  translated header = Returned obsInfo →
  cacheHolds w →
  (linksRequired w = true →
   is_Some (visit_id obsInfo) ∧ is_Some (physical_filter obsInfo)) →
  (∀ d k, prerequisite d →
     loopDataId (linksRequired w) (extractDataId obsInfo) d = Some k →
     k ∈ dimensionEntries (registry w)) →
  (doAddRegions config = true →
   ∃ v region,
     visit_id obsInfo = Some v ∧ regionOf config [header] = Returned region) →
  transferOf config file w (extractDataId obsInfo) = Returned tt →
  datasets (registry w)
    !! (collection (butler_run w), datasetId (extractDataId obsInfo)) = None →
  ∃ w',
    processFile config file w = (Returned tt, w') ∧
    datasets (registry w')
      = <[(collection (butler_run w), datasetId (extractDataId obsInfo))
          := path file]> (datasets (registry w)) ∧
    last (history w') = Some TransactionCommit ∧
    ∀ d k, dimensionDataId (extractDataId obsInfo) d = Some k →
           k ∈ dimensionEntries (registry w').
Proof.
  intros Hmeta Htrans Hcache Hlinks Hpre Hreg Htransfer Hfree.
  destruct (ensureDimensions_returns config file header obsInfo w)
    as [w1 Hens]; try done.
  pose proof (ensureDimensions_sameButler config file w) as Hsame.
  rewrite Hens in Hsame.
  destruct Hsame as (Hb & Hf & _ & _ & Hc & Hd & _). simpl in *.
  assert (∀ d k, dimensionDataId (extractDataId obsInfo) d = Some k →
                 k ∈ dimensionEntries (registry w1)) as Hentries.
  { intros d k Hk.
    pose proof (ensureDimensions_cacheHolds config file w Hcache) as Hc1.
    rewrite Hens in Hc1.
    pose proof (ensureDimensions_settles _ _ _ _ _ Hens d) as Hs.
    unfold settled in Hs. simpl in Hs.
    rewrite (loopDataId_linked _ _ _ _ Hk) in Hs. by apply (Hc1 d). }
  unfold transferOf in Htransfer.
  destruct (formatterFor w (extractDataId obsInfo)) as [formatter|e]
    eqn:Hformatter; [|done].
  destruct (formatterFor_returned _ _ _ Hformatter)
    as (instrument & Hi & Hraw).
  assert (instrumentOf (record TransactionBegin w1)
            (dataId_instrument (extractDataId obsInfo))
          = Returned instrument) as Hi1.
  { unfold instrumentOf in *. simpl. by rewrite Hc, Hf. }
  rewrite processFile_eq, Hens, ingestDefault_eq, ingestFile_eq.
  cbv zeta. rewrite Hi1, Hraw.
  change (destination (record TransactionBegin w1) None)
    with (collection (butler_run w1)).
  change (registry (record TransactionBegin w1)) with (registry w1).
  rewrite Hd, Hb, Hfree.
  destruct (datastoreIngest file (transfer config) formatter) as [[]|msg];
    [|done].
  pose proof (withInstrument_frame
                (dataId_instrument (extractDataId obsInfo)) instrument
                (record TransactionBegin w1)) as (Hr & _).
  revert Hr. generalize (withInstrument
                (dataId_instrument (extractDataId obsInfo)) instrument
                (record TransactionBegin w1)). intros wi Hr.
  eexists. split; [reflexivity|]. simpl. rewrite Hr. simpl. rewrite Hd.
  split; [done|]. split; [by rewrite last_snoc|]. exact Hentries.
Qed.

(** ** When no file fails *)

(** X20.  When no file of the batch fails, the three policies end in the same
    way: [run] returns, and the registry and the task are the ones the
    post-pass leaves after the loop; under [rollback] nothing is undone. *)
Theorem run_all_files_pass config files w w1 :
  forEach files (processFile config) (loopStart config w)
    = (Returned tt, w1) →
  ∃ w2,
    run config files w = (Returned tt, w2) ∧
    registry w2
      = registry
          ((if doAddRegions config then _addVisitRegions else ret tt) w1).2 ∧
    task w2
      = task
          ((if doAddRegions config then _addVisitRegions else ret tt) w1).2.
Proof.
  unfold loopStart. intros Hloop. rewrite run_eq.
  assert (((if doAddRegions config then _addVisitRegions else ret tt) w1).1
          = Returned tt) as Hpost.
  { destruct (doAddRegions config); [apply addVisitRegions_returns | done]. }
  destruct ((if doAddRegions config then _addVisitRegions else ret tt) w1)
    as [o w2] eqn:Hpass. simpl in Hpost. subst o.
  destruct (onError config).
  - rewrite (bind_returned _ _ _ _ _
               (forEach_catch_returned _ _ _ _ _ Hloop)), Hpass.
    by eexists.
  - rewrite (bind_returned _ _ _ _ _ Hloop), Hpass. by eexists.
  - unfold transaction. rewrite (bind_returned _ _ _ _ _ Hloop), Hpass.
    by eexists.
Qed.

End Further.

(** * Properties of [ExposureIdInfo] *)

Lemma bit_length_pos p : bit_length (Z.pos p) = Z.log2 (Z.pos p) + 1.
Proof.
  destruct p as [p|p|]; simpl; try reflexivity.
  - by rewrite Pos2Z.inj_succ.
  - by rewrite Pos2Z.inj_succ.
Qed.

Lemma bit_length_abs n : bit_length n = bit_length (Z.abs n).
Proof. by destruct n. Qed.

(** [n] has at most [b] binary digits exactly when its magnitude is below
    [2 ^ b]. *)
Lemma bit_length_le n b : (bit_length n ≤ b ↔ Z.abs n < 2 ^ b)%Z.
Proof.
  rewrite bit_length_abs. destruct (Z.abs n) as [|p|p] eqn:Hn; [| |lia].
  - simpl. split.
    + intros Hb. by apply Z.pow_pos_nonneg.
    + intros Hb. destruct (decide (0 ≤ b)%Z) as [|Hneg]; [done|].
      rewrite Z.pow_neg_r in Hb by lia. lia.
  - rewrite bit_length_pos. split.
    + intros Hb. apply Z.log2_lt_pow2; lia.
    + intros Hb. destruct (decide (0 ≤ b)%Z) as [|Hneg].
      * apply Z.log2_lt_pow2 in Hb; lia.
      * rewrite Z.pow_neg_r in Hb by lia. lia.
Qed.

Lemma newExposureIdInfo_inr e b m info :
  newExposureIdInfo e b m = inr info ↔
  Z.abs e < 2 ^ b ∧
  (∀ m', m = Some m' → (b ≤ m')%Z) ∧
  info = {| expId := e; expBits := b; maxBits := m |}.
Proof.
  unfold newExposureIdInfo. rewrite <- bit_length_le.
  case_bool_decide as Hwide.
  - split; [done|]. intros (Hb & _). lia.
  - destruct m as [m|].
    + case_bool_decide as Hnarrow.
      * split; [done|]. intros (_ & Hm & _). specialize (Hm m eq_refl). lia.
      * split.
        -- intros [= <-]. repeat split; [lia|]. intros m' [= <-]. lia.
        -- intros (_ & _ & ->). done.
    + split.
      * intros [= <-]. repeat split; [lia|done].
      * intros (_ & _ & ->). done.
Qed.

(** X21.  An [ExposureIdInfo] is constructed exactly when the magnitude of
    the id is below [2 ^ expBits] and [maxBits], when given, is at least
    [expBits]; the instance then holds the three values as given.  The
    sign of the id plays no part. *)
Theorem newExposureIdInfo_constructed e b m info :
  newExposureIdInfo e b m = inr info ↔
  Z.abs e < 2 ^ b ∧
  (∀ m', m = Some m' → (b ≤ m')%Z) ∧
  info = {| expId := e; expBits := b; maxBits := m |}.
Proof. apply newExposureIdInfo_inr. Qed.

(** X22.  The bits fit.  For an instance constructed with [maxBits] and an id
    that is not negative, [unusedBits] is not negative and an id written in
    the bits above it, with any value of [unusedBits] bits below, stays
    below [2 ^ maxBits]. *)
Theorem unusedBits_fit reserved e b m info k :
  newExposureIdInfo e b (Some m) = inr info →
  (0 ≤ e)%Z →
  (0 ≤ k < 2 ^ unusedBits reserved info)%Z →
  (0 ≤ unusedBits reserved info)%Z ∧
  unusedBits reserved info + expBits info = m ∧
  (0 ≤ expId info * 2 ^ unusedBits reserved info + k < 2 ^ m)%Z.
Proof.
  intros Hnew He Hk.
  apply newExposureIdInfo_inr in Hnew as (Hb & Hm & ->).
  specialize (Hm m eq_refl). unfold unusedBits in *. simpl in *.
  assert (0 ≤ b)%Z as Hb0.
  { destruct (decide (0 ≤ b)%Z) as [|Hneg]; [done|].
    rewrite Z.pow_neg_r in Hb by lia. lia. }
  rewrite Z.abs_eq in Hb by done.
  split; [lia|]. split; [lia|].
  assert (2 ^ m = 2 ^ b * 2 ^ (m - b)) as ->.
  { rewrite <- Z.pow_add_r by lia. f_equal. lia. }
  assert (0 < 2 ^ (m - b)) by (apply Z.pow_pos_nonneg; lia).
  nia.
Qed.

(** * The properties on the example data *)

Section Examples.
#[local] Existing Instance Interval.

(** [run_rollback_undoes] on a batch under [rollback] whose second file
    cannot be read: what the first file had added is gone. *)
Lemma run_rollback_undoes_witness :
  ∃ w',
    run rollbackConfig ([exposure "a.fits" 1 0 1] ++ unreadable :: [])
      (fresh rollbackConfig provisioned)
      = (Raised (OtherError "unreadable"), w') ∧
    history w' =
      history
        (processFile rollbackConfig unreadable
           (forEach [exposure "a.fits" 1 0 1] (processFile rollbackConfig)
              (record TransactionBegin
                 (registered (fresh rollbackConfig provisioned)))).2).2
      ++ [TransactionRollback] ∧
    dimensionEntries (registry w') = dimensionEntries provisioned ∧
    datasets (registry w') = datasets provisioned ∧
    regions (registry w') = regions provisioned ∧
    runs (registry w') = runs provisioned ∧
    datasetTypes (registry w') = {["raw"]} ∪ datasetTypes provisioned.
Proof.
  exact (run_rollback_undoes rollbackConfig [exposure "a.fits" 1 0 1]
           unreadable [] (fresh rollbackConfig provisioned) _ _
           (OtherError "unreadable") eq_refl
           (outcome_eq
              (forEach [exposure "a.fits" 1 0 1] (processFile rollbackConfig)
                 (record TransactionBegin
                    (registered (fresh rollbackConfig provisioned)))) _
              eq_refl)
           (outcome_eq
              (processFile rollbackConfig unreadable
                 (forEach [exposure "a.fits" 1 0 1]
                    (processFile rollbackConfig)
                    (record TransactionBegin
                       (registered (fresh rollbackConfig provisioned)))).2)
              _ eq_refl)).
Defined.

(** C1 as the specification states it does not hold: the same batch leaves
    the dataset type registered, so the registry is not the one [run]
    started from. *)
Lemma run_rollback_keeps_dataset_type :
  onError rollbackConfig = onError_rollback ∧
  (run rollbackConfig [exposure "a.fits" 1 0 1; unreadable]
     (fresh rollbackConfig provisioned)).1
    = Raised (OtherError "unreadable") ∧
  registry
    (run rollbackConfig [exposure "a.fits" 1 0 1; unreadable]
       (fresh rollbackConfig provisioned)).2
    ≠ registry (fresh rollbackConfig provisioned).
Proof.
  split; [reflexivity|]. split; [vm_compute; reflexivity|].
  intros Heq.
  apply (f_equal (λ r, bool_decide ("raw" ∈ datasetTypes r))) in Heq.
  vm_compute in Heq. discriminate.
Qed.

(** [processFile_conflict_transaction] on a second file of an identity
    already ingested, under [fail]: the transaction is rolled back. *)
Lemma processFile_conflict_transaction_witness :
  registry (afterAttempt failConfig) = registry (beforeAttempt failConfig) ∧
  processFile failConfig (exposure "a_copy.fits" 1 0 1)
    (ingestedOnce failConfig) =
    (Raised (IngestConflictError "a_copy.fits" theId),
     record TransactionRollback
       (set_registry (λ _, registry (beforeAttempt failConfig))
          (afterAttempt failConfig))).
Proof.
  refine (processFile_conflict_transaction failConfig
            (exposure "a_copy.fits" 1 0 1) (ingestedOnce failConfig)
            (headersOf (exposure "a_copy.fits" 1 0 1)) theId
            (beforeAttempt failConfig) (afterAttempt failConfig)
            (IngestConflictError "a_copy.fits" theId)
            (outcome_eq
               (ensureDimensions failConfig (exposure "a_copy.fits" 1 0 1)
                  (ingestedOnce failConfig)) _ _)
            (outcome_eq
               (ingestFile failConfig (exposure "a_copy.fits" 1 0 1)
                  (headersOf (exposure "a_copy.fits" 1 0 1)) theId None
                  (record TransactionBegin (beforeAttempt failConfig))) _ _)
            eq_refl).
  - vm_compute. reflexivity.
  - vm_compute. reflexivity.
Defined.

(** C2 as the specification states it does not hold: under [ignore] the
    transaction around the refused ingest is committed; the history of the
    second file has no rollback. *)
Lemma conflict_ignored_commits :
  conflict ignoreConfig = conflict_ignore ∧
  (ensureDimensions ignoreConfig (exposure "a_copy.fits" 1 0 1)
     (ingestedOnce ignoreConfig)).1
    = Returned (headersOf (exposure "a_copy.fits" 1 0 1), theId) ∧
  (ingestFile ignoreConfig (exposure "a_copy.fits" 1 0 1)
     (headersOf (exposure "a_copy.fits" 1 0 1)) theId None
     (record TransactionBegin
        (ensureDimensions ignoreConfig (exposure "a_copy.fits" 1 0 1)
           (ingestedOnce ignoreConfig)).2)).1
    = Raised (IngestConflictError "a_copy.fits" theId) ∧
  (processFile ignoreConfig (exposure "a_copy.fits" 1 0 1)
     (ingestedOnce ignoreConfig)).1 = Returned tt ∧
  history (ingestedTwice ignoreConfig) =
    history (ingestedOnce ignoreConfig) ++
      [SetDimensionRegion (DetectorRegion "cam" 7 1) false false;
       TransactionBegin;
       Ingest "raw" "a_copy.fits" ("cam", 1, 100) false;
       TransactionCommit;
       LogInfo "a_copy.fits"] ∧
  TransactionRollback ∉ history (ingestedTwice ignoreConfig).
Proof.
  repeat split; try (vm_compute; reflexivity).
  apply (bool_decide_unpack
           (TransactionRollback ∉ history (ingestedTwice ignoreConfig))).
  vm_compute. exact I.
Qed.

(** [processFile_conflict_ignored] on a second file of an identity already
    ingested, with a stash: the file goes to the stash, which is registered
    on the way; a file the datastore cannot transfer makes [processFile]
    raise the error of the datastore and leaves the stash empty. *)
Lemma processFile_conflict_ignored_witness :
  (∃ w',
     processFile stashConfig (exposure "a_copy.fits" 1 0 1)
       (ingestedOnce stashConfig) = (Returned tt, w') ∧
     datasets (registry w') !! ("stash", ("cam", 1, 100))
       = Some "a_copy.fits" ∧
     datasets (registry w') !! ("raw", ("cam", 1, 100)) = Some "a.fits" ∧
     "stash" ∈ runs (registry w')) ∧
  (∃ w',
     processFile stashConfig untransferable (ingestedOnce stashConfig)
       = (Raised (OtherError "no space left on device"), w') ∧
     datasets (registry w') = datasets (registry (ingestedOnce stashConfig)) ∧
     last (history w') = Some TransactionRollback).
Proof.
  split.
  - pose proof (processFile_conflict_ignored stashConfig
              (exposure "a_copy.fits" 1 0 1) (ingestedOnce stashConfig)
              (headersOf (exposure "a_copy.fits" 1 0 1)) theId
              (beforeAttempt stashConfig) (afterAttempt stashConfig)
              (IngestConflictError "a_copy.fits" theId)
              eq_refl
              (outcome_eq
                 (ensureDimensions stashConfig (exposure "a_copy.fits" 1 0 1)
                    (ingestedOnce stashConfig)) _ eq_refl)
              (outcome_eq
                 (ingestFile stashConfig (exposure "a_copy.fits" 1 0 1)
                    (headersOf (exposure "a_copy.fits" 1 0 1)) theId None
                    (record TransactionBegin (beforeAttempt stashConfig))) _
                 eq_refl)
              eq_refl) as Hthm.
    change (stashRun (task (ingestedOnce stashConfig)))
      with (Some {| collection := "stash"; run_id := None |}) in Hthm.
    destruct Hthm as (w' & Hprocess & _ & Hstash & Hdefault & Hruns & _).
    + discriminate.
    + vm_compute. reflexivity.
    + exists w'. split; [exact Hprocess|]. split; [exact Hstash|].
      split; [refine (eq_trans Hdefault _); vm_compute; reflexivity|].
      rewrite Hruns. simpl. set_solver.
  - pose proof (processFile_conflict_ignored stashConfig untransferable
              (ingestedOnce stashConfig) [theHeader] theId
              (ensureDimensions stashConfig untransferable
                 (ingestedOnce stashConfig)).2
              (ingestFile stashConfig untransferable [theHeader] theId None
                 (record TransactionBegin
                    (ensureDimensions stashConfig untransferable
                       (ingestedOnce stashConfig)).2)).2
              (IngestConflictError "d.fits" theId)
              eq_refl
              (outcome_eq
                 (ensureDimensions stashConfig untransferable
                    (ingestedOnce stashConfig)) _ eq_refl)
              (outcome_eq
                 (ingestFile stashConfig untransferable [theHeader] theId
                    None
                    (record TransactionBegin
                       (ensureDimensions stashConfig untransferable
                          (ingestedOnce stashConfig)).2)) _
                 eq_refl)
              eq_refl) as Hthm.
    change (stashRun (task (ingestedOnce stashConfig)))
      with (Some {| collection := "stash"; run_id := None |}) in Hthm.
    apply Hthm.
    + discriminate.
    + vm_compute. reflexivity.
Defined.

(** C3 as the specification states it does not hold: a third file of the
    same identity conflicts in the stash as well; [processFile] raises and
    the stash keeps the second file. *)
Lemma stash_conflict_propagates :
  conflict stashConfig = conflict_ignore ∧
  stash stashConfig = Some "stash" ∧
  (ingestFile stashConfig (exposure "a_again.fits" 1 0 1)
     (headersOf (exposure "a_again.fits" 1 0 1)) theId None
     (record TransactionBegin
        (ensureDimensions stashConfig (exposure "a_again.fits" 1 0 1)
           (ingestedTwice stashConfig)).2)).1
    = Raised (IngestConflictError "a_again.fits" theId) ∧
  (processFile stashConfig (exposure "a_again.fits" 1 0 1)
     (ingestedTwice stashConfig)).1
    = Raised (IngestConflictError "a_again.fits" theId) ∧
  datasets
    (registry
       (processFile stashConfig (exposure "a_again.fits" 1 0 1)
          (ingestedTwice stashConfig)).2)
    !! ("stash", ("cam", 1, 100)) = Some "a_copy.fits".
Proof. repeat split; vm_compute; reflexivity. Qed.

(** [ensureDimensions_absent_entry] twice: the visit of the first file is
    looked up, not found and inserted; without the instrument in the
    registry the lookup of the instrument fails the call and inserts
    nothing. *)
Lemma ensureDimensions_absent_entry_witness :
  (AddDimensionEntry (VisitId "cam" 7) ∈ firstReconciliation ∧
   VisitId "cam" 7
     ∈ dimensionEntries
         (registry
            (ensureDimensions ignoreConfig (exposure "a.fits" 1 0 1)
               (fresh ignoreConfig provisioned)).2)) ∧
  ((ensureDimensions ignoreConfig (exposure "a.fits" 1 0 1)
      (fresh ignoreConfig unprovisioned)).1
     = Raised (LookupError (Some (InstrumentId "cam"))) ∧
   (AddDimensionEntry (InstrumentId "cam")
      ∉ [FindDimensionEntry (InstrumentId "cam") false]) ∧
   (InstrumentId "cam"
      ∉ dimensionEntries
          (registry
             (ensureDimensions ignoreConfig (exposure "a.fits" 1 0 1)
                (fresh ignoreConfig unprovisioned)).2))).
Proof.
  split.
  - refine (ensureDimensions_absent_entry ignoreConfig
              (exposure "a.fits" 1 0 1) (fresh ignoreConfig provisioned)
              _ _ firstReconciliation (VisitId "cam" 7)
              (outcome_eq
                 (ensureDimensions ignoreConfig (exposure "a.fits" 1 0 1)
                    (fresh ignoreConfig provisioned)) _ eq_refl) _ _).
    + vm_compute. reflexivity.
    + apply (bool_decide_unpack
               (FindDimensionEntry (VisitId "cam" 7) false
                  ∈ firstReconciliation)).
      vm_compute. exact I.
  - refine (ensureDimensions_absent_entry ignoreConfig
              (exposure "a.fits" 1 0 1) (fresh ignoreConfig unprovisioned)
              _ _ [FindDimensionEntry (InstrumentId "cam") false]
              (InstrumentId "cam")
              (outcome_eq
                 (ensureDimensions ignoreConfig (exposure "a.fits" 1 0 1)
                    (fresh ignoreConfig unprovisioned)) _ eq_refl) _ _).
    + vm_compute. reflexivity.
    + apply list_elem_of_singleton. reflexivity.
Defined.



(** [ensureDimensions_twice] on the first file of detector 1, followed by
    a second exposure of the same visit on the same detector: the first call
    stores the region and accumulates its two vertices, the second is
    refused the write and accumulates nothing. *)
Lemma ensureDimensions_twice_witness :
  ∃ i d region,
    regionOf ignoreConfig (headersOf (exposure "a.fits" 1 0 1), theId).1
      = Returned region ∧
    dataId_instrument (headersOf (exposure "a.fits" 1 0 1), theId).2 = i ∧
    dataId_detector (headersOf (exposure "a.fits" 1 0 1), theId).2 = d ∧
    match regions (registry (fresh ignoreConfig provisioned))
            !! DetectorRegion i 7 d with
    | None =>
        regions (registry reconciled)
          = <[DetectorRegion i 7 d := region]>
              (regions (registry (fresh ignoreConfig provisioned))) ∧
        accumulated (i, 7) (visitRegions (task reconciled))
          = Some (default []
                    (accumulated (i, 7)
                       (visitRegions (task (fresh ignoreConfig provisioned))))
                  ++ getVertices region) ∧
        ∀ key, key ≠ (i, 7) →
          accumulated key (visitRegions (task reconciled))
            = accumulated key
                (visitRegions (task (fresh ignoreConfig provisioned)))
    | Some _ =>
        regions (registry reconciled)
          = regions (registry (fresh ignoreConfig provisioned)) ∧
        visitRegions (task reconciled)
          = visitRegions (task (fresh ignoreConfig provisioned))
    end ∧
    ∃ w2,
      ensureDimensions ignoreConfig secondExposure reconciled
        = (Returned ([secondHeader], extractDataId secondObservation), w2) ∧
      regions (registry w2) = regions (registry reconciled) ∧
      visitRegions (task w2) = visitRegions (task reconciled) ∧
      last (history w2)
        = Some (SetDimensionRegion (DetectorRegion i 7 d) false false) ∧
      (extractDataId secondObservation
         = (headersOf (exposure "a.fits" 1 0 1), theId).2 →
       w2 = record (SetDimensionRegion (DetectorRegion i 7 d) false false)
              reconciled).
Proof.
  exact (ensureDimensions_twice ignoreConfig (exposure "a.fits" 1 0 1)
           (fresh ignoreConfig provisioned)
           (headersOf (exposure "a.fits" 1 0 1), theId) reconciled 7
           secondExposure secondHeader secondObservation [2; 3] eq_refl
           (outcome_eq
              (ensureDimensions ignoreConfig (exposure "a.fits" 1 0 1)
                 (fresh ignoreConfig provisioned)) _ eq_refl)
           eq_refl eq_refl eq_refl eq_refl eq_refl eq_refl eq_refl eq_refl).
Defined.

(** The hull of points on a line does not depend on their order. *)
Lemma foldr_min_Permutation (l1 l2 : list Z) :
  l1 ≡ₚ l2 → ∀ a, foldr Z.min a l1 = foldr Z.min a l2.
Proof. induction 1; intros a; simpl; [done|congruence|lia|congruence]. Qed.

Lemma foldr_max_Permutation (l1 l2 : list Z) :
  l1 ≡ₚ l2 → ∀ a, foldr Z.max a l1 = foldr Z.max a l2.
Proof. induction 1; intros a; simpl; [done|congruence|lia|congruence]. Qed.

Lemma foldr_min_head (a b : Z) l :
  foldr Z.min a (b :: l) = foldr Z.min b (a :: l).
Proof. simpl. induction l as [|c l IH]; simpl; lia. Qed.

Lemma foldr_max_head (a b : Z) l :
  foldr Z.max a (b :: l) = foldr Z.max b (a :: l).
Proof. simpl. induction l as [|c l IH]; simpl; lia. Qed.

Lemma hull_Permutation (l1 l2 : list Z) : l1 ≡ₚ l2 → hull l1 = hull l2.
Proof.
  induction 1 as [|a l1 l2 Hp IH|a b l|l1 l2 l3 Hp1 IH1 Hp2 IH2].
  - done.
  - simpl. by rewrite (foldr_min_Permutation _ _ Hp),
      (foldr_max_Permutation _ _ Hp).
  - unfold hull. by rewrite foldr_min_head, foldr_max_head.
  - congruence.
Qed.

(** [visit_regions_merged] on the two detectors of visit 7, in both
    orders. *)
Lemma visit_regions_merged_witness :
  ∃ w2 w2',
    run ignoreConfig detectorFiles (fresh ignoreConfig provisioned)
      = (Returned tt, w2) ∧
    run ignoreConfig detectorFilesSwapped (fresh ignoreConfig provisioned)
      = (Returned tt, w2') ∧
    ∀ i v,
      regions (registry w2) !! VisitRegion i v
        = mergedVisitRegion
            (regions (registry (fresh ignoreConfig provisioned)))
            (written ignoreConfig detectorFiles) (i, v) ∧
      regions (registry w2') !! VisitRegion i v
        = regions (registry w2) !! VisitRegion i v.
Proof.
  refine (visit_regions_merged ignoreConfig detectorFiles
            detectorFilesSwapped (fresh ignoreConfig provisioned) _ _
            eq_refl hull_Permutation eq_refl _ _
            (outcome_eq
               (forEach detectorFiles (processFile ignoreConfig)
                  (loopStart ignoreConfig (fresh ignoreConfig provisioned)))
               _ eq_refl)
            _
            (outcome_eq
               (forEach detectorFilesSwapped (processFile ignoreConfig)
                  (loopStart ignoreConfig (fresh ignoreConfig provisioned)))
               _ eq_refl)).
  - apply (bool_decide_unpack
             (NoDup (regionKeyOf <$> written ignoreConfig detectorFiles))).
    vm_compute. exact I.
  - intros t _. apply lookup_empty.
  - apply perm_swap.
Defined.

(** C7 as the specification states it does not hold: when the region of
    detector 1 is already stored its vertices are not accumulated, and the
    visit region committed after both files is the hull of detector 2
    alone. *)
Lemma visit_region_misses_stored_detector :
  (run ignoreConfig detectorFiles (fresh ignoreConfig halfDone)).1
    = Returned tt ∧
  regions (registry (fresh ignoreConfig halfDone)) !! VisitRegion "cam" 7
    = None ∧
  regions
    (registry (run ignoreConfig detectorFiles (fresh ignoreConfig halfDone)).2)
    !! VisitRegion "cam" 7
    = Some (ConvexPolygon [5; 6]) ∧
  ConvexPolygon ([0; 1] ++ [5; 6]) ≠ ConvexPolygon [5; 6].
Proof.
  split; [vm_compute; reflexivity|]. split; [vm_compute; reflexivity|].
  split; [vm_compute; reflexivity|]. vm_compute. discriminate.
Qed.

(** [visitRegions_outlive_run] on a second call of [run] on the same
    task. *)
Lemma visitRegions_outlive_run_witness :
  (∃ more,
     (("cam", 7), [0; 1] ++ more)
       ∈ visitRegions
           (task (run ignoreConfig [exposure "b.fits" 2 5 6]
                    afterFirstRun).2)) ∧
  (∃ old more,
     regions
       (registry
          (run ignoreConfig [exposure "b.fits" 2 5 6] afterFirstRun).2)
       !! VisitRegion "cam" 7
       = Some (ConvexPolygon (old ++ [0; 1] ++ more))).
Proof.
  assert ((("cam", 7), [0; 1]) ∈ visitRegions (task afterFirstRun)) as Hin.
  { apply (bool_decide_unpack
             ((("cam", 7), [0; 1]) ∈ visitRegions (task afterFirstRun))).
    vm_compute. exact I. }
  destruct (visitRegions_outlive_run ignoreConfig [exposure "b.fits" 2 5 6]
              afterFirstRun ("cam", 7) [0; 1]) as (_ & Hkept & Hcommitted).
  split; [exact (Hkept Hin)|].
  apply (Hcommitted Hin); [|reflexivity|vm_compute; reflexivity].
  apply (bool_decide_unpack (NoDup (visitRegions (task afterFirstRun)).*1)).
  vm_compute. exact I.
Defined.

(** C9 as the specification states it does not hold: a second call of
    [run], on no file at all, starts from the map the first call left and
    commits the region of its visit again. *)
Lemma visitRegions_kept_between_runs :
  visitRegions (task afterFirstRun) = [(("cam", 7), [0; 1])] ∧
  history (run ignoreConfig [] afterFirstRun).2
    = history afterFirstRun ++
        [RegisterDatasetType "raw";
         ExpandDataId (VisitRegion "cam" 7);
         SetDimensionRegion (VisitRegion "cam" 7) true true].
Proof. split; vm_compute; reflexivity. Qed.



(** The cache of a task just constructed is empty, so it tells the
    truth. *)
Lemma fresh_cacheHolds config r : cacheHolds (fresh config r).
Proof. intros d k. by destruct d. Qed.

(** The universe of the example butler iterates the prerequisites first. *)
Lemma fresh_prerequisitesFirst config r :
  prerequisitesFirst (selfDimensions (fresh config r)).
Proof.
  exists [dim_instrument; dim_detector; dim_physical_filter],
    [dim_visit; dim_exposure].
  split; [reflexivity|]. unfold prerequisite.
  split; repeat constructor; rewrite !elem_of_cons, elem_of_nil; intuition;
    discriminate.
Qed.

(** [run_continue_returns] on a batch whose second file cannot be read. *)
Lemma run_continue_returns_witness :
  (run ignoreConfig brokenBatch (fresh ignoreConfig provisioned)).1
    = Returned tt.
Proof.
  exact (run_continue_returns ignoreConfig brokenBatch
           (fresh ignoreConfig provisioned) eq_refl).
Defined.

(** [run_break_stops] on a batch whose second file cannot be read and whose
    third is never reached. *)
Lemma run_break_stops_witness :
  run breakConfig
      ([exposure "a.fits" 1 0 1] ++ unreadable :: [exposure "b.fits" 2 5 6])
      (fresh breakConfig provisioned)
    = (Raised (OtherError "unreadable"), afterFailure) ∧
  datasets (registry afterFailure) = datasets (registry beforeFailure).
Proof.
  exact (run_break_stops breakConfig [exposure "a.fits" 1 0 1] unreadable
           [exposure "b.fits" 2 5 6] (fresh breakConfig provisioned) _ _
           (OtherError "unreadable") eq_refl
           (outcome_eq
              (forEach [exposure "a.fits" 1 0 1] (processFile breakConfig)
                 (registered (fresh breakConfig provisioned))) _ eq_refl)
           (outcome_eq (processFile breakConfig unreadable beforeFailure) _
              eq_refl)).
Defined.

(** [run_returned_ingested] on the two detector files under [break]. *)
Lemma run_returned_ingested_witness :
  ingested (collection (butler_run (fresh breakConfig provisioned)))
    (registry (run breakConfig detectorFiles
                 (fresh breakConfig provisioned)).2)
    (exposure "a.fits" 1 0 1) ∧
  ingested (collection (butler_run (fresh breakConfig provisioned)))
    (registry (run breakConfig detectorFiles
                 (fresh breakConfig provisioned)).2)
    (exposure "b.fits" 2 5 6).
Proof.
  split.
  - refine (run_returned_ingested breakConfig detectorFiles
              (fresh breakConfig provisioned) _ _
              (outcome_eq
                 (run breakConfig detectorFiles
                    (fresh breakConfig provisioned)) _ eq_refl)
              (exposure "a.fits" 1 0 1) _).
    + discriminate.
    + apply elem_of_cons. left. reflexivity.
  - refine (run_returned_ingested breakConfig detectorFiles
              (fresh breakConfig provisioned) _ _
              (outcome_eq
                 (run breakConfig detectorFiles
                    (fresh breakConfig provisioned)) _ eq_refl)
              (exposure "b.fits" 2 5 6) _).
    + discriminate.
    + apply elem_of_cons. right. apply list_elem_of_singleton. reflexivity.
Defined.

(** [run_continue_accounts] for both files of a batch whose second file
    cannot be read. *)
Lemma run_continue_accounts_witness :
  (LogWarn (path (exposure "a.fits" 1 0 1))
     ∈ history (run ignoreConfig brokenBatch
                  (fresh ignoreConfig provisioned)).2 ∨
   ingested (collection (butler_run (fresh ignoreConfig provisioned)))
     (registry (run ignoreConfig brokenBatch
                  (fresh ignoreConfig provisioned)).2)
     (exposure "a.fits" 1 0 1)) ∧
  (LogWarn (path unreadable)
     ∈ history (run ignoreConfig brokenBatch
                  (fresh ignoreConfig provisioned)).2 ∨
   ingested (collection (butler_run (fresh ignoreConfig provisioned)))
     (registry (run ignoreConfig brokenBatch
                  (fresh ignoreConfig provisioned)).2)
     unreadable).
Proof.
  split.
  - refine (run_continue_accounts ignoreConfig brokenBatch
              (fresh ignoreConfig provisioned) (exposure "a.fits" 1 0 1)
              eq_refl _).
    apply elem_of_cons. left. reflexivity.
  - refine (run_continue_accounts ignoreConfig brokenBatch
              (fresh ignoreConfig provisioned) unreadable eq_refl _).
    apply elem_of_cons. right. apply list_elem_of_singleton. reflexivity.
Defined.

(** [detector_region_kept] on a registry that holds the region of
    detector 1 before the files of both detectors are ingested. *)
Lemma detector_region_kept_witness :
  regions
    (registry (run ignoreConfig detectorFiles
                 (fresh ignoreConfig halfDone)).2)
    !! DetectorRegion "cam" 7 1 = Some [0; 1].
Proof.
  refine (detector_region_kept ignoreConfig detectorFiles
            (fresh ignoreConfig halfDone) "cam" 7 1 [0; 1] _).
  vm_compute. reflexivity.
Defined.

(** [missing_prerequisite_changes_nothing] on a registry without the
    instrument. *)
Lemma missing_prerequisite_changes_nothing_witness :
  registry
    (ensureDimensions ignoreConfig (exposure "a.fits" 1 0 1)
       (fresh ignoreConfig unprovisioned)).2
    = registry (fresh ignoreConfig unprovisioned) ∧
  visitRegions
    (task
       (ensureDimensions ignoreConfig (exposure "a.fits" 1 0 1)
          (fresh ignoreConfig unprovisioned)).2)
    = visitRegions (task (fresh ignoreConfig unprovisioned)) ∧
  Forall lookupEvent [FindDimensionEntry (InstrumentId "cam") false] ∧
  processFile ignoreConfig (exposure "a.fits" 1 0 1)
    (fresh ignoreConfig unprovisioned)
    = (Raised (LookupError (Some (InstrumentId "cam"))),
       (ensureDimensions ignoreConfig (exposure "a.fits" 1 0 1)
          (fresh ignoreConfig unprovisioned)).2).
Proof.
  refine (missing_prerequisite_changes_nothing ignoreConfig
            (exposure "a.fits" 1 0 1) (fresh ignoreConfig unprovisioned)
            _ _ [FindDimensionEntry (InstrumentId "cam") false]
            (InstrumentId "cam")
            (fresh_prerequisitesFirst ignoreConfig unprovisioned)
            (outcome_eq
               (ensureDimensions ignoreConfig (exposure "a.fits" 1 0 1)
                  (fresh ignoreConfig unprovisioned)) _ eq_refl) _ _ _).
  - vm_compute. reflexivity.
  - apply list_elem_of_singleton. reflexivity.
  - intros Hin. apply elem_of_cons in Hin as [Hin|Hin]; [discriminate|].
    apply list_elem_of_singleton in Hin. discriminate.
Defined.

(** [ensureDimensions_entries_present] on the first file of detector 1. *)
Lemma ensureDimensions_entries_present_witness :
  cacheHolds
    (ensureDimensions ignoreConfig (exposure "a.fits" 1 0 1)
       (fresh ignoreConfig provisioned)).2 ∧
  ∀ d k,
    dimensionDataId (headersOf (exposure "a.fits" 1 0 1), theId).2 d
      = Some k →
    k ∈ dimensionEntries
          (registry
             (ensureDimensions ignoreConfig (exposure "a.fits" 1 0 1)
                (fresh ignoreConfig provisioned)).2).
Proof.
  exact (ensureDimensions_entries_present ignoreConfig
           (exposure "a.fits" 1 0 1) (fresh ignoreConfig provisioned) _ _
           (fresh_cacheHolds ignoreConfig provisioned)
           (outcome_eq
              (ensureDimensions ignoreConfig (exposure "a.fits" 1 0 1)
                 (fresh ignoreConfig provisioned)) _ eq_refl)).
Defined.

(** [run_cacheHolds] under [continue] on a batch whose second file cannot
    be read. *)
Lemma run_cacheHolds_witness :
  cacheHolds
    (run ignoreConfig brokenBatch (fresh ignoreConfig provisioned)).2.
Proof.
  refine (run_cacheHolds ignoreConfig brokenBatch
            (fresh ignoreConfig provisioned) _
            (fresh_cacheHolds ignoreConfig provisioned)).
  discriminate.
Defined.

(** [rollback_leaves_cache] for the visit entry: the batch whose second
    file cannot be read is rolled back, the visit stays marked. *)
Lemma rollback_leaves_cache_witness :
  VisitId "cam" 7
    ∈ entriesDone (dimensionOf (VisitId "cam" 7))
        (run rollbackConfig brokenBatch
           (fresh rollbackConfig provisioned)).2 ∧
  (VisitId "cam" 7
     ∉ dimensionEntries
         (registry
            (run rollbackConfig brokenBatch
               (fresh rollbackConfig provisioned)).2)) ∧
  ¬ cacheHolds
      (run rollbackConfig brokenBatch (fresh rollbackConfig provisioned)).2.
Proof.
  refine (rollback_leaves_cache rollbackConfig brokenBatch
            (fresh rollbackConfig provisioned)
            (OtherError "unreadable") _
            (history
               (run rollbackConfig brokenBatch
                  (fresh rollbackConfig provisioned)).2)
            (VisitId "cam" 7) eq_refl
            (outcome_eq
               (run rollbackConfig brokenBatch
                  (fresh rollbackConfig provisioned)) _ eq_refl)
            eq_refl _).
  apply (bool_decide_unpack
           (AddDimensionEntry (VisitId "cam" 7)
              ∈ history
                  (run rollbackConfig brokenBatch
                     (fresh rollbackConfig provisioned)).2)).
  vm_compute. exact I.
Defined.

(** [ingestFile_raises] on the second file of an identity already
    ingested, which conflicts, and on a file the datastore cannot
    transfer. *)
Lemma ingestFile_raises_witness :
  (registry (afterAttempt ignoreConfig)
     = registry (record TransactionBegin (beforeAttempt ignoreConfig)) ∧
   IngestConflictError "a_copy.fits" theId ≠ ConflictingDefinitionError ∧
   IngestConflictError "a_copy.fits" theId
     = IngestConflictError (path (exposure "a_copy.fits" 1 0 1)) theId) ∧
  (registry
     (ingestFile ignoreConfig untransferable [theHeader] theId None
        (fresh ignoreConfig provisioned)).2
     = registry (fresh ignoreConfig provisioned) ∧
   OtherError "no space left on device" ≠ ConflictingDefinitionError ∧
   ∃ msg,
     datastoreIngest untransferable (transfer ignoreConfig) "CamRawFormatter"
       = Failed msg ∧
     OtherError "no space left on device" = OtherError msg).
Proof.
  split.
  - exact (ingestFile_raises ignoreConfig (exposure "a_copy.fits" 1 0 1)
             (headersOf (exposure "a_copy.fits" 1 0 1)) theId None
             (record TransactionBegin (beforeAttempt ignoreConfig))
             (IngestConflictError "a_copy.fits" theId)
             (afterAttempt ignoreConfig)
             (outcome_eq
                (ingestFile ignoreConfig (exposure "a_copy.fits" 1 0 1)
                   (headersOf (exposure "a_copy.fits" 1 0 1)) theId None
                   (record TransactionBegin (beforeAttempt ignoreConfig)))
                _ eq_refl)).
  - exact (ingestFile_raises ignoreConfig untransferable [theHeader] theId
             None (fresh ignoreConfig provisioned)
             (OtherError "no space left on device") _
             (outcome_eq
                (ingestFile ignoreConfig untransferable [theHeader] theId
                   None (fresh ignoreConfig provisioned))
                _ eq_refl)).
Defined.

(** [stash_conflict_raises] on a third file of an identity that the
    collection and the stash both hold. *)
Lemma stash_conflict_raises_witness :
  ∃ w',
    processFile stashConfig (exposure "a_again.fits" 1 0 1)
      (ingestedTwice stashConfig)
      = (Raised
           (IngestConflictError (path (exposure "a_again.fits" 1 0 1))
              theId),
         w') ∧
    datasets (registry w') = datasets (registry (ingestedTwice stashConfig)) ∧
    last (history w') = Some TransactionRollback.
Proof.
  refine (stash_conflict_raises stashConfig (exposure "a_again.fits" 1 0 1)
            (ingestedTwice stashConfig)
            (headersOf (exposure "a_again.fits" 1 0 1)) theId _
            stashRegistered "CamRawFormatter" eq_refl
            (outcome_eq
               (ensureDimensions stashConfig (exposure "a_again.fits" 1 0 1)
                  (ingestedTwice stashConfig)) _ eq_refl)
            _ _ _ _).
  - vm_compute. reflexivity.
  - vm_compute. reflexivity.
  - apply (bool_decide_unpack
             (is_Some
                (datasets (registry (ingestedTwice stashConfig))
                   !! (collection (butler_run (ingestedTwice stashConfig)),
                       datasetId theId)))).
    vm_compute. exact I.
  - apply (bool_decide_unpack
             (is_Some
                (datasets (registry (ingestedTwice stashConfig))
                   !! (collection stashRegistered, datasetId theId)))).
    vm_compute. exact I.
Defined.

(** [processFile_again] on the first file of detector 1. *)
Lemma processFile_again_witness :
  ∃ w2,
    processFile ignoreConfig (exposure "a.fits" 1 0 1)
      (ingestedOnce ignoreConfig) = (Returned tt, w2) ∧
    registry w2 = registry (ingestedOnce ignoreConfig) ∧
    task w2 = task (ingestedOnce ignoreConfig).
Proof.
  exact (processFile_again ignoreConfig (exposure "a.fits" 1 0 1)
           (fresh ignoreConfig provisioned) (ingestedOnce ignoreConfig)
           eq_refl eq_refl
           (outcome_eq
              (processFile ignoreConfig (exposure "a.fits" 1 0 1)
                 (fresh ignoreConfig provisioned)) _ eq_refl)).
Defined.

(** [stash_registered_once] over three calls of [run] on the same file. *)
Lemma stash_registered_once_witness :
  (registrations
     (history
        (afterRuns stashConfig sameFileThrice
           (fresh stashConfig provisioned))) ≤ 1)%nat ∧
  (registrations
     (history
        (afterRuns stashConfig sameFileThrice
           (fresh stashConfig provisioned))) = 1%nat →
   ∃ r,
     stashRun
       (task
          (afterRuns stashConfig sameFileThrice
             (fresh stashConfig provisioned))) = Some r ∧
     is_Some (run_id r)).
Proof.
  exact (stash_registered_once stashConfig sameFileThrice
           (fresh stashConfig provisioned) eq_refl).
Defined.

(** [nonpositive_pad_ignored] for a pad of -3. *)
Lemma nonpositive_pad_ignored_witness :
  run shrinkConfig detectorFiles (fresh shrinkConfig provisioned)
    = run (unpadded shrinkConfig) detectorFiles
        (fresh shrinkConfig provisioned).
Proof.
  refine (nonpositive_pad_ignored shrinkConfig detectorFiles
            (fresh shrinkConfig provisioned) _).
  vm_compute. discriminate.
Defined.

(** [addVisitRegions_commits] after the two detector files have been
    processed. *)
Lemma addVisitRegions_commits_witness :
  ∃ w',
    _addVisitRegions beforePostPass = (Returned tt, w') ∧
    task w' = task beforePostPass ∧
    dimensionEntries (registry w')
      = dimensionEntries (registry beforePostPass) ∧
    datasets (registry w') = datasets (registry beforePostPass) ∧
    ∀ k, regions (registry w') !! k
         = committed (regions (registry beforePostPass))
             (visitRegions (task beforePostPass)) k.
Proof.
  refine (addVisitRegions_commits beforePostPass _).
  apply (bool_decide_unpack (NoDup (visitRegions (task beforePostPass)).*1)).
  vm_compute. exact I.
Defined.

(** The prerequisites of the first file of detector 1 are in the
    provisioned registry. *)
Lemma provisioned_prerequisites d k :
  prerequisite d →
  loopDataId (linksRequired (fresh ignoreConfig provisioned))
    (extractDataId theObservation) d = Some k →
  k ∈ dimensionEntries (registry (fresh ignoreConfig provisioned)).
Proof.
  intros Hd Hk. destruct d; vm_compute in Hk; simplify_eq.
  - apply (bool_decide_unpack _). vm_compute. exact I.
  - apply (bool_decide_unpack _). vm_compute. exact I.
  - apply (bool_decide_unpack _). vm_compute. exact I.
  - exfalso. apply Hd. apply elem_of_cons. by left.
  - exfalso. apply Hd. apply elem_of_cons. right.
    by apply list_elem_of_singleton.
Qed.

(** [processFile_ingests] on the first file of detector 1. *)
Lemma processFile_ingests_witness :
  ∃ w',
    processFile ignoreConfig (exposure "a.fits" 1 0 1)
      (fresh ignoreConfig provisioned) = (Returned tt, w') ∧
    datasets (registry w')
      = <[(collection (butler_run (fresh ignoreConfig provisioned)),
           datasetId (extractDataId theObservation))
          := path (exposure "a.fits" 1 0 1)]>
          (datasets (registry (fresh ignoreConfig provisioned))) ∧
    last (history w') = Some TransactionCommit ∧
    ∀ d k, dimensionDataId (extractDataId theObservation) d = Some k →
           k ∈ dimensionEntries (registry w').
Proof.
  refine (processFile_ingests ignoreConfig (exposure "a.fits" 1 0 1)
            theHeader theObservation (fresh ignoreConfig provisioned)
            eq_refl eq_refl (fresh_cacheHolds ignoreConfig provisioned)
            (λ _, conj (ex_intro _ 7 eq_refl) (ex_intro _ "r" eq_refl))
            provisioned_prerequisites
            (λ _, ex_intro _ 7 (ex_intro _ [0; 1] (conj eq_refl eq_refl)))
            _ _).
  - vm_compute. reflexivity.
  - vm_compute. reflexivity.
Defined.

(** [run_all_files_pass] on the two detector files under [rollback]. *)
Lemma run_all_files_pass_witness :
  ∃ w2,
    run rollbackConfig detectorFiles (fresh rollbackConfig provisioned)
      = (Returned tt, w2) ∧
    registry w2
      = registry
          ((if doAddRegions rollbackConfig then _addVisitRegions
            else ret tt)
             (forEach detectorFiles (processFile rollbackConfig)
                (loopStart rollbackConfig
                   (fresh rollbackConfig provisioned))).2).2 ∧
    task w2
      = task
          ((if doAddRegions rollbackConfig then _addVisitRegions
            else ret tt)
             (forEach detectorFiles (processFile rollbackConfig)
                (loopStart rollbackConfig
                   (fresh rollbackConfig provisioned))).2).2.
Proof.
  exact (run_all_files_pass rollbackConfig detectorFiles
           (fresh rollbackConfig provisioned) _
           (outcome_eq
              (forEach detectorFiles (processFile rollbackConfig)
                 (loopStart rollbackConfig
                    (fresh rollbackConfig provisioned))) _ eq_refl)).
Defined.

(** [unusedBits_fit] for the id 5 with the value 31 in the five bits
    below it. *)
Lemma unusedBits_fit_witness :
  (0 ≤ unusedBits (λ _, 0) threeOfEight)%Z ∧
  unusedBits (λ _, 0) threeOfEight + expBits threeOfEight = 8 ∧
  (0 ≤ expId threeOfEight * 2 ^ unusedBits (λ _, 0) threeOfEight + 31
     < 2 ^ 8)%Z.
Proof.
  refine (unusedBits_fit (λ _, 0) 5 3 8 threeOfEight 31 eq_refl _ _).
  - discriminate.
  - split; [discriminate | reflexivity].
Defined.

End Examples.
